(** * Foreign-field arithmetic gadgets (src/lib/fetch.ts, from line 386 on)

    A shallow embedding of the foreign-field gadget: the limb codec
    ([split], [combine]), the addition chain ([singleAdd], [sum]), the
    multiplication core ([multiplyNoRangeCheck], [multiply]), division and
    inversion ([divide], [inverse]), the less-than assertion and the
    deferred chain class [Sum].

    JavaScript [bigint] values are [Z]; [<<], [>>] and [&] are
    [Z.shiftl], [Z.shiftr] and [Z.land] (arithmetic shift and
    two's-complement masking on unbounded integers, as for [bigint]);
    [/] and [%] truncate towards zero ([Z.quot], [Z.rem]) and throw a
    RangeError on a zero divisor.

    The embedding follows one run of the gadget in which witnesses are
    computed: a circuit variable carries the value the prover assigns to it. *)

From Stdlib Require Import ZArith String List Bool Lia Znumtheory.
From Stdlib Require Import DecimalString.
Import ListNotations.
Local Open Scope Z_scope.

Set Implicit Arguments.

(** ** Configuration *)

(** The limb width [l] of range-check.js and the order of the native field
    of field.js are constants of files that are not among the sources; they
    are parameters of the development. *)
Class Params : Type := { l : Z; nativeModulus : Z }.

(** A concrete configuration for the examples: 88-bit limbs (so that
    [l3 = 264], the exponent the comments of [assertMul] refer to) over the
    Pallas base field. *)
Definition pasta88 : Params :=
  {| l := 88;
     nativeModulus :=
       0x40000000000000000000000000000000224698fc094cf91b992d30ed00000001 |}.

Infix "<<" := Z.shiftl (at level 32, left associativity).
Infix ">>" := Z.shiftr (at level 32, left associativity).

Section Limbs.
Context {cfg : Params}.

(** Modelled from the spec: [l2] of range-check.js (not among the sources),
    "derived widths l2=2l, l3=3l". *)
Definition l2 : Z := 2 * l.

(** Modelled from the spec: [l3] of range-check.js (not among the sources),
    "derived widths l2=2l, l3=3l". *)
Definition l3 : Z := 3 * l.

(** Modelled from the spec: [lMask] of range-check.js (not among the
    sources), one of the "masks derived from l": the low [l] bits. *)
Definition lMask : Z := (1 << l) - 1.

(** Modelled from the spec: [l2Mask] of range-check.js (not among the
    sources), one of the "masks derived from l": the low [l2] bits. *)
Definition l2Mask : Z := (1 << l2) - 1.

(** ** Limb codec *)

Definition bigint3 : Type := Z * Z * Z.

Definition combine (x : bigint3) : Z :=
  let '(x0, x1, x2) := x in x0 + (x1 << l) + (x2 << l2).

Definition split (x : Z) : bigint3 :=
  (Z.land x lMask, Z.land (x >> l) lMask, Z.land (x >> l2) lMask).

Definition combine2 (x : Z * Z) : Z :=
  let '(x0, x1) := x in x0 + (x1 << l).

Definition split2 (x : Z) : Z * Z :=
  (Z.land x lMask, Z.land (x >> l) lMask).

End Limbs.

(** Modelled from the spec: [bitSlice] of common.js (not among the sources):
    the [length]-bit piece of [x] that starts at bit [start]. *)
Definition bitSlice (x start length : Z) : Z :=
  Z.land (x >> start) ((1 << length) - 1).

(** ** Native field elements and circuit values *)

(** Modelled from the spec: the class [Field] of field.js (not among the
    sources), by "value duality": a constant or a circuit variable; either
    way it carries a value of the native field, for a variable the one the
    prover assigns. *)
Record Field : Type := mkField { Field_isConstant : bool; Field_toBigInt : Z }.

(** Modelled from the spec: the class [Bool] of bool.js (not among the
    sources), with the same duality. *)
Record Bool : Type := mkBool { Bool_isConstant : bool; Bool_toBoolean : bool }.

Definition Field3 : Type := Field * Field * Field.
Definition Field2 : Type := Field * Field.

(** [type Sign = -1n | 1n] *)
Inductive Sign : Type := Plus | Minus.

Definition Sign_toBigint (s : Sign) : Z :=
  match s with Plus => 1 | Minus => -1 end.

(** ** Constraint rows *)

(** Parameters of the addition row, as [foreignFieldAdd] receives them. *)
Record ForeignFieldAdd : Type := mkForeignFieldAdd {
  ffadd_left : Field3;
  ffadd_right : Field3;
  ffadd_overflow : Field;
  ffadd_carry : Field;
  ffadd_modulus : bigint3;
  ffadd_sign : Sign }.

(** Parameters of the multiplication row, as [Gates.foreignFieldMul]
    receives them. *)
Record ForeignFieldMul : Type := mkForeignFieldMul {
  ffmul_left : Field3;
  ffmul_right : Field3;
  ffmul_remainder : Field2;
  ffmul_quotient : Field3;
  ffmul_quotientHiBound : Field;
  ffmul_product1 : Field3;
  ffmul_carry0 : Field;
  ffmul_carry1p : list Field;
  ffmul_carry1c : list Field;
  ffmul_foreignFieldModulus2 : Z;
  ffmul_negForeignFieldModulus : bigint3 }.

(** The append-only constraint log: one entry per gate call or assertion of
    the gadget, in call order. *)
Inductive Row : Type :=
| Row_zero (x : Field3)
| Row_foreignFieldAdd (g : ForeignFieldAdd)
| Row_foreignFieldMul (g : ForeignFieldMul)
| Row_multiRangeCheck (x : Field3)
| Row_compactMultiRangeCheck (xy z : Field)
| Row_assertEquals (x y : Field)
| Row_assertFalse (b : Bool)
| Row_assertOneOf (x : Field) (allowed : list Z).

(** ** Errors and the construction monad *)

Inductive Error : Type :=
| AssertionError (msg : string)
| RangeError (msg : string)
| TypeError (msg : string).

Inductive Result (A : Type) : Type :=
| Ok (a : A)
| Err (e : Error).
Arguments Err {A} e.

(** A construction step returns a value or throws, and appends rows to the
    log; the rows emitted before a throw stay in the log. *)
Definition M (A : Type) : Type := Result A * list Row.

Definition ret {A : Type} (a : A) : M A := (Ok a, []).

Definition throw {A : Type} (e : Error) : M A := (Err e, []).

Definition bind {A B : Type} (m : M A) (k : A -> M B) : M B :=
  match m with
  | (Ok a, w) => let '(r, w') := k a in (r, w ++ w')
  | (Err e, w) => (Err e, w)
  end.

Definition emit (r : Row) : M unit := (Ok tt, [r]).

Definition assert (cond : bool) (msg : string) : M unit :=
  if cond then ret tt else throw (AssertionError msg).

(** [xs[i]]: reading past the end yields [undefined], which the arithmetic
    or destructuring that follows rejects with a TypeError. *)
Definition at_ {A : Type} (xs : list A) (i : nat) : M A :=
  match nth_error xs i with
  | Some a => ret a
  | None => throw (TypeError "undefined")
  end.

Notation "x <- m ;; k" := (bind m (fun x => k))
  (at level 61, m at next level, right associativity).
Notation "m ;;; k" := (bind m (fun _ => k))
  (at level 61, right associativity).

Section FieldOps.
Context {cfg : Params}.

(** ** The surrounding framework, as far as the gadget uses it *)

(** The classes [Field] and [Bool] of field.js and bool.js are not among the
    sources. Per the spec, "every operation inspects this duality and takes
    a constant-folding path (no constraint emitted) when all operands are
    constant"; arithmetic is that of the native field. *)

(** Modelled from the spec: [Field.from] of field.js: a constant of the
    native field. *)
Definition Field_from (x : Z) : Field := mkField true (x mod nativeModulus).

(** Modelled from the spec: [Field.add] of field.js. *)
Definition Field_add (x y : Field) : Field :=
  mkField (Field_isConstant x && Field_isConstant y)
          ((Field_toBigInt x + Field_toBigInt y) mod nativeModulus).

(** Modelled from the spec: [Field.sub] of field.js. *)
Definition Field_sub (x y : Field) : Field :=
  mkField (Field_isConstant x && Field_isConstant y)
          ((Field_toBigInt x - Field_toBigInt y) mod nativeModulus).

(** Modelled from the spec: [Field.mul] of field.js. *)
Definition Field_mul (x y : Field) : Field :=
  mkField (Field_isConstant x && Field_isConstant y)
          ((Field_toBigInt x * Field_toBigInt y) mod nativeModulus).

(** Modelled from the spec: [Field.equals] of field.js; the rows that define
    the boolean are the framework's and are not logged. *)
Definition Field_equals (x y : Field) : Bool :=
  mkBool (Field_isConstant x && Field_isConstant y)
         (Field_toBigInt x =? Field_toBigInt y).

(** Modelled from the spec: [Bool.and] of bool.js. *)
Definition Bool_and (a b : Bool) : Bool :=
  mkBool (Bool_isConstant a && Bool_isConstant b)
         (Bool_toBoolean a && Bool_toBoolean b).

(** Modelled from the spec: [Field.assertEquals] of field.js, "assert
    equality ... on native values": checked at once on constants, recorded
    as a row otherwise. *)
Definition Field_assertEquals (x y : Field) : M unit :=
  if Field_isConstant x && Field_isConstant y
  then assert (Field_toBigInt x =? Field_toBigInt y) "Field.assertEquals()"
  else emit (Row_assertEquals x y).

(** Modelled from the spec: [Bool.assertFalse] of bool.js, "enforce-false on
    native values": checked at once on a constant, recorded as a row
    otherwise. *)
Definition Bool_assertFalse (b : Bool) : M unit :=
  if Bool_isConstant b
  then assert (negb (Bool_toBoolean b)) "Bool.assertFalse()"
  else emit (Row_assertFalse b).

(** Modelled from the spec: a fresh circuit variable holding [x], as
    [exists] of common.js creates them; the value enters the native field. *)
Definition Field_witness (x : Z) : Field := mkField false (x mod nativeModulus).

(** Modelled from the spec: [exists] of common.js (not among the sources):
    "create a witness of N native values from a pure generator function of
    the current assignment environment". The generator may throw. *)
Definition exists_ (n : nat) (compute : M (list Z)) : M (list Field) :=
  vs <- compute ;;
  assert (Nat.eqb (length vs) n) "tuple length" ;;;
  ret (map Field_witness vs).

(** Modelled from the spec: [toVar] of common.js (not among the sources):
    the same value as a circuit variable. *)
Definition toVar (x : Field) : Field := mkField false (Field_toBigInt x).

(** Modelled from the spec: [toVars] of common.js (not among the sources):
    [toVar] on each limb. *)
Definition toVars (x : Field3) : Field3 :=
  let '(x0, x1, x2) := x in (toVar x0, toVar x1, toVar x2).

(** Modelled from the spec: [assertOneOf] of basic.js (not among the
    sources): constrains [x] to one of the listed values. *)
Definition assertOneOf (x : Field) (allowed : list Z) : M unit :=
  emit (Row_assertOneOf x allowed).

(** Modelled from the spec: [Gates.zero] of gates.js (not among the
    sources): "emit a no-op close row that pins a result's cells". *)
Definition Gates_zero (x : Field3) : M unit := emit (Row_zero x).

(** Modelled from the spec: [foreignFieldAdd] of gates.js (not among the
    sources): "emit an addition row". *)
Definition foreignFieldAdd (g : ForeignFieldAdd) : M unit :=
  emit (Row_foreignFieldAdd g).

(** Modelled from the spec: [Gates.foreignFieldMul] of gates.js (not among
    the sources): "emit a multiplication row". *)
Definition Gates_foreignFieldMul (g : ForeignFieldMul) : M unit :=
  emit (Row_foreignFieldMul g).

(** Modelled from the spec: what a range check proves, "a constraint proving
    a value lies in [0, 2^k)". *)
Definition inRange (k : Z) (x : Field) : bool :=
  (0 <=? Field_toBigInt x) && (Field_toBigInt x <? 2 ^ k).

(** Modelled from the spec: a limb-triple of the data model, "three limbs"
    each "an l-bit chunk"; a triple is range-checked "when each limb is
    independently proven < 2^l". *)
Definition Field3_inRange (x : Field3) : bool :=
  let '(x0, x1, x2) := x in inRange l x0 && inRange l x1 && inRange l x2.

(** Modelled from the spec: [multiRangeCheck] of range-check.js (not among
    the sources): "emit a multi-value range check" proving each of three
    limbs [< 2^l]; constants are checked at once. *)
Definition multiRangeCheck (x : Field3) : M unit :=
  let '(x0, x1, x2) := x in
  if Field_isConstant x0 && Field_isConstant x1 && Field_isConstant x2
  then assert (inRange l x0 && inRange l x1 && inRange l x2)
              "Expected fields to fit in l bits"
  else emit (Row_multiRangeCheck x).

(** Modelled from the spec: [compactMultiRangeCheck] of range-check.js (not
    among the sources): the "compact range check on the combined
    remainder". It takes the combined low+mid limb and the high limb,
    splits the former back into its two limbs, checks all three and returns
    the triple. *)
Definition compactMultiRangeCheck (xy z : Field) : M Field3 :=
  let x := Z.land (Field_toBigInt xy) lMask in
  let y := Field_toBigInt xy >> l in
  if Field_isConstant xy && Field_isConstant z
  then assert (inRange l2 xy && inRange l z)
              "Expected fields to fit in 2l and l bits" ;;;
       ret (Field_from x, Field_from y, z)
  else emit (Row_compactMultiRangeCheck xy z) ;;;
       ret (Field_witness x, Field_witness y, z).

(** Modelled from the spec: which rows of a log the prover's values
    violate. Range checks and assertions have the meaning the spec gives
    them; the equations of the addition and multiplication rows belong to
    the proof system (not among the sources) and are not evaluated, so a log
    may fail for more reasons than this reports. *)
Definition Row_violated (r : Row) : bool :=
  match r with
  | Row_multiRangeCheck (x0, x1, x2) =>
      negb (inRange l x0 && inRange l x1 && inRange l x2)
  | Row_compactMultiRangeCheck xy z => negb (inRange l2 xy && inRange l z)
  | Row_assertEquals x y => negb (Field_toBigInt x =? Field_toBigInt y)
  | Row_assertFalse b => Bool_toBoolean b
  | Row_assertOneOf x allowed =>
      negb (existsb (fun c => Field_toBigInt x =? c mod nativeModulus) allowed)
  | Row_zero _ | Row_foreignFieldAdd _ | Row_foreignFieldMul _ => false
  end.

(** Modelled from the spec: "build succeeds, proof later fails": some row of
    the log is violated. *)
Definition proofFails (rows : list Row) : bool := existsb Row_violated rows.

(** ** bigint helpers *)

(** [x / y] on bigint: truncating, RangeError on a zero divisor. *)
Definition BigInt_div (x y : Z) : M Z :=
  if y =? 0 then throw (RangeError "Division by zero") else ret (Z.quot x y).

(** [x % y] on bigint: sign of the dividend, RangeError on a zero divisor. *)
Definition BigInt_rem (x y : Z) : M Z :=
  if y =? 0 then throw (RangeError "Division by zero") else ret (Z.rem x y).

(** Modelled from the spec: [mod] of bindings/crypto/finite_field.js (not
    among the sources): "mod f", the residue in [0, f) for a positive [f],
    computed with the truncating [%] of bigint. *)
Definition mod_ (x p : Z) : M Z :=
  r <- BigInt_rem x p ;;
  ret (if r <? 0 then r + p else r).

(** Modelled from the spec: [inverse] of bindings/crypto/finite_field.js
    (not among the sources), for a positive modulus [p]: the inverse of [a]
    modulo [p] when one exists, and [undefined] ([None]) "if no inverse
    exists". A residue of [0] has none ("inverse(0,f) fails"), whatever the
    modulus, so nothing has an inverse modulo [1]; any other residue has
    one when it is coprime to [p]. *)
Definition modInverse (a p : Z) : M (option Z) :=
  a <- mod_ a p ;;
  if a =? 0 then ret None
  else if Z.gcd a p =? 1 then ret (Some (Z.invmod a p)) else ret None.

(** ** Field3 *)

Definition toBigint3 (x : Field3) : bigint3 :=
  let '(x0, x1, x2) := x in
  (Field_toBigInt x0, Field_toBigInt x1, Field_toBigInt x2).

Definition Field3_from (x : Z) : Field3 :=
  let '(x0, x1, x2) := split x in (Field_from x0, Field_from x1, Field_from x2).

Definition Field3_toBigint (x : Field3) : Z := combine (toBigint3 x).

Definition Field3_isConstant (x : Field3) : bool :=
  let '(x0, x1, x2) := x in
  Field_isConstant x0 && Field_isConstant x1 && Field_isConstant x2.

(** The first two limbs of a triple: [combine2] is also called on triples
    and reads only these. *)
Definition low2 (x : bigint3) : Z * Z := let '(x0, x1, _) := x in (x0, x1).

End FieldOps.

Section ForeignField.
Context {cfg : Params}.

(** ** Addition chain engine *)

(** The witness generator of [singleAdd]: [r0, r1, r2, overflow, carry]. *)
Definition singleAdd_witnesses (x y : Field3) (sign : Sign) (f : Z)
  : M (list Z) :=
  let f_ := split f in
  let x_ := toBigint3 x in
  let y_ := toBigint3 y in
  let sign := Sign_toBigint sign in
  (* figure out if there's overflow *)
  let r := combine x_ + sign * combine y_ in
  let overflow := 0 in
  let overflow := if (sign =? 1) && (r >=? f) then 1 else overflow in
  let overflow := if (sign =? -1) && (r <? 0) then -1 else overflow in
  let overflow := if f =? 0 then 0 else overflow in
  (* do the add with carry *)
  let r01 :=
    combine2 (low2 x_) + sign * combine2 (low2 y_)
    - overflow * combine2 (low2 f_) in
  let carry := r01 >> l2 in
  let r01 := Z.land r01 l2Mask in
  let '(r0, r1) := split2 r01 in
  let r2 := snd x_ + sign * snd y_ - overflow * snd f_ + carry in
  ret [r0; r1; r2; overflow; carry].

Definition singleAdd (x y : Field3) (sign : Sign) (f : Z)
  : M (Field3 * Field) :=
  let f_ := split f in
  ws <- exists_ 5 (singleAdd_witnesses x y sign f) ;;
  match ws with
  | [r0; r1; r2; overflow; carry] =>
      foreignFieldAdd
        {| ffadd_left := x; ffadd_right := y; ffadd_overflow := overflow;
           ffadd_carry := carry; ffadd_modulus := f_; ffadd_sign := sign |} ;;;
      ret ((r0, r1, r2), overflow)
  | _ => throw (TypeError "tuple length")
  end.

(** [sign.reduce((sum, s, i) => sum + s * xBig[i + 1], xBig[0])], from
    index [i] on. *)
Fixpoint sum_reduce (sign : list Sign) (i : nat) (xBig : list Z) (sum : Z)
  : M Z :=
  match sign with
  | [] => ret sum
  | s :: sign' =>
      xi <- at_ xBig (i + 1) ;;
      sum_reduce sign' (S i) xBig (sum + Sign_toBigint s * xi)
  end.

(** [for (let i = 0; i < sign.length; i++)
       ({ result } = singleAdd(result, x[i + 1], sign[i], f))], from index
    [i] on. *)
Fixpoint sum_chain (sign : list Sign) (i : nat) (x : list Field3)
  (result : Field3) (f : Z) : M Field3 :=
  match sign with
  | [] => ret result
  | s :: sign' =>
      xi <- at_ x (i + 1) ;;
      ro <- singleAdd result xi s f ;;
      sum_chain sign' (S i) x (fst ro) f
  end.

Definition sum (x : list Field3) (sign : list Sign) (f : Z) : M Field3 :=
  assert (Nat.eqb (length x) (length sign + 1)) "inputs and operators match" ;;;
  (* constant case *)
  if forallb Field3_isConstant x then
    let xBig := map Field3_toBigint x in
    x0 <- at_ xBig 0 ;;
    sum <- sum_reduce sign 0 xBig x0 ;;
    m <- mod_ sum f ;;
    ret (Field3_from m)
  else
    (* provable case - create chain of ffadd rows *)
    let x := map toVars x in
    result <- at_ x 0 ;;
    result <- sum_chain sign 0 x result f ;;
    (* final zero row to hold result *)
    Gates_zero result ;;;
    (* range check result *)
    multiRangeCheck result ;;;
    ret result.

(** The sum [sum_i sign_i*t_i] over the terms after the first, in the spec's
    words; the constant folding of [sum] is compared with it. *)
Fixpoint signedTerms_spec (sign : list Sign) (ts : list Z) : Z :=
  match sign, ts with
  | s :: sign', t :: ts' => Sign_toBigint s * t + signedTerms_spec sign' ts'
  | _, _ => 0
  end.

(** ** Multiplication core *)

(** The witness generator of [multiplyNoRangeCheck]: 21 values. *)
Definition multiplyNoRangeCheck_witnesses (a b : Field3) (f : Z)
  : M (list Z) :=
  let f_ := (1 << l3) - f in
  let '(f_0, f_1, f_2) := split f_ in
  let f2 := f >> l2 in
  let f2Bound := (1 << l) - f2 - 1 in
  (* convert inputs to bigints *)
  let '(a0, a1, a2) := toBigint3 a in
  let '(b0, b1, b2) := toBigint3 b in
  (* compute q and r such that a*b = q*f + r *)
  let ab := combine (a0, a1, a2) * combine (b0, b1, b2) in
  q <- BigInt_div ab f ;;
  let r := ab - q * f in
  let '(q0, q1, q2) := split q in
  let '(r0, r1, r2) := split r in
  let r01 := combine2 (r0, r1) in
  (* compute product terms *)
  let p0 := a0 * b0 + q0 * f_0 in
  let p1 := a0 * b1 + a1 * b0 + q0 * f_1 + q1 * f_0 in
  let p2 := a0 * b2 + a1 * b1 + a2 * b0 + q0 * f_2 + q1 * f_1 + q2 * f_0 in
  let '(p10, p110, p111) := split p1 in
  let p11 := combine2 (p110, p111) in
  (* carry bottom limbs *)
  let c0 := (p0 + (p10 << l) - r01) >> l2 in
  (* carry top limb *)
  let c1 := (p2 - r2 + p11 + c0) >> l in
  (* split high carry *)
  let c1_00 := bitSlice c1 0 12 in
  let c1_12 := bitSlice c1 12 12 in
  let c1_24 := bitSlice c1 24 12 in
  let c1_36 := bitSlice c1 36 12 in
  let c1_48 := bitSlice c1 48 12 in
  let c1_60 := bitSlice c1 60 12 in
  let c1_72 := bitSlice c1 72 12 in
  let c1_84 := bitSlice c1 84 2 in
  let c1_86 := bitSlice c1 86 2 in
  let c1_88 := bitSlice c1 88 2 in
  let c1_90 := bitSlice c1 90 1 in
  (* quotient high bound *)
  let q2Bound := q2 + f2Bound in
  ret [r01; r2; q0; q1; q2; q2Bound; p10; p110; p111; c0;
       c1_00; c1_12; c1_24; c1_36; c1_48; c1_60; c1_72;
       c1_84; c1_86; c1_88; c1_90].

(** The record [{ r01, r2, q }] that [multiplyNoRangeCheck] returns. *)
Record MulResult : Type := mkMulResult {
  mul_r01 : Field; mul_r2 : Field; mul_q : Field3 }.

Definition multiplyNoRangeCheck (a b : Field3) (f : Z) : M MulResult :=
  let f_ := (1 << l3) - f in
  let '(f_0, f_1, f_2) := split f_ in
  let f2 := f >> l2 in
  witnesses <- exists_ 21 (multiplyNoRangeCheck_witnesses a b f) ;;
  match witnesses with
  | [r01; r2; q0; q1; q2; q2Bound; p10; p110; p111; c0;
     c1_00; c1_12; c1_24; c1_36; c1_48; c1_60; c1_72;
     c1_84; c1_86; c1_88; c1_90] =>
      let q : Field3 := (q0, q1, q2) in
      (* ffmul gate. this already adds the following zero row. *)
      Gates_foreignFieldMul
        {| ffmul_left := a; ffmul_right := b;
           ffmul_remainder := (r01, r2);
           ffmul_quotient := q;
           ffmul_quotientHiBound := q2Bound;
           ffmul_product1 := (p10, p110, p111);
           ffmul_carry0 := c0;
           ffmul_carry1p := [c1_00; c1_12; c1_24; c1_36; c1_48; c1_60; c1_72];
           ffmul_carry1c := [c1_84; c1_86; c1_88; c1_90];
           ffmul_foreignFieldModulus2 := f2;
           ffmul_negForeignFieldModulus := (f_0, f_1, f_2) |} ;;;
      (* multi-range check on internal values *)
      multiRangeCheck (p10, p110, q2Bound) ;;;
      ret (mkMulResult r01 r2 q)
  | _ => throw (TypeError "tuple length")
  end.

Definition multiply (a b : Field3) (f : Z) : M Field3 :=
  assert (f <? 1 << 259) "Foreign modulus fits in 259 bits" ;;;
  (* constant case *)
  if Field3_isConstant a && Field3_isConstant b then
    let ab := Field3_toBigint a * Field3_toBigint b in
    m <- mod_ ab f ;;
    ret (Field3_from m)
  else
    (* provable case *)
    res <- multiplyNoRangeCheck a b f ;;
    (* limb range checks on quotient and remainder *)
    multiRangeCheck (mul_q res) ;;;
    r <- compactMultiRangeCheck (mul_r01 res) (mul_r2 res) ;;
    ret r.

Definition weakBound (x : Field) (f : Z) : Field :=
  Field_add x (Field_from (lMask - (f >> l2))).

(** Common logic for gadgets that expect a certain multiplication result a
    priori; [xy] is a [Field3] or a [Field2]. *)
Definition assertMulInternal (x y : Field3) (xy : Field3 + Field2) (f : Z)
  : M unit :=
  res <- multiplyNoRangeCheck x y f ;;
  (* range check on quotient *)
  multiRangeCheck (mul_q res) ;;;
  (* bind remainder to input xy *)
  match xy with
  | inr (xy01, xy2) =>
      Field_assertEquals (mul_r01 res) xy01 ;;;
      Field_assertEquals (mul_r2 res) xy2
  | inl (xy0, xy1, xy2) =>
      let xy01 := Field_add xy0 (Field_mul xy1 (Field_from (1 << l))) in
      Field_assertEquals (mul_r01 res) xy01 ;;;
      Field_assertEquals (mul_r2 res) xy2
  end.

(** ** Division and inversion *)

Definition inverse (x : Field3) (f : Z) : M Field3 :=
  assert (f <? 1 << 259) "Foreign modulus fits in 259 bits" ;;;
  (* constant case *)
  if Field3_isConstant x then
    xInv <- modInverse (Field3_toBigint x) f ;;
    match xInv with
    | None => throw (AssertionError "inverse exists")
    | Some xInv => ret (Field3_from xInv)
    end
  else
    (* provable case *)
    ws <- exists_ 3 (
      xInv <- modInverse (Field3_toBigint x) f ;;
      match xInv with
      | None => ret [0; 0; 0]
      | Some xInv => let '(i0, i1, i2) := split xInv in ret [i0; i1; i2]
      end) ;;
    match ws with
    | [xInv0; xInv1; xInv2] =>
        let xInv : Field3 := (xInv0, xInv1, xInv2) in
        multiRangeCheck xInv ;;;
        (* we need to bound xInv because it's a multiplication input *)
        let xInv2Bound := weakBound xInv2 f in
        let one : Field2 := (Field_from 1, Field_from 0) in
        assertMulInternal x xInv (inr one) f ;;;
        (* range check on result bound *)
        multiRangeCheck (xInv2Bound, Field_from 0, Field_from 0) ;;;
        ret xInv
    | _ => throw (TypeError "tuple length")
    end.

Definition divide (x y : Field3) (f : Z) (allowZeroOverZero : bool)
  : M Field3 :=
  assert (f <? 1 << 259) "Foreign modulus fits in 259 bits" ;;;
  (* constant case *)
  if Field3_isConstant x && Field3_isConstant y then
    yInv <- modInverse (Field3_toBigint y) f ;;
    match yInv with
    | None => throw (AssertionError "inverse exists")
    | Some yInv =>
        m <- mod_ (Field3_toBigint x * yInv) f ;;
        ret (Field3_from m)
    end
  else
    (* provable case *)
    (* to show that z = x/y, we prove that z*y = x and y != 0 *)
    ws <- exists_ 3 (
      yInv <- modInverse (Field3_toBigint y) f ;;
      match yInv with
      | None => ret [0; 0; 0]
      | Some yInv =>
          m <- mod_ (Field3_toBigint x * yInv) f ;;
          let '(z0, z1, z2) := split m in ret [z0; z1; z2]
      end) ;;
    match ws with
    | [z0; z1; z2] =>
        let z : Field3 := (z0, z1, z2) in
        multiRangeCheck z ;;;
        let z2Bound := weakBound z2 f in
        assertMulInternal z y (inl x) f ;;;
        (* range check on result bound *)
        multiRangeCheck (z2Bound, Field_from 0, Field_from 0) ;;;
        (if negb allowZeroOverZero then
           (* assert that y != 0 mod f by checking that it doesn't equal 0 or f *)
           let '(y0, y1, y2) := y in
           let y01 := Field_add y0 (Field_mul y1 (Field_from (1 << l))) in
           Bool_assertFalse
             (Bool_and (Field_equals y01 (Field_from 0))
                       (Field_equals y2 (Field_from 0))) ;;;
           let '(f0, f1, f2) := split f in
           let f01 := combine2 (f0, f1) in
           Bool_assertFalse
             (Bool_and (Field_equals y01 (Field_from f01))
                       (Field_equals y2 (Field_from f2)))
         else ret tt) ;;;
        ret z
    | _ => throw (TypeError "tuple length")
    end.

(** ** Public surface *)

Definition ForeignField_add (x y : Field3) (f : Z) : M Field3 :=
  sum [x; y] [Plus] f.

Definition ForeignField_sub (x y : Field3) (f : Z) : M Field3 :=
  sum [x; y] [Minus] f.

Definition ForeignField_negate (x : Field3) (f : Z) : M Field3 :=
  sum [Field3_from 0; x] [Minus] f.

Definition ForeignField_assertLessThan (x : Field3) (f : Z) : M unit :=
  assert (f >? 0) "assertLessThan: upper bound must be positive" ;;;
  (* constant case *)
  if Field3_isConstant x then
    assert (Field3_toBigint x <? f) "assertLessThan: got x >= f"
  else
    (* provable case: we can just use negation (f - 1) - x *)
    ForeignField_negate x (f - 1) ;;;
    ret tt.

End ForeignField.

Section SumClass.
Context {cfg : Params}.

(** ** Deferred chain: class [Sum] *)

(** The private fields [#result], [#summands] and [#ops]. A method that
    mutates the object returns its new state; a method that throws leaves
    it as it was. *)
Record Sum : Type := mkSum {
  Sum_result_ : option Field3;
  Sum_summands : list Field3;
  Sum_ops : list Sign }.

(** [constructor(x)] *)
Definition Sum_new (x : Field3) : Sum := mkSum None [x] [].

(** [get result()] *)
Definition Sum_result (this : Sum) : M Field3 :=
  match Sum_result_ this with
  | None => throw (AssertionError "sum not finished")
  | Some r => ret r
  end.

(** [get length()] *)
Definition Sum_length (this : Sum) : nat := length (Sum_summands this).

Definition Sum_unfinished (this : Sum) : bool :=
  match Sum_result_ this with None => true | Some _ => false end.

Definition Sum_add (this : Sum) (y : Field3) : M Sum :=
  assert (Sum_unfinished this) "sum already finished" ;;;
  ret (mkSum (Sum_result_ this) (Sum_summands this ++ [y])
             (Sum_ops this ++ [Plus])).

Definition Sum_sub (this : Sum) (y : Field3) : M Sum :=
  assert (Sum_unfinished this) "sum already finished" ;;;
  ret (mkSum (Sum_result_ this) (Sum_summands this ++ [y])
             (Sum_ops this ++ [Minus])).

(** [#return(x)]: stores the result and returns it. *)
Definition Sum_return (this : Sum) (x : Field3) : M (Field3 * Sum) :=
  ret (x, mkSum (Some x) (Sum_summands this) (Sum_ops this)).

Definition Sum_isConstant (this : Sum) : bool :=
  forallb Field3_isConstant (Sum_summands this).

Definition Sum_finish (this : Sum) (f : Z) (isChained : bool)
  : M (Field3 * Sum) :=
  assert (Sum_unfinished this) "sum already finished" ;;;
  let signs := Sum_ops this in
  let n := length signs in
  if Nat.eqb n 0 then
    x0 <- at_ (Sum_summands this) 0 ;; Sum_return this x0
  else
  (* constant case *)
  if Sum_isConstant this then
    r <- sum (Sum_summands this) signs f ;; Sum_return this r
  else
    (* provable case *)
    let x := map toVars (Sum_summands this) in
    result <- at_ x 0 ;;
    result <- sum_chain signs 0 x result f ;;
    (if negb isChained then Gates_zero result else ret tt) ;;;
    Sum_return this result.

(** The witness generator of one step of the low-limb loop of
    [finishForMulInput]: [carry, overflow], and the new content of [xRef]. *)
Definition lowLimb_witnesses (xRef : Z) (xi : bigint3) (sign : Sign) (f f0 : Z)
  : list Z * Z :=
  (* this duplicates some of the logic in singleAdd *)
  let x := xRef in
  let x0 := Z.land x lMask in
  let sign := Sign_toBigint sign in
  (* figure out if there's overflow *)
  let x := x + sign * combine xi in
  let overflow := 0 in
  let overflow := if (sign =? 1) && (x >=? f) then 1 else overflow in
  let overflow := if (sign =? -1) && (x <? 0) then -1 else overflow in
  let overflow := if f =? 0 then 0 else overflow in
  let xRef := x - overflow * f in
  (* add with carry, only on the lowest limb *)
  let x0 := x0 + sign * fst (fst xi) - overflow * f0 in
  let carry := x0 >> l in
  ([carry; overflow], xRef).

(** The generic gates for the low limbs: the first loop of
    [finishForMulInput], from index [i] on; returns [x0s] and [overflows]. *)
Fixpoint lowLimb_loop (signs : list Sign) (i : nat) (xs : list Field3)
  (f f0 : Z) (x0 : Field) (xRef : Z) (x0s overflows : list Field)
  : M (list Field * list Field) :=
  match signs with
  | [] => ret (x0s, overflows)
  | sign :: signs' =>
      xi <- at_ xs (i + 1) ;;
      (* compute carry and overflow *)
      let '(vals, xRef) := lowLimb_witnesses xRef (toBigint3 xi) sign f f0 in
      ws <- exists_ 2 (ret vals) ;;
      match ws with
      | [carry; overflow] =>
          let overflows := overflows ++ [overflow] in
          (* constrain carry *)
          assertOneOf carry [0; 1; -1] ;;;
          (* x0 <- x0 + s*xi0 - o*f0 - c*2^l *)
          let x0 :=
            toVar
              (Field_sub
                 (Field_sub
                    (Field_add x0
                       (Field_mul (fst (fst xi))
                                  (Field_from (Sign_toBigint sign))))
                    (Field_mul overflow (Field_from f0)))
                 (Field_mul carry (Field_from (1 << l)))) in
          lowLimb_loop signs' (S i) xs f f0 x0 xRef (x0s ++ [x0]) overflows
      | _ => throw (TypeError "tuple length")
      end
  end.

(** The ffadd chain: the second loop of [finishForMulInput], from index [i]
    on. *)
Fixpoint mulInput_chain (signs : list Sign) (i : nat) (xs : list Field3)
  (f : Z) (x : Field3) (x0s overflows : list Field) : M Field3 :=
  match signs with
  | [] => ret x
  | sign :: signs' =>
      xi <- at_ xs (i + 1) ;;
      ro <- singleAdd x xi sign f ;;
      let '(result, overflow) := ro in
      (* wire low limb and overflow to previous values *)
      x0s_i <- at_ x0s i ;;
      Field_assertEquals (fst (fst result)) x0s_i ;;;
      overflows_i <- at_ overflows i ;;
      Field_assertEquals overflow overflows_i ;;;
      mulInput_chain signs' (S i) xs f result x0s overflows
  end.

Definition Sum_finishForMulInput (this : Sum) (f : Z) (isChained : bool)
  : M (Field3 * Sum) :=
  assert (Sum_unfinished this) "sum already finished" ;;;
  let signs := Sum_ops this in
  let n := length signs in
  if Nat.eqb n 0 then
    x0 <- at_ (Sum_summands this) 0 ;; Sum_return this x0
  else
  (* constant case *)
  if Sum_isConstant this then
    r <- sum (Sum_summands this) signs f ;; Sum_return this r
  else
    (* provable case *)
    let xs := map toVars (Sum_summands this) in
    let f0 := Z.land f lMask in
    (* generic gates for low limbs *)
    xs0 <- at_ xs 0 ;;
    let x0 := fst (fst xs0) in
    let xRef := Field3_toBigint xs0 in
    xo <- lowLimb_loop signs 0 xs f f0 x0 xRef [] [] ;;
    let '(x0s, overflows) := xo in
    (* ffadd chain *)
    x <- mulInput_chain signs 0 xs f xs0 x0s overflows ;;
    (if negb isChained then Gates_zero x else ret tt) ;;;
    Sum_return this x.

Definition Sum_rangeCheck (this : Sum) : M unit :=
  match Sum_result_ this with
  | None => throw (AssertionError "sum not finished")
  | Some result =>
      if Nat.ltb 0 (length (Sum_ops this)) then multiRangeCheck result
      else ret tt
  end.

(** [static fromUnfinished(x: Field3 | Sum)] *)
Definition Sum_fromUnfinished (x : Field3 + Sum) : M Sum :=
  match x with
  | inr x => assert (Sum_unfinished x) "sum already finished" ;;; ret x
  | inl x => ret (Sum_new x)
  end.

(** A chain: the object after [new Sum(x)] and the listed [add] / [sub]
    calls, in order. *)
Fixpoint Sum_chained (this : Sum) (ys : list (Sign * Field3)) : M Sum :=
  match ys with
  | [] => ret this
  | (Plus, y) :: ys' => this' <- Sum_add this y ;; Sum_chained this' ys'
  | (Minus, y) :: ys' => this' <- Sum_sub this y ;; Sum_chained this' ys'
  end.

(** The two-state reading of a [Sum]. *)
Inductive SumState : Type := Building | Finalized.

Definition Sum_state (this : Sum) : SumState :=
  match Sum_result_ this with None => Building | Some _ => Finalized end.

End SumClass.

Section BoundsAndProducts.
Context {cfg : Params}.

(** ** Bound and range-check amortizer *)

(** The [for (let x of xs)] loop of [assertAlmostFieldElements]; [bounds] is
    the pending group, returned as it stands after the last value. *)
Fixpoint assertAlmostFieldElements_loop (xs : list Field3) (f : Z)
  (bounds : list Field) : M (list Field) :=
  match xs with
  | [] => ret bounds
  | x :: xs' =>
      multiRangeCheck x ;;;
      let bounds := bounds ++ [weakBound (snd x) f] in
      match bounds with
      | [b0; b1; b2] =>
          multiRangeCheck (b0, b1, b2) ;;;
          assertAlmostFieldElements_loop xs' f []
      | _ => assertAlmostFieldElements_loop xs' f bounds
      end
  end.

Definition assertAlmostFieldElements (xs : list Field3) (f : Z) : M unit :=
  bounds <- assertAlmostFieldElements_loop xs f [] ;;
  (match bounds with
   | [b0] => multiRangeCheck (b0, Field_from 0, Field_from 0)
   | _ => ret tt
   end) ;;;
  (match bounds with
   | [b0; b1] => multiRangeCheck (b0, b1, Field_from 0)
   | _ => ret tt
   end).

(** Modelled from the spec: a run is accepted when construction does not
    throw and no row of the log it built is violated ("build fails now" and
    "build succeeds, proof later fails" are the two ways to be rejected). *)
Definition accepts {A : Type} (m : M A) : bool :=
  match m with
  | (Ok _, w) => negb (proofFails w)
  | (Err _, _) => false
  end.

(** ** Multiplication of sums *)

(** [Sum] objects are mutated in place and [assertMul] can receive one
    object more than once, so its arguments are references into a store of
    Sums. *)
Definition Ref : Type := nat.

Definition Store : Type := list Sum.

(** A step that may mutate the store; mutations made before a throw stay. *)
Definition SM (A : Type) : Type := Store -> M A * Store.

Definition sret {A : Type} (a : A) : SM A := fun st => (ret a, st).

Definition sbind {A B : Type} (m : SM A) (k : A -> SM B) : SM B :=
  fun st =>
    match m st with
    | ((Ok a, w), st') =>
        let '((r, w'), st'') := k a st' in ((r, w ++ w'), st'')
    | ((Err e, w), st') => ((Err e, w), st')
    end.

Definition slift {A : Type} (m : M A) : SM A := fun st => (m, st).

Definition Store_set (r : Ref) (this : Sum) (st : Store) : Store :=
  firstn r st ++ this :: skipn (S r) st.

(** Calls on the object behind [r] a method that returns a value and the
    new state of the object. *)
Definition Store_call {A : Type} (r : Ref) (method : Sum -> M (A * Sum))
  : SM A :=
  fun st =>
    match nth_error st r with
    | None => (throw (TypeError "undefined"), st)
    | Some this =>
        match method this with
        | (Ok (a, this'), w) => ((Ok a, w), Store_set r this' st)
        | (Err e, w) => ((Err e, w), st)
        end
    end.

(** [Sum.fromUnfinished(x)] on the store: a Sum must be unfinished and is
    returned as it is; a limb-triple is wrapped in a new Sum. *)
Definition Store_fromUnfinished (x : Field3 + Ref) : SM Ref :=
  fun st =>
    match x with
    | inr r =>
        match nth_error st r with
        | None => (throw (TypeError "undefined"), st)
        | Some this => (Sum_fromUnfinished (inr this) ;;; ret r, st)
        end
    | inl x =>
        (this <- Sum_fromUnfinished (inl x) ;; ret (length st),
         st ++ [Sum_new x])
    end.

(** Modelled from the spec: [Math.ceil(Math.sqrt(n))] on the product of two
    array lengths, an integer far below [2^52]: the correctly rounded double
    root of such an [n] has the integer ceiling root as its ceiling. *)
Definition ceilSqrt (n : nat) : Z := Z.sqrt_up (Z.of_nat n).

(** The template string of the bound assertion of [assertMul]. *)
Definition assertMul_message (xlen ylen : nat) : string :=
  ("Foreign modulus is too large for multiplication of sums of lengths "
   ++ NilEmpty.string_of_uint (Nat.to_uint xlen)
   ++ " and "
   ++ NilEmpty.string_of_uint (Nat.to_uint ylen))%string.

Definition assertMul (x y xy : Field3 + Ref) (f : Z) : SM unit :=
  sbind (Store_fromUnfinished x) (fun x =>
  sbind (Store_fromUnfinished y) (fun y =>
  sbind (Store_fromUnfinished xy) (fun xy =>
  sbind (Store_call x (fun this => ret (Sum_length this, this))) (fun xlen =>
  sbind (Store_call y (fun this => ret (Sum_length this, this))) (fun ylen =>
  (* conservative estimate to ensure that multiplication bound is satisfied *)
  sbind (slift (assert (ceilSqrt (xlen * ylen) * f <? 1 << 258)
                       (assertMul_message xlen ylen))) (fun _ =>
  (* finish the y and xy sums with a zero gate *)
  sbind (Store_call y (fun this => Sum_finishForMulInput this f false))
    (fun y0 =>
  sbind (Store_call xy (fun this => Sum_finish this f false)) (fun xy0 =>
  (* x is chained into the ffmul gate *)
  sbind (Store_call x (fun this => Sum_finishForMulInput this f true))
    (fun x0 =>
  (* constant case *)
  if Field3_isConstant x0 && Field3_isConstant y0 && Field3_isConstant xy0
  then
    let x_ := Field3_toBigint x0 in
    let y_ := Field3_toBigint y0 in
    let xy_ := Field3_toBigint xy0 in
    slift (m <- mod_ (x_ * y_) f ;;
           assert (m =? xy_) "incorrect multiplication result")
  else slift (assertMulInternal x0 y0 (inl xy0) f)))))))))).

End BoundsAndProducts.

(** ** Concrete inputs of the examples *)

(** The 256-bit prime of the spec's scenarios. *)
Definition secp256k1 : Z := 2 ^ 256 - 2 ^ 32 - 977.

(** A constant limb-triple, and a symbolic one whose variables hold the
    limbs of [x], in the deployed configuration. *)
Definition constant3 (x : Z) : Field3 := @Field3_from pasta88 x.

Definition variable3 (x : Z) : Field3 := toVars (@Field3_from pasta88 x).

(** * Properties *)

Section LimbCodec.
Context {cfg : Params}.

Lemma shl_pow2 (x n : Z) : 0 <= n -> x << n = x * 2 ^ n.
Proof. intros Hn. now rewrite Z.shiftl_mul_pow2. Qed.

Lemma shr_pow2 (x n : Z) : 0 <= n -> x >> n = x / 2 ^ n.
Proof. intros Hn. now rewrite Z.shiftr_div_pow2. Qed.

Lemma land_mask (x n : Z) : 0 <= n -> Z.land x ((1 << n) - 1) = x mod 2 ^ n.
Proof.
  intros Hn. rewrite Z.shiftl_1_l, Z.sub_1_r, <- Z.ones_equiv.
  now apply Z.land_ones.
Qed.

Lemma pow2_l_pos : 0 <= l -> 0 < 2 ^ l.
Proof. intros; now apply Z.pow_pos_nonneg. Qed.

Lemma pow2_l2 : 0 <= l -> 2 ^ l2 = 2 ^ l * 2 ^ l.
Proof. intros; unfold l2. rewrite <- Z.pow_add_r by lia. f_equal; lia. Qed.

Lemma pow2_l3 : 0 <= l -> 2 ^ l3 = 2 ^ l * 2 ^ l * 2 ^ l.
Proof.
  intros; unfold l3. rewrite <- !Z.pow_add_r by lia. f_equal; lia.
Qed.

Lemma split_spec (x : Z) :
  0 <= l ->
  split x = (x mod 2 ^ l, (x / 2 ^ l) mod 2 ^ l, (x / 2 ^ l2) mod 2 ^ l).
Proof.
  intros Hl. unfold split, lMask.
  rewrite !land_mask, !shr_pow2 by (unfold l2; lia). reflexivity.
Qed.

Lemma split2_spec (x : Z) :
  0 <= l -> split2 x = (x mod 2 ^ l, (x / 2 ^ l) mod 2 ^ l).
Proof.
  intros Hl. unfold split2, lMask.
  rewrite !land_mask, !shr_pow2 by lia. reflexivity.
Qed.

Lemma combine_spec (x0 x1 x2 : Z) :
  0 <= l -> combine (x0, x1, x2) = x0 + x1 * 2 ^ l + x2 * (2 ^ l * 2 ^ l).
Proof.
  intros Hl. unfold combine.
  rewrite !shl_pow2 by (unfold l2; lia). now rewrite pow2_l2.
Qed.

Lemma combine2_spec (x0 x1 : Z) :
  0 <= l -> combine2 (x0, x1) = x0 + x1 * 2 ^ l.
Proof. intros Hl. unfold combine2. now rewrite shl_pow2. Qed.

(** Base-[b] digits: the arithmetic behind the codec. *)
Lemma digits3 (b x : Z) :
  0 < b ->
  x mod b + (x / b) mod b * b + (x / (b * b)) mod b * (b * b)
  = x mod (b * b * b).
Proof.
  intros Hb.
  assert (Hbb : 0 < b * b) by nia.
  rewrite <- (Z.div_div x b b) by lia.
  set (q1 := x / b). set (q2 := q1 / b).
  pose proof (Z.div_mod x b ltac:(lia)) as E0. fold q1 in E0.
  pose proof (Z.div_mod q1 b ltac:(lia)) as E1. fold q2 in E1.
  pose proof (Z.div_mod q2 b ltac:(lia)) as E2.
  pose proof (Z.mod_pos_bound x b Hb).
  pose proof (Z.mod_pos_bound q1 b Hb).
  pose proof (Z.mod_pos_bound q2 b Hb).
  apply (Z.mod_unique_pos _ _ (q2 / b)); nia.
Qed.

Lemma combine_split_mod (x : Z) :
  0 <= l -> combine (split x) = x mod 2 ^ l3.
Proof.
  intros Hl. rewrite split_spec, combine_spec, pow2_l3, pow2_l2 by assumption.
  apply digits3. now apply pow2_l_pos.
Qed.

Lemma combine_split (x : Z) :
  0 <= x < 2 ^ l3 -> combine (split x) = x.
Proof.
  intros Hx.
  destruct (Z.lt_ge_cases l 0) as [Hneg | Hl].
  - exfalso. unfold l3 in Hx. rewrite Z.pow_neg_r in Hx by lia. lia.
  - rewrite combine_split_mod by assumption. now apply Z.mod_small.
Qed.

Lemma split_limbs_range (x : Z) :
  0 <= l ->
  let '(x0, x1, x2) := split x in
  0 <= x0 < 2 ^ l /\ 0 <= x1 < 2 ^ l /\ 0 <= x2 < 2 ^ l.
Proof.
  intros Hl. rewrite split_spec by assumption.
  pose proof (pow2_l_pos Hl).
  repeat split; apply Z.mod_pos_bound; assumption.
Qed.

(** A triple of in-range limbs is the split of its value. *)
Lemma split_combine (x0 x1 x2 : Z) :
  0 <= l ->
  0 <= x0 < 2 ^ l -> 0 <= x1 < 2 ^ l -> 0 <= x2 < 2 ^ l ->
  split (combine (x0, x1, x2)) = (x0, x1, x2).
Proof.
  intros Hl H0 H1 H2. pose proof (pow2_l_pos Hl) as Hb.
  rewrite split_spec, combine_spec, pow2_l2 by assumption.
  set (b := 2 ^ l) in *.
  assert (E0 : (x0 + x1 * b + x2 * (b * b)) mod b = x0).
  { symmetry. apply (Z.mod_unique_pos _ _ (x1 + x2 * b)); nia. }
  assert (D0 : (x0 + x1 * b + x2 * (b * b)) / b = x1 + x2 * b).
  { symmetry. apply (Z.div_unique_pos _ _ _ x0); nia. }
  assert (E1 : (x1 + x2 * b) mod b = x1).
  { symmetry. apply (Z.mod_unique_pos _ _ x2); nia. }
  assert (D1 : (x0 + x1 * b + x2 * (b * b)) / (b * b) = x2).
  { symmetry. apply (Z.div_unique_pos _ _ _ (x0 + x1 * b)); nia. }
  rewrite E0, D0, E1, D1. now rewrite Z.mod_small.
Qed.

(** C9: for every integer [x] in [[0, 2^l3)], decomposing [x] into a
    limb-triple and recombining it yields [x] exactly:
    [combine (split x) = x]. Both functions are total, without failure
    modes. *)
Theorem split_combine_roundtrip (x : Z) :
  0 <= x < 2 ^ l3 -> combine (split x) = x.
Proof. exact (@combine_split x). Qed.

End LimbCodec.

Section MonadLaws.

Lemma bind_ret (A B : Type) (a : A) (k : A -> M B) : bind (ret a) k = k a.
Proof. unfold bind, ret. destruct (k a); reflexivity. Qed.

Lemma bind_throw (A B : Type) (e : Error) (k : A -> M B) :
  bind (throw e) k = throw e.
Proof. reflexivity. Qed.

Lemma bind_Ok (A B : Type) (a : A) (w : list Row) (k : A -> M B) :
  bind (Ok a, w) k = (fst (k a), w ++ snd (k a)).
Proof. unfold bind. destruct (k a); reflexivity. Qed.

Lemma bind_Err (A B : Type) (e : Error) (w : list Row) (k : A -> M B) :
  bind (Err e, w) k = (Err e, w).
Proof. reflexivity. Qed.

Lemma bind_Ok_inv (A B : Type) (m : M A) (k : A -> M B) (b : B)
  (w : list Row) :
  bind m k = (Ok b, w) ->
  exists a w1 w2, m = (Ok a, w1) /\ k a = (Ok b, w2) /\ w = w1 ++ w2.
Proof.
  destruct m as [[a | e] w1]; simpl.
  - destruct (k a) as [r w2] eqn:E. intros H; inversion H; subst.
    exists a, w1, w2. auto.
  - discriminate.
Qed.

Lemma fst_bind (A B : Type) (m : M A) (k : A -> M B) :
  fst (bind m k) =
  match fst m with Ok a => fst (k a) | Err e => Err e end.
Proof.
  destruct m as [[a | e] w]; simpl; [destruct (k a) |]; reflexivity.
Qed.

Lemma assert_true (msg : string) : assert true msg = ret tt.
Proof. reflexivity. Qed.

Lemma assert_false (msg : string) :
  assert false msg = throw (AssertionError msg).
Proof. reflexivity. Qed.

Lemma proofFails_app {cfg : Params} (w1 w2 : list Row) :
  proofFails (w1 ++ w2) = proofFails w1 || proofFails w2.
Proof. unfold proofFails. apply existsb_app. Qed.

End MonadLaws.

(** Inverts a successful [bind]: the equation of the first step is added to
    the context and [H] becomes the equation of the continuation. *)
Ltac bind_inv H :=
  let a := fresh "a" in
  let w1 := fresh "w" in
  let w2 := fresh "w" in
  let E1 := fresh "E" in
  let Ew := fresh "Ew" in
  apply bind_Ok_inv in H; destruct H as (a & w1 & w2 & E1 & H & Ew).

Section ModulusGuard.
Context {cfg : Params}.

Lemma modulus_guard_false (f : Z) : 2 ^ 259 <= f -> (f <? 1 << 259) = false.
Proof. intros Hf. rewrite Z.shiftl_1_l. now apply Z.ltb_ge. Qed.

Lemma modulus_guard_true (f : Z) : f < 2 ^ 259 -> (f <? 1 << 259) = true.
Proof. intros Hf. rewrite Z.shiftl_1_l. now apply Z.ltb_lt. Qed.

(** C8: for every modulus [f >= 2^259], each of [multiply a b f],
    [inverse x f] and [divide x y f] fails synchronously at construction
    time, on its first assertion and before any row is emitted, for all
    operands. *)
Theorem modulus_too_large_fails (x y : Field3) (f : Z)
  (allowZeroOverZero : bool) :
  2 ^ 259 <= f ->
  multiply x y f
  = throw (AssertionError "Foreign modulus fits in 259 bits") /\
  inverse x f
  = throw (AssertionError "Foreign modulus fits in 259 bits") /\
  divide x y f allowZeroOverZero
  = throw (AssertionError "Foreign modulus fits in 259 bits").
Proof.
  intros Hf. pose proof (modulus_guard_false Hf) as G.
  unfold multiply, inverse, divide. rewrite G.
  repeat split; reflexivity.
Qed.

End ModulusGuard.

Section SumLifecycle.
Context {cfg : Params}.

Lemma Sum_return_inv (A : Type) (m : M A) (g : A -> Field3) (this : Sum)
  (r : Field3) (this' : Sum) (w : list Row) :
  bind m (fun a => Sum_return this (g a)) = (Ok (r, this'), w) ->
  this' = mkSum (Some r) (Sum_summands this) (Sum_ops this).
Proof.
  intros H. bind_inv H. unfold Sum_return, ret in H.
  inversion H; subst. reflexivity.
Qed.

Lemma Sum_finish_inv (this : Sum) (f : Z) (isChained : bool) (r : Field3)
  (this' : Sum) (w : list Row) :
  Sum_finish this f isChained = (Ok (r, this'), w) ->
  Sum_result_ this = None /\
  this' = mkSum (Some r) (Sum_summands this) (Sum_ops this).
Proof.
  unfold Sum_finish, Sum_unfinished.
  destruct (Sum_result_ this) as [r0 |]; [discriminate |].
  rewrite assert_true, bind_ret. intros H. split; [reflexivity |].
  destruct (Nat.eqb _ 0).
  - exact (Sum_return_inv _ (fun a => a) _ H).
  - destruct (Sum_isConstant this).
    + exact (Sum_return_inv _ (fun a => a) _ H).
    + do 3 bind_inv H.
      unfold Sum_return, ret in H. inversion H; subst. reflexivity.
Qed.

Lemma Sum_finishForMulInput_inv (this : Sum) (f : Z) (isChained : bool)
  (r : Field3) (this' : Sum) (w : list Row) :
  Sum_finishForMulInput this f isChained = (Ok (r, this'), w) ->
  Sum_result_ this = None /\
  this' = mkSum (Some r) (Sum_summands this) (Sum_ops this).
Proof.
  unfold Sum_finishForMulInput, Sum_unfinished.
  destruct (Sum_result_ this) as [r0 |]; [discriminate |].
  rewrite assert_true, bind_ret. intros H. split; [reflexivity |].
  destruct (Nat.eqb _ 0).
  - exact (Sum_return_inv _ (fun a => a) _ H).
  - destruct (Sum_isConstant this).
    + exact (Sum_return_inv _ (fun a => a) _ H).
    + do 2 bind_inv H. destruct a0 as [x0s overflows]. do 2 bind_inv H.
      unfold Sum_return, ret in H. inversion H; subst. reflexivity.
Qed.

Lemma Sum_finalized_rejects (this : Sum) :
  Sum_state this = Finalized ->
  (forall y, Sum_add this y = throw (AssertionError "sum already finished")) /\
  (forall y, Sum_sub this y = throw (AssertionError "sum already finished")) /\
  (forall f c,
      Sum_finish this f c = throw (AssertionError "sum already finished")) /\
  (forall f c,
      Sum_finishForMulInput this f c
      = throw (AssertionError "sum already finished")) /\
  Sum_fromUnfinished (inr this)
  = throw (AssertionError "sum already finished").
Proof.
  unfold Sum_state, Sum_add, Sum_sub, Sum_finish, Sum_finishForMulInput,
    Sum_fromUnfinished, Sum_unfinished.
  destruct (Sum_result_ this); [| discriminate].
  intros _. repeat split; intros; reflexivity.
Qed.

(** C7: every [Sum] is in exactly one of two states, building or finalized.
    While building, reading [.result] fails and [add] / [sub] keep it
    building. A successful [finish] or [finishForMulInput] starts from a
    building Sum and leaves it finalized, holding the returned result, with
    its terms untouched; on a finalized Sum every further [add], [sub],
    [finish], [finishForMulInput] and [fromUnfinished] fails, so a Sum is
    finalized at most once. *)
Theorem Sum_state_machine (this : Sum) :
  (Sum_state this = Building \/ Sum_state this = Finalized) /\
  ~ (Sum_state this = Building /\ Sum_state this = Finalized) /\
  (Sum_state this = Building ->
   Sum_result this = throw (AssertionError "sum not finished") /\
   forall y,
     (exists this', Sum_add this y = ret this' /\ Sum_state this' = Building) /\
     (exists this', Sum_sub this y = ret this' /\ Sum_state this' = Building)) /\
  (forall f isChained r this' w,
      Sum_finish this f isChained = (Ok (r, this'), w) \/
      Sum_finishForMulInput this f isChained = (Ok (r, this'), w) ->
      Sum_state this = Building /\
      Sum_state this' = Finalized /\
      Sum_result this' = ret r /\
      Sum_summands this' = Sum_summands this /\
      Sum_ops this' = Sum_ops this /\
      (forall y, fst (Sum_add this' y) = Err (AssertionError "sum already finished")) /\
      (forall y, fst (Sum_sub this' y) = Err (AssertionError "sum already finished")) /\
      (forall f' c', fst (Sum_finish this' f' c')
                     = Err (AssertionError "sum already finished")) /\
      (forall f' c', fst (Sum_finishForMulInput this' f' c')
                     = Err (AssertionError "sum already finished")) /\
      fst (Sum_fromUnfinished (inr this'))
      = Err (AssertionError "sum already finished")) /\
  (Sum_state this = Finalized ->
   (forall y, fst (Sum_add this y) = Err (AssertionError "sum already finished")) /\
   (forall y, fst (Sum_sub this y) = Err (AssertionError "sum already finished")) /\
   (forall f c, fst (Sum_finish this f c)
                = Err (AssertionError "sum already finished")) /\
   (forall f c, fst (Sum_finishForMulInput this f c)
                = Err (AssertionError "sum already finished")) /\
   fst (Sum_fromUnfinished (inr this))
   = Err (AssertionError "sum already finished")).
Proof.
  assert (Rej : forall s, Sum_state s = Finalized ->
    (forall y, fst (Sum_add s y) = Err (AssertionError "sum already finished")) /\
    (forall y, fst (Sum_sub s y) = Err (AssertionError "sum already finished")) /\
    (forall f c, fst (Sum_finish s f c)
                 = Err (AssertionError "sum already finished")) /\
    (forall f c, fst (Sum_finishForMulInput s f c)
                 = Err (AssertionError "sum already finished")) /\
    fst (Sum_fromUnfinished (inr s))
    = Err (AssertionError "sum already finished")).
  { intros s Hs. destruct (Sum_finalized_rejects s Hs) as (A & B & C & D & E).
    repeat split; intros; [rewrite A | rewrite B | rewrite C | rewrite D
                          | rewrite E]; reflexivity. }
  split; [| split; [| split; [| split]]].
  - unfold Sum_state. destruct (Sum_result_ this); auto.
  - intros [B F]. rewrite B in F. discriminate.
  - unfold Sum_state, Sum_result, Sum_add, Sum_sub, Sum_unfinished.
    destruct (Sum_result_ this) eqn:E; [discriminate |]. intros _.
    split; [reflexivity |]. intros y; split; eexists; split;
      try reflexivity; simpl; now rewrite E.
  - intros f isChained r this' w H.
    assert (Inv : Sum_result_ this = None /\
                  this' = mkSum (Some r) (Sum_summands this) (Sum_ops this)).
    { destruct H as [H | H];
        [eapply Sum_finish_inv | eapply Sum_finishForMulInput_inv]; eassumption. }
    destruct Inv as [E ->].
    split; [unfold Sum_state; now rewrite E |].
    split; [reflexivity |]. split; [reflexivity |].
    split; [reflexivity |]. split; [reflexivity |].
    apply Rej. reflexivity.
  - apply Rej.
Qed.

(** C10: on a Sum created from a limb-triple [x] on which no [add] or [sub]
    was called, [finish f] and [finishForMulInput f] return [x] itself for
    any modulus [f] and emit no row (no reduction, no range check), and a
    subsequent [rangeCheck] emits no row either. *)
Theorem Sum_single_term_untouched (x : Field3) (f : Z) (isChained : bool) :
  let finished := mkSum (Some x) [x] [] in
  Sum_finish (Sum_new x) f isChained = (Ok (x, finished), []) /\
  Sum_finishForMulInput (Sum_new x) f isChained = (Ok (x, finished), []) /\
  Sum_rangeCheck finished = (Ok tt, []).
Proof. repeat split. Qed.

End SumLifecycle.

Section Arithmetic.
Context {cfg : Params}.

Lemma BigInt_div_nonneg (x y : Z) :
  0 <= x -> 0 < y -> BigInt_div x y = ret (x / y).
Proof.
  intros Hx Hy. unfold BigInt_div.
  destruct (Z.eqb_spec y 0); [lia |]. now rewrite Z.quot_div_nonneg by lia.
Qed.

Lemma mod_spec (x p : Z) : 0 < p -> mod_ x p = ret (x mod p).
Proof.
  intros Hp. unfold mod_, BigInt_rem.
  destruct (Z.eqb_spec p 0); [lia |]. rewrite bind_ret. f_equal.
  pose proof (Z.quot_rem' x p) as E.
  destruct (Z.ltb_spec (Z.rem x p) 0) as [Hneg | Hpos].
  - assert (x <= 0).
    { destruct (Z.le_gt_cases x 0); [assumption |].
      pose proof (Z.rem_bound_pos x p ltac:(lia) Hp). lia. }
    pose proof (Z.rem_bound_pos_neg x p Hp ltac:(assumption)).
    apply (Z.mod_unique_pos _ _ (Z.quot x p - 1)); lia.
  - assert (Z.rem x p < p).
    { destruct (Z.le_gt_cases 0 x).
      - pose proof (Z.rem_bound_pos x p ltac:(lia) Hp). lia.
      - pose proof (Z.rem_bound_pos_neg x p Hp ltac:(lia)). lia. }
    apply (Z.mod_unique_pos _ _ (Z.quot x p)); lia.
Qed.

Lemma modInverse_spec (a p : Z) :
  0 < p ->
  modInverse a p
  = ret (if a mod p =? 0 then None
         else if Z.gcd a p =? 1 then Some (Z.invmod a p) else None).
Proof.
  intros Hp. unfold modInverse. rewrite mod_spec, bind_ret by assumption.
  rewrite Z.gcd_mod_l, Z.invmod_mod_l.
  now destruct (a mod p =? 0), (Z.gcd a p =? 1).
Qed.

(** Above [1] a residue of [0] is never coprime to the modulus: coprimality
    alone decides. *)
Lemma modInverse_gt1 (a p : Z) :
  1 < p ->
  modInverse a p
  = ret (if Z.gcd a p =? 1 then Some (Z.invmod a p) else None).
Proof.
  intros Hp. rewrite modInverse_spec by lia.
  destruct (a mod p =? 0) eqn:E; [| reflexivity].
  apply Z.eqb_eq in E.
  replace (Z.gcd a p =? 1) with false; [reflexivity |].
  symmetry. apply Z.eqb_neq.
  rewrite <- Z.gcd_mod_l, E, Z.gcd_0_l, Z.abs_eq by lia. lia.
Qed.

(** Modulo [1] every residue is [0]: nothing has an inverse. *)
Lemma modInverse_one (a : Z) : modInverse a 1 = ret None.
Proof.
  rewrite modInverse_spec by lia. now rewrite Z.mod_1_r.
Qed.

Lemma split_0 : split 0 = (0, 0, 0).
Proof. unfold split. now rewrite !Z.shiftr_0_l, Z.land_0_l. Qed.


Lemma invmod_inverse (y f : Z) :
  0 < f -> Z.gcd y f = 1 ->
  0 <= Z.invmod y f < f /\ (Z.invmod y f * y) mod f = 1 mod f.
Proof.
  intros Hf Hg. split.
  - rewrite <- Z.mod_invmod. now apply Z.mod_pos_bound.
  - now rewrite Z.invmod_ok, Hg.
Qed.

(** *** Values held by native field elements *)

Lemma Field_witness_value (x : Z) :
  0 <= x < nativeModulus -> Field_toBigInt (Field_witness x) = x.
Proof. intros Hx. simpl. now apply Z.mod_small. Qed.

Lemma Field_from_value (x : Z) :
  0 <= x < nativeModulus -> Field_toBigInt (Field_from x) = x.
Proof. intros Hx. simpl. now apply Z.mod_small. Qed.

Lemma toBigint3_Field3_from (x : Z) :
  0 <= l -> 2 ^ l <= nativeModulus -> toBigint3 (Field3_from x) = split x.
Proof.
  intros Hl Hp. unfold Field3_from.
  pose proof (split_limbs_range x Hl) as R.
  destruct (split x) as [[x0 x1] x2]. destruct R as (R0 & R1 & R2).
  simpl. rewrite !Z.mod_small by lia. reflexivity.
Qed.

Lemma Field3_from_isConstant (x : Z) : Field3_isConstant (Field3_from x) = true.
Proof. unfold Field3_from. now destruct (split x) as [[x0 x1] x2]. Qed.

Lemma Field3_toBigint_from (x : Z) :
  0 <= l -> 2 ^ l <= nativeModulus -> 0 <= x < 2 ^ l3 ->
  Field3_toBigint (Field3_from x) = x.
Proof.
  intros Hl Hp Hx. unfold Field3_toBigint.
  rewrite toBigint3_Field3_from by assumption. now apply combine_split.
Qed.

Lemma pow2_259_l3 : 259 <= l3 -> 2 ^ 259 <= 2 ^ l3.
Proof. intros H. apply Z.pow_le_mono_r; lia. Qed.

End Arithmetic.

Section Multiplication.
Context {cfg : Params}.

(** The generator of [multiplyNoRangeCheck] puts the remainder of [a*b]
    by [f] in its first two cells. *)
Lemma multiplyNoRangeCheck_witnesses_shape (a b : Field3) (f : Z) :
  f <> 0 ->
  let ab := Field3_toBigint a * Field3_toBigint b in
  let r := ab - Z.quot ab f * f in
  exists q0 q1 q2 q2Bound p10 p110 p111 c0
         c1_00 c1_12 c1_24 c1_36 c1_48 c1_60 c1_72 c1_84 c1_86 c1_88 c1_90,
    multiplyNoRangeCheck_witnesses a b f
    = ret [combine2 (low2 (split r)); snd (split r); q0; q1; q2; q2Bound;
           p10; p110; p111; c0;
           c1_00; c1_12; c1_24; c1_36; c1_48; c1_60; c1_72;
           c1_84; c1_86; c1_88; c1_90].
Proof.
  intros Hf ab r. subst r ab. unfold multiplyNoRangeCheck_witnesses.
  unfold Field3_toBigint.
  destruct (split ((1 << l3) - f)) as [[f_0 f_1] f_2].
  destruct (toBigint3 a) as [[a0 a1] a2].
  destruct (toBigint3 b) as [[b0 b1] b2].
  unfold BigInt_div. destruct (Z.eqb_spec f 0) as [E | _]; [contradiction |].
  rewrite bind_ret.
  set (ab := combine (a0, a1, a2) * combine (b0, b1, b2)).
  destruct (split (Z.quot ab f)) as [[q0 q1] q2].
  destruct (split (ab - Z.quot ab f * f)) as [[r0 r1] r2].
  destruct (split (a0 * b1 + a1 * b0 + q0 * f_1 + q1 * f_0))
    as [[p10 p110] p111].
  cbv zeta. simpl low2. simpl snd.
  repeat eexists.
Qed.

Lemma multiplyNoRangeCheck_run (a b : Field3) (f : Z) :
  f <> 0 ->
  let ab := Field3_toBigint a * Field3_toBigint b in
  let r := ab - Z.quot ab f * f in
  exists q w,
    multiplyNoRangeCheck a b f
    = (Ok (mkMulResult (Field_witness (combine2 (low2 (split r))))
                       (Field_witness (snd (split r))) q), w)
    /\ Field3_isConstant q = false.
Proof.
  intros Hf ab r.
  destruct (multiplyNoRangeCheck_witnesses_shape a b Hf)
    as (q0 & q1 & q2 & q2Bound & p10 & p110 & p111 & c0 & c1_00 & c1_12
        & c1_24 & c1_36 & c1_48 & c1_60 & c1_72 & c1_84 & c1_86 & c1_88
        & c1_90 & E).
  fold ab in E. fold r in E.
  unfold multiplyNoRangeCheck.
  destruct (split ((1 << l3) - f)) as [[f_0 f_1] f_2].
  rewrite E. unfold exists_. rewrite bind_ret.
  eexists. eexists. split; [reflexivity | reflexivity].
Qed.

Lemma quot_rem_mod (ab f : Z) :
  0 <= ab -> 0 < f -> ab - Z.quot ab f * f = ab mod f.
Proof.
  intros Hab Hf. rewrite Z.quot_div_nonneg by lia.
  rewrite Z.mod_eq by lia. ring.
Qed.

Lemma pow2_l_le_l2 : 0 <= l -> 2 ^ l <= 2 ^ l2.
Proof. intros Hl. apply Z.pow_le_mono_r; unfold l2; lia. Qed.

(** The compact range check of a witnessed remainder gives back its limbs. *)
Lemma compactMultiRangeCheck_witness (r0 r1 r2 : Z) :
  0 <= l -> 2 ^ l2 <= nativeModulus ->
  0 <= r0 < 2 ^ l -> 0 <= r1 < 2 ^ l -> 0 <= r2 < 2 ^ l ->
  exists r w,
    compactMultiRangeCheck (Field_witness (combine2 (r0, r1)))
                           (Field_witness r2) = (Ok r, w)
    /\ toBigint3 r = (r0, r1, r2).
Proof.
  intros Hl Hp H0 H1 H2.
  pose proof (pow2_l_pos Hl) as Hb. pose proof (pow2_l_le_l2 Hl) as Hb2.
  pose proof (pow2_l2 Hl) as E2.
  unfold compactMultiRangeCheck. cbn [Field_witness Field_isConstant andb].
  eexists. eexists. split; [reflexivity |].
  cbn [toBigint3 Field_witness Field_toBigInt].
  rewrite combine2_spec by assumption. unfold lMask.
  rewrite land_mask, shr_pow2 by assumption.
  set (b := 2 ^ l) in *.
  assert (S01 : (r0 + r1 * b) mod nativeModulus = r0 + r1 * b).
  { apply Z.mod_small. nia. }
  rewrite S01.
  assert (M0 : (r0 + r1 * b) mod b = r0).
  { symmetry. apply (Z.mod_unique_pos _ _ r1); nia. }
  assert (D0 : (r0 + r1 * b) / b = r1).
  { symmetry. apply (Z.div_unique_pos _ _ _ r0); nia. }
  rewrite M0, D0, !Z.mod_small by lia. reflexivity.
Qed.

(** C1: for every modulus [f] with [0 < f < 2^259] and all operands
    representing integers in [[0, f)], [multiply a b f] returns the
    limb-triple representing [(a*b) mod f]; when both operands are constant
    this is the direct modular product and no row is emitted. The limbs
    cover 259 bits and a combined low+mid limb fits the native field, as in
    the deployed configuration. *)
Theorem multiply_sound (a b : Field3) (f : Z) :
  259 <= l3 -> 2 ^ l2 <= nativeModulus ->
  0 < f < 2 ^ 259 ->
  0 <= Field3_toBigint a < f ->
  0 <= Field3_toBigint b < f ->
  let ab := (Field3_toBigint a * Field3_toBigint b) mod f in
  (exists r w,
      multiply a b f = (Ok r, w) /\
      toBigint3 r = split ab /\ Field3_toBigint r = ab) /\
  (Field3_isConstant a && Field3_isConstant b = true ->
   multiply a b f = (Ok (Field3_from ab), [])).
Proof.
  intros Hl3 Hp Hf Ha Hb ab.
  assert (Hl : 0 <= l) by (unfold l3 in Hl3; lia).
  pose proof (pow2_l_le_l2 Hl) as Hb2.
  pose proof (pow2_259_l3 Hl3) as H259.
  assert (Hab : 0 <= ab < 2 ^ l3).
  { pose proof (Z.mod_pos_bound (Field3_toBigint a * Field3_toBigint b) f
                 ltac:(lia)). subst ab. lia. }
  unfold multiply.
  rewrite modulus_guard_true, assert_true, bind_ret by apply Hf.
  destruct (Field3_isConstant a && Field3_isConstant b) eqn:C.
  - rewrite mod_spec, bind_ret by apply Hf. fold ab. split.
    + exists (Field3_from ab), []. split; [reflexivity |]. split.
      * apply toBigint3_Field3_from; lia.
      * apply Field3_toBigint_from; lia.
    + reflexivity.
  - split; [| discriminate].
    destruct (@multiplyNoRangeCheck_run a b f ltac:(lia)) as (q & w & E & Hq).
    rewrite quot_rem_mod in E by nia. fold ab in E.
    pose proof (split_limbs_range ab Hl) as R.
    pose proof (combine_split Hab) as CS.
    destruct (split ab) as [[r0 r1] r2] eqn:S. destruct R as (R0 & R1 & R2).
    cbn [low2 snd] in E.
    destruct (compactMultiRangeCheck_witness Hl Hp R0 R1 R2)
      as (r & w' & Ec & Hr).
    rewrite E, bind_Ok. cbn [mul_q mul_r01 mul_r2].
    unfold multiRangeCheck at 1. destruct q as [[q0 q1] q2].
    simpl in Hq. rewrite Hq.
    unfold emit at 1. rewrite bind_Ok, Ec, bind_Ok.
    eexists. eexists. split; [reflexivity |]. cbn [fst ret].
    split; [exact Hr |].
    unfold Field3_toBigint. now rewrite Hr.
Qed.

End Multiplication.

Section Addition.
Context {cfg : Params}.

Lemma toBigint3_toVars (x : Field3) : toBigint3 (toVars x) = toBigint3 x.
Proof. now destruct x as [[x0 x1] x2]. Qed.

Lemma Field3_toBigint_toVars (x : Field3) :
  Field3_toBigint (toVars x) = Field3_toBigint x.
Proof. unfold Field3_toBigint. now rewrite toBigint3_toVars. Qed.

Lemma toVars_not_constant (x : Field3) : Field3_isConstant (toVars x) = false.
Proof. now destruct x as [[x0 x1] x2]. Qed.

(** [singleAdd] never throws: it witnesses five values and emits one row. *)
Lemma singleAdd_run (x y : Field3) (sign : Sign) (f : Z) :
  exists r0 r1 r2 overflow carry,
    singleAdd_witnesses x y sign f = ret [r0; r1; r2; overflow; carry] /\
    singleAdd x y sign f
    = (Ok ((Field_witness r0, Field_witness r1, Field_witness r2),
           Field_witness overflow),
       [Row_foreignFieldAdd
          {| ffadd_left := x; ffadd_right := y;
             ffadd_overflow := Field_witness overflow;
             ffadd_carry := Field_witness carry;
             ffadd_modulus := split f; ffadd_sign := sign |}]).
Proof.
  unfold singleAdd.
  assert (S : exists r0 r1 r2 overflow carry,
             singleAdd_witnesses x y sign f
             = ret [r0; r1; r2; overflow; carry]).
  { unfold singleAdd_witnesses.
    match goal with
    | |- context [split2 ?v] => destruct (split2 v) as [r0 r1]
    end.
    repeat eexists. }
  destruct S as (r0 & r1 & r2 & o & c & E).
  exists r0, r1, r2, o, c. split; [exact E |].
  rewrite E. reflexivity.
Qed.

(** The overflow indicator brings [x + sign*y] back into [[0, f)]. *)
Lemma overflow_reduces (X Y f : Z) (sign : Sign) :
  0 < f -> 0 <= X < f -> 0 <= Y < f ->
  let s := Sign_toBigint sign in
  let r := X + s * Y in
  let overflow := 0 in
  let overflow := if (s =? 1) && (r >=? f) then 1 else overflow in
  let overflow := if (s =? -1) && (r <? 0) then -1 else overflow in
  let overflow := if f =? 0 then 0 else overflow in
  0 <= r - overflow * f < f /\ (-1 <= overflow <= 1).
Proof.
  intros Hf HX HY. cbv zeta.
  destruct (Z.eqb_spec f 0); [lia |].
  destruct sign; cbn [Sign_toBigint Z.eqb andb Pos.eqb].
  - rewrite Z.geb_leb. destruct (Z.leb_spec f (X + 1 * Y)); lia.
  - destruct (Z.ltb_spec (X + -1 * Y) 0); lia.
Qed.

(** The limbs [singleAdd] witnesses are the in-range limbs of
    [(x + sign*y) mod f]. *)
Lemma singleAdd_witnesses_sound (x y : Field3) (sign : Sign) (f : Z)
  (r0 r1 r2 overflow carry : Z) :
  0 <= l -> 0 < f < 2 ^ l3 ->
  0 <= Field3_toBigint x < f -> 0 <= Field3_toBigint y < f ->
  singleAdd_witnesses x y sign f = ret [r0; r1; r2; overflow; carry] ->
  0 <= r0 < 2 ^ l /\ 0 <= r1 < 2 ^ l /\ 0 <= r2 < 2 ^ l /\
  combine (r0, r1, r2)
  = (Field3_toBigint x + Sign_toBigint sign * Field3_toBigint y) mod f.
Proof.
  intros Hl Hf HX HY E.
  pose proof (pow2_l_pos Hl) as Hb.
  pose proof (@overflow_reduces _ _ f sign ltac:(lia) HX HY) as Ho.
  cbv zeta in Ho.
  unfold singleAdd_witnesses in E. unfold Field3_toBigint in *.
  assert (Ef : combine (split f) = f) by (apply combine_split; lia).
  destruct (toBigint3 x) as [[x0 x1] x2].
  destruct (toBigint3 y) as [[y0 y1] y2].
  destruct (split f) as [[f0 f1] f2].
  cbn [low2 snd] in E.
  set (s := Sign_toBigint sign) in *.
  set (X := combine (x0, x1, x2)) in *.
  set (Y := combine (y0, y1, y2)) in *.
  match type of Ho with
  | 0 <= _ - ?ov * f < f /\ _ => set (o := ov) in *
  end.
  destruct Ho as [HT Hor].
  match type of E with
  | context [Z.land ?v l2Mask] => set (r01full := v) in *
  end.
  rewrite split2_spec in E by assumption.
  unfold ret in E. inversion E as [[E0 E1 E2 Eo Ec]].
  clear E E0 E1 E2 Eo Ec.
  unfold l2Mask. rewrite land_mask by (unfold l2; lia).
  rewrite shr_pow2 by (unfold l2; lia).
  rewrite pow2_l2 by assumption.
  set (b := 2 ^ l) in *.
  assert (Hbb : 0 < b * b) by nia.
  set (r01 := r01full mod (b * b)). set (c := r01full / (b * b)).
  pose proof (Z.mod_pos_bound r01full (b * b) Hbb) as R01. fold r01 in R01.
  pose proof (Z.div_mod r01full (b * b) ltac:(lia)) as D01.
  fold r01 c in D01.
  (* the two low limbs recombine to r01 *)
  assert (L1 : r01 / b < b) by (apply Z.div_lt_upper_bound; lia).
  assert (L0 : 0 <= r01 / b) by (apply Z.div_pos; lia).
  rewrite (Z.mod_small (r01 / b) b) by lia.
  pose proof (Z.div_mod r01 b ltac:(lia)) as Dr.
  pose proof (Z.mod_pos_bound r01 b Hb) as R0.
  set (d0 := r01 mod b) in *. set (d1 := r01 / b) in *.
  set (d2 := x2 + s * y2 - o * f2 + c).
  (* the whole triple recombines to the reduced sum *)
  rewrite !combine_spec in * by assumption. fold b in Ef, X, Y |- *.
  unfold r01full in D01. rewrite !combine2_spec in D01 by assumption.
  fold b in D01.
  assert (ET : d0 + d1 * b + d2 * (b * b) = X + s * Y - o * f).
  { subst d2 X Y. rewrite !combine_spec by assumption. fold b.
    rewrite <- Ef. nia. }
  assert (R2 : 0 <= d2 < b).
  { rewrite pow2_l3 in Hf by assumption. fold b in Hf. nia. }
  split; [lia |]. split; [lia |]. split; [exact R2 |].
  rewrite ET. apply (Z.mod_unique_pos _ _ o); lia.
Qed.

Lemma sum_reduce_spec (sign : list Sign) :
  forall (pre ts : list Z) (i : nat) (acc : Z),
    length pre = (i + 1)%nat -> length ts = length sign ->
    sum_reduce sign i (pre ++ ts) acc = ret (acc + signedTerms_spec sign ts).
Proof.
  induction sign as [| s sign' IH]; intros pre ts i acc Hpre Hts.
  - destruct ts; [| discriminate]. simpl. now rewrite Z.add_0_r.
  - destruct ts as [| t ts']; [discriminate |]. simpl in Hts.
    cbn [sum_reduce signedTerms_spec]. unfold at_.
    rewrite nth_error_app2 by lia. rewrite Hpre, Nat.sub_diag. simpl nth_error.
    cbv iota. rewrite bind_ret.
    replace (pre ++ t :: ts') with ((pre ++ [t]) ++ ts')
      by (now rewrite <- app_assoc).
    rewrite IH; [f_equal; lia | rewrite length_app; simpl; lia | lia].
Qed.

(** Constant folding: with every term constant, [sum] returns the triple of
    [(t0 + sum_i sign_i*t_i) mod f] and emits no row. *)
Lemma sum_constant_folding (t0 : Field3) (ts : list Field3)
  (sign : list Sign) (f : Z) :
  0 < f -> length ts = length sign ->
  forallb Field3_isConstant (t0 :: ts) = true ->
  sum (t0 :: ts) sign f
  = (Ok (Field3_from
           ((Field3_toBigint t0
             + signedTerms_spec sign (map Field3_toBigint ts)) mod f)), []).
Proof.
  intros Hf Hlen Hc. unfold sum. rewrite Hc.
  replace (Nat.eqb (length (t0 :: ts)) (length sign + 1)) with true
    by (symmetry; apply Nat.eqb_eq; simpl; lia).
  rewrite assert_true, bind_ret. cbn [map]. unfold at_ at 1.
  cbn [nth_error]. rewrite bind_ret.
  change (Field3_toBigint t0 :: map Field3_toBigint ts)
    with ([Field3_toBigint t0] ++ map Field3_toBigint ts).
  rewrite (@sum_reduce_spec sign [Field3_toBigint t0]
             (map Field3_toBigint ts) 0%nat)
    by (rewrite ?length_map; simpl; lia).
  rewrite bind_ret, mod_spec, bind_ret by assumption. reflexivity.
Qed.

(** The chain of two terms in the provable case: one addition row, the
    closing zero row and the range check of the result. *)
Lemma sum_two_provable (x y : Field3) (sign : Sign) (f : Z) :
  Field3_isConstant x && Field3_isConstant y = false ->
  exists r0 r1 r2 overflow carry g,
    singleAdd_witnesses (toVars x) (toVars y) sign f
    = ret [r0; r1; r2; overflow; carry] /\
    let r := (Field_witness r0, Field_witness r1, Field_witness r2) in
    sum [x; y] [sign] f
    = (Ok r, [Row_foreignFieldAdd g; Row_zero r; Row_multiRangeCheck r]).
Proof.
  intros C. unfold sum. cbn [length Nat.add Nat.eqb forallb].
  rewrite andb_true_r, C, assert_true, bind_ret.
  cbn [map]. unfold at_ at 1. cbn [nth_error]. rewrite bind_ret.
  cbn [sum_chain]. unfold at_ at 1. cbn [Nat.add nth_error].
  rewrite bind_ret.
  destruct (singleAdd_run (toVars x) (toVars y) sign f)
    as (r0 & r1 & r2 & o & c & Ew & Es).
  exists r0, r1, r2, o, c. eexists. split; [exact Ew |].
  rewrite Es. reflexivity.
Qed.

(** C5, as the code has it: for every modulus [f] with [0 < f < 2^l3], all
    [x], [y] in [[0, f)] and either sign, [sum [x; y] [sign] f] (that is
    [add] / [sub]) returns a triple whose value is [(x + sign*y) mod f];
    and for every [f > 0], when every term is constant,
    [sum terms signs f] is the triple of [(t0 + sum_i sign_i*t_i) mod f], computed
    directly with no row emitted. *)
Theorem sum_sound (x y : Field3) (sign : Sign) (f : Z) :
  0 <= l -> 2 ^ l <= nativeModulus ->
  0 < f < 2 ^ l3 ->
  0 <= Field3_toBigint x < f ->
  0 <= Field3_toBigint y < f ->
  (exists r w,
      sum [x; y] [sign] f = (Ok r, w) /\
      Field3_toBigint r
      = (Field3_toBigint x + Sign_toBigint sign * Field3_toBigint y) mod f) /\
  (forall (t0 : Field3) (ts : list Field3) (signs : list Sign) (f' : Z),
      0 < f' -> length ts = length signs ->
      forallb Field3_isConstant (t0 :: ts) = true ->
      sum (t0 :: ts) signs f'
      = (Ok (Field3_from
               ((Field3_toBigint t0
                 + signedTerms_spec signs (map Field3_toBigint ts)) mod f')), [])).
Proof.
  intros Hl Hp Hf HX HY. split.
  - destruct (Field3_isConstant x && Field3_isConstant y) eqn:C.
    + rewrite (@sum_constant_folding x [y] [sign] f) by
        (try lia; try reflexivity; simpl; now rewrite andb_true_r).
      eexists. eexists. split; [reflexivity |].
      cbn [map signedTerms_spec]. rewrite Z.add_0_r.
      apply Field3_toBigint_from; try assumption.
      pose proof (Z.mod_pos_bound
        (Field3_toBigint x + Sign_toBigint sign * Field3_toBigint y) f
        ltac:(lia)). lia.
    + destruct (sum_two_provable x y sign f C)
        as (r0 & r1 & r2 & o & c & g & Ew & Es).
      cbv zeta in Es. rewrite Es. eexists. eexists. split; [reflexivity |].
      apply singleAdd_witnesses_sound in Ew;
        rewrite ?Field3_toBigint_toVars; try assumption.
      rewrite !Field3_toBigint_toVars in Ew.
      destruct Ew as (R0 & R1 & R2 & Ec). rewrite <- Ec.
      unfold Field3_toBigint. cbn [toBigint3 Field_witness Field_toBigInt].
      rewrite !Z.mod_small by lia. reflexivity.
  - intros t0 ts signs f' Hf' Hlen Hc. now apply sum_constant_folding.
Qed.

(** [add] and [sub] are the two-term chains. *)
Lemma ForeignField_add_sub_sum (x y : Field3) (f : Z) :
  ForeignField_add x y f = sum [x; y] [Plus] f /\
  ForeignField_sub x y f = sum [x; y] [Minus] f.
Proof. split; reflexivity. Qed.

End Addition.

Section LessThan.
Context {cfg : Params}.

Lemma toBigint3_Field3_from_0 : toBigint3 (Field3_from 0) = (0, 0, 0).
Proof.
  unfold Field3_from, split.
  rewrite !Z.shiftr_0_l, !Z.land_0_l. simpl.
  now rewrite Zmod_0_l.
Qed.

Lemma Field3_inRange_bound (x : Field3) :
  0 <= l -> Field3_inRange x = true -> 0 <= Field3_toBigint x < 2 ^ l3.
Proof.
  intros Hl R. pose proof (pow2_l_pos Hl) as Hb.
  destruct x as [[x0 x1] x2]. unfold Field3_inRange, inRange in R.
  apply andb_prop in R; destruct R as [R R2].
  apply andb_prop in R; destruct R as [R0 R1].
  apply andb_prop in R0; destruct R0 as [R0 R0'].
  apply andb_prop in R1; destruct R1 as [R1 R1'].
  apply andb_prop in R2; destruct R2 as [R2 R2'].
  apply Z.leb_le in R0, R1, R2. apply Z.ltb_lt in R0', R1', R2'.
  unfold Field3_toBigint. cbn [toBigint3].
  rewrite combine_spec, pow2_l3 by assumption. nia.
Qed.

Lemma minus_one_mod (p : Z) : 1 < p -> (-1) mod p = p - 1.
Proof. intros Hp. symmetry. apply (Z.mod_unique_pos _ _ (-1)); lia. Qed.

(** Negating [x = f] modulo [f - 1]: the high limb the chain witnesses
    is [-1]. *)
Lemma negate_modulus_witness (x0 x : Field3) (f r0 r1 r2 overflow carry : Z) :
  0 <= l -> 0 < f <= 2 ^ l3 ->
  toBigint3 x0 = (0, 0, 0) -> Field3_toBigint x = f ->
  singleAdd_witnesses x0 x Minus (f - 1)
  = ret [r0; r1; r2; overflow; carry] ->
  r2 = -1.
Proof.
  intros Hl Hf H0 HX E. pose proof (pow2_l_pos Hl) as Hb.
  assert (Eg : combine (split (f - 1)) = f - 1) by (apply combine_split; lia).
  unfold singleAdd_witnesses in E. rewrite H0 in E.
  unfold Field3_toBigint in HX.
  destruct (toBigint3 x) as [[y0 y1] y2].
  destruct (split (f - 1)) as [[g0 g1] g2].
  cbn [low2 snd Sign_toBigint] in E.
  rewrite split2_spec in E by assumption.
  rewrite !combine_spec in * by assumption.
  rewrite !combine2_spec in E by assumption.
  unfold l2Mask in E. rewrite land_mask, shr_pow2 in E by (unfold l2; lia).
  rewrite pow2_l2 in E by assumption.
  set (b := 2 ^ l) in *.
  cbn [Z.eqb andb] in E.
  replace (0 + 0 * b + 0 * (b * b) + -1 * (y0 + y1 * b + y2 * (b * b)) <? 0)
    with true in E by (symmetry; apply Z.ltb_lt; lia).
  cbn [Pos.eqb andb] in E.
  match type of E with
  | context [if f - 1 =? 0 then 0 else -1] =>
      set (o := if f - 1 =? 0 then 0 else -1) in *
  end.
  assert (Ho : o * (f - 1) = - (f - 1)).
  { subst o. destruct (Z.eqb_spec (f - 1) 0); lia. }
  apply (f_equal (fun m : M (list Z) =>
                    nth 2 (match fst m with Ok v => v | Err _ => [] end) 0))
    in E.
  cbn [fst ret nth] in E. rewrite <- E. clear E.
  assert (Hbb : 0 < b * b) by nia.
  match goal with
  | |- context [?v / (b * b)] => set (r01full := v) in *
  end.
  pose proof (Z.mod_pos_bound r01full (b * b) Hbb) as R01.
  pose proof (Z.div_mod r01full (b * b) ltac:(lia)) as D01.
  set (c := r01full / (b * b)) in *. set (r01 := r01full mod (b * b)) in *.
  assert (ET : r01 + (0 + -1 * y2 - o * g2 + c) * (b * b) = -1).
  { subst r01full. rewrite <- Eg in Ho. nia. }
  nia.
Qed.

(** C6: in constant mode [assertLessThan x f] succeeds for every [x] in
    [[0, f)] and throws at once for [x = f] and any [x >= f]; in symbolic
    mode it is [negate x (f - 1)], and when the limb-triple [x] holds [f]
    itself the log it builds contains a violated range check, so the proof
    fails at verification. *)
Theorem assertLessThan_spec (x : Field3) (f : Z) :
  0 <= l -> 2 ^ l < nativeModulus ->
  (Field3_isConstant x = true ->
   (0 <= Field3_toBigint x < f ->
    ForeignField_assertLessThan x f = (Ok tt, [])) /\
   (f <= Field3_toBigint x ->
    exists msg,
      ForeignField_assertLessThan x f = throw (AssertionError msg))) /\
  (Field3_isConstant x = false -> 0 < f ->
   ForeignField_assertLessThan x f
   = (ForeignField_negate x (f - 1) ;;; ret tt) /\
   (Field3_inRange x = true -> Field3_toBigint x = f ->
    exists w,
      ForeignField_assertLessThan x f = (Ok tt, w) /\ proofFails w = true)).
Proof.
  intros Hl Hp. pose proof (pow2_l_pos Hl) as Hb. split.
  - intros C. unfold ForeignField_assertLessThan. rewrite C. split.
    + intros HX.
      replace (f >? 0) with true by (symmetry; apply Z.gtb_lt; lia).
      rewrite assert_true, bind_ret.
      replace (Field3_toBigint x <? f) with true
        by (symmetry; apply Z.ltb_lt; lia).
      reflexivity.
    + intros HX. destruct (Z.gtb_spec f 0) as [Hf | Hf].
      * rewrite assert_true, bind_ret.
        replace (Field3_toBigint x <? f) with false
          by (symmetry; apply Z.ltb_ge; lia).
        eexists; reflexivity.
      * eexists; reflexivity.
  - intros C Hf.
    assert (Eq : ForeignField_assertLessThan x f
                 = (ForeignField_negate x (f - 1) ;;; ret tt)).
    { unfold ForeignField_assertLessThan. rewrite C.
      replace (f >? 0) with true by (symmetry; apply Z.gtb_lt; lia).
      now rewrite assert_true, bind_ret. }
    split; [exact Eq |]. intros R HX. rewrite Eq.
    pose proof (Field3_inRange_bound x Hl R) as Bx. rewrite HX in Bx.
    unfold ForeignField_negate.
    destruct (sum_two_provable (Field3_from 0) x Minus (f - 1))
      as (r0 & r1 & r2 & o & c & g & Ew & Es).
    { rewrite C. apply andb_false_r. }
    apply negate_modulus_witness in Ew;
      [| assumption | lia
       | rewrite toBigint3_toVars; apply toBigint3_Field3_from_0
       | now rewrite Field3_toBigint_toVars ].
    subst r2. cbv zeta in Es. rewrite Es, bind_Ok.
    eexists. split; [reflexivity |].
    cbn [snd ret]. rewrite app_nil_r.
    unfold proofFails. cbn [existsb Row_violated orb].
    apply orb_true_iff; left.
    apply negb_true_iff, andb_false_iff; right.
    unfold inRange. cbn [Field_witness Field_toBigInt].
    rewrite minus_one_mod by lia.
    apply andb_false_iff; right. apply Z.ltb_ge. lia.
Qed.

End LessThan.

Section Finalization.
Context {cfg : Params}.

Lemma Sum_chained_spec (ys : list (Sign * Field3)) :
  forall this : Sum,
    Sum_result_ this = None ->
    Sum_chained this ys
    = ret (mkSum None (Sum_summands this ++ map snd ys)
                 (Sum_ops this ++ map fst ys)).
Proof.
  induction ys as [| [s y] ys' IH]; intros this Hb.
  - simpl. rewrite !app_nil_r. destruct this; simpl in *; now subst.
  - cbn [Sum_chained]. unfold Sum_add, Sum_sub, Sum_unfinished.
    rewrite Hb, assert_true.
    destruct s; rewrite !bind_ret, IH by reflexivity; cbn [Sum_summands Sum_ops map fst snd];
      now rewrite <- !app_assoc.
Qed.

Lemma at_Some (A : Type) (xs : list A) (i : nat) :
  (i < length xs)%nat -> exists a, at_ xs i = ret a.
Proof.
  intros Hi. unfold at_. destruct (nth_error xs i) as [a |] eqn:E.
  - now exists a.
  - apply nth_error_None in E. lia.
Qed.

Lemma lowLimb_witnesses_shape (xRef : Z) (xi : bigint3) (sign : Sign)
  (f f0 : Z) :
  exists carry overflow xRef',
    lowLimb_witnesses xRef xi sign f f0 = ([carry; overflow], xRef').
Proof. unfold lowLimb_witnesses. repeat eexists. Qed.

(** The low-limb loop never throws on a well-formed chain and pushes one
    entry per step on [x0s] and on [overflows]. *)
Lemma lowLimb_loop_total (signs : list Sign) :
  forall (i : nat) (xs : list Field3) (f f0 : Z) (x0 : Field) (xRef : Z)
         (x0s overflows : list Field),
    (i + length signs < length xs)%nat ->
    exists x0s' overflows' w,
      lowLimb_loop signs i xs f f0 x0 xRef x0s overflows
      = (Ok (x0s ++ x0s', overflows ++ overflows'), w)
      /\ length x0s' = length signs /\ length overflows' = length signs.
Proof.
  induction signs as [| sign signs' IH];
    intros i xs f f0 x0 xRef x0s overflows Hlen.
  - exists [], [], []. simpl. now rewrite !app_nil_r.
  - cbn [lowLimb_loop]. cbn [length] in Hlen.
    destruct (@at_Some _ xs (i + 1)%nat ltac:(lia)) as [xi Exi].
    rewrite Exi, bind_ret.
    destruct (lowLimb_witnesses_shape xRef (toBigint3 xi) sign f f0)
      as (c & o & xRef' & Ew).
    rewrite Ew. unfold exists_. rewrite bind_ret.
    cbn [length Nat.eqb]. rewrite assert_true, bind_ret. cbn [map].
    rewrite bind_ret. unfold assertOneOf, emit. rewrite bind_Ok.
    match goal with
    | |- context [lowLimb_loop signs' (S i) xs f f0 ?a xRef' (x0s ++ [?b]) ?c]
      => destruct (IH (S i) xs f f0 a xRef' (x0s ++ [b]) c ltac:(lia))
          as (x0s' & ovs' & w & E & L1 & L2); rewrite E
    end.
    cbn [fst snd]. rewrite <- !app_assoc.
    eexists (_ :: x0s'), (_ :: ovs'). eexists.
    split; [reflexivity |]. simpl. lia.
Qed.

Lemma sum_chain_total (signs : list Sign) :
  forall (i : nat) (xs : list Field3) (x : Field3) (f : Z),
    (i + length signs < length xs)%nat ->
    Field3_isConstant x = false ->
    exists r w,
      sum_chain signs i xs x f = (Ok r, w) /\ Field3_isConstant r = false.
Proof.
  induction signs as [| sign signs' IH]; intros i xs x f Hlen Hx.
  - exists x, []. split; [reflexivity | assumption].
  - cbn [sum_chain]. cbn [length] in Hlen.
    destruct (@at_Some _ xs (i + 1)%nat ltac:(lia)) as [xi Exi].
    rewrite Exi, bind_ret.
    destruct (singleAdd_run x xi sign f) as (r0 & r1 & r2 & o & c & _ & Es).
    rewrite Es, bind_Ok. cbn [fst].
    match goal with
    | |- context [sum_chain signs' (S i) xs ?a f] =>
        destruct (IH (S i) xs a f ltac:(lia) ltac:(reflexivity))
          as (r & w & E & Hr); rewrite E
    end.
    eexists. eexists. split; [reflexivity | assumption].
Qed.

(** The ffadd chain of [finishForMulInput] computes the value of the chain
    of [finish]: the extra wiring only adds rows. *)
Lemma mulInput_chain_result (signs : list Sign) :
  forall (i : nat) (xs : list Field3) (f : Z) (x : Field3)
         (x0s overflows : list Field),
    (i + length signs <= length x0s)%nat ->
    (i + length signs <= length overflows)%nat ->
    fst (mulInput_chain signs i xs f x x0s overflows)
    = fst (sum_chain signs i xs x f).
Proof.
  induction signs as [| sign signs' IH];
    intros i xs f x x0s overflows L1 L2.
  - reflexivity.
  - cbn [mulInput_chain sum_chain]. cbn [length] in L1, L2.
    unfold at_ at 1 4. destruct (nth_error xs (i + 1)) as [xi |];
      [| reflexivity].
    rewrite !bind_ret.
    destruct (singleAdd_run x xi sign f) as (r0 & r1 & r2 & o & c & _ & Es).
    rewrite Es, !bind_Ok. cbn [fst snd].
    destruct (@at_Some _ x0s i ltac:(lia)) as [a Ea].
    destruct (@at_Some _ overflows i ltac:(lia)) as [b Eb].
    rewrite Ea, bind_ret. unfold Field_assertEquals at 1.
    cbn [Field_witness Field_isConstant andb]. unfold emit at 1.
    rewrite bind_Ok, Eb, bind_ret. unfold Field_assertEquals at 1.
    cbn [Field_witness Field_isConstant andb]. unfold emit at 1.
    rewrite bind_Ok. cbn [fst]. now rewrite IH by lia.
Qed.

Lemma multiRangeCheck_Field3_from (m : Z) :
  0 <= l -> 0 < nativeModulus -> multiRangeCheck (Field3_from m) = ret tt.
Proof.
  intros Hl Hp. unfold Field3_from.
  pose proof (split_limbs_range m Hl) as R.
  destruct (split m) as [[m0 m1] m2]. destruct R as (R0 & R1 & R2).
  unfold multiRangeCheck. cbn [Field_from Field_isConstant andb].
  replace (inRange l (Field_from m0) && inRange l (Field_from m1)
           && inRange l (Field_from m2)) with true; [reflexivity |].
  symmetry. unfold inRange. cbn [Field_from Field_toBigInt].
  pose proof (Z.mod_pos_bound m0 _ Hp). pose proof (Z.mod_le m0 _ ltac:(lia) Hp).
  pose proof (Z.mod_pos_bound m1 _ Hp). pose proof (Z.mod_le m1 _ ltac:(lia) Hp).
  pose proof (Z.mod_pos_bound m2 _ Hp). pose proof (Z.mod_le m2 _ ltac:(lia) Hp).
  repeat (apply andb_true_intro; split);
    first [apply Z.leb_le; lia | apply Z.ltb_lt; lia].
Qed.

(** In the constant case [sum] returns a triple built by [Field3.from]. *)
Lemma sum_constant_result (x : list Field3) (sign : list Sign) (f : Z)
  (r : Field3) (w : list Row) :
  forallb Field3_isConstant x = true ->
  sum x sign f = (Ok r, w) -> exists m, r = Field3_from m.
Proof.
  intros C H. unfold sum in H. rewrite C in H.
  do 4 bind_inv H. unfold ret in H. inversion H; subst. now eexists.
Qed.

Lemma multiRangeCheck_provable (r : Field3) :
  Field3_isConstant r = false ->
  multiRangeCheck r = (Ok tt, [Row_multiRangeCheck r]).
Proof.
  destruct r as [[r0 r1] r2]. unfold multiRangeCheck. simpl.
  intros ->. reflexivity.
Qed.

Lemma fst_close_row (isChained : bool) (x : Field3) :
  fst (if negb isChained then Gates_zero x else ret tt) = Ok tt.
Proof. now destruct isChained. Qed.

(** C2: for every chain of adds/subs, every modulus [f] and whatever values
    the terms hold, [finishForMulInput f] yields the same outcome, the
    same result triple and the same finalized Sum, as [finish f] followed
    by an explicit [rangeCheck]; the two modes differ in the rows they emit
    only. Whenever the chain has a symbolic term or [f] is positive, that
    outcome is a result. *)
Theorem finishForMulInput_equiv_finish (x : Field3)
  (ys : list (Sign * Field3)) (f : Z) (isChained : bool) (this : Sum) :
  0 <= l -> 0 < nativeModulus ->
  Sum_chained (Sum_new x) ys = ret this ->
  fst (Sum_finishForMulInput this f isChained)
  = fst (rs <- Sum_finish this f isChained ;;
         Sum_rangeCheck (snd rs) ;;; ret rs) /\
  (0 < f \/ Sum_isConstant this = false ->
   exists r this',
     fst (Sum_finishForMulInput this f isChained) = Ok (r, this')).
Proof.
  intros Hl Hp Hthis.
  rewrite Sum_chained_spec in Hthis by reflexivity.
  unfold ret in Hthis. inversion Hthis as [Ethis]. clear Hthis.
  cbn [Sum_new Sum_summands Sum_ops app].
  unfold Sum_finishForMulInput, Sum_finish.
  cbn [Sum_unfinished Sum_result_ Sum_ops Sum_summands].
  rewrite !assert_true, !bind_ret.
  destruct ys as [| [s y] ys'].
  { split; [reflexivity |]. intros _. eexists. eexists. reflexivity. }
  cbn [map length Nat.eqb fst snd].
  set (signs := s :: map fst ys').
  set (terms := x :: y :: map snd ys').
  assert (Hlen : length terms = S (length signs)).
  { subst terms signs. simpl. now rewrite !length_map. }
  unfold Sum_isConstant. cbn [Sum_summands]. fold terms.
  destruct (forallb Field3_isConstant terms) eqn:C.
  - (* constant case *)
    destruct (sum terms signs f) as [[r | e] w] eqn:Es.
    + destruct (sum_constant_result _ _ _ C Es) as [m ->].
      split.
      * rewrite !bind_Ok. cbn [Sum_return ret fst snd].
        rewrite bind_Ok. cbn [fst snd].
        unfold Sum_rangeCheck. cbn [Sum_result_ Sum_ops].
        subst signs. cbn [length Nat.ltb Nat.leb].
        rewrite multiRangeCheck_Field3_from by assumption.
        reflexivity.
      * intros _. rewrite bind_Ok. eexists. eexists. reflexivity.
    + split; [reflexivity |]. intros [Hf | Hn]; [| discriminate].
      exfalso. subst terms.
      rewrite sum_constant_folding in Es; try assumption; [discriminate |].
      subst signs. simpl. now rewrite !length_map.
  - (* provable case *)
    subst terms. cbn [map]. unfold at_. cbn [nth_error].
    rewrite !bind_ret.
    set (xs := toVars x :: toVars y :: map toVars (map snd ys')).
    assert (Lxs : (0 + length signs < length xs)%nat).
    { subst xs signs. simpl. rewrite !length_map. lia. }
    destruct (@lowLimb_loop_total signs 0%nat xs f (Z.land f lMask)
                (fst (fst (toVars x))) (Field3_toBigint (toVars x)) [] [] Lxs)
      as (x0s & ovs & w0 & E0 & L1 & L2).
    rewrite E0. cbn [app].
    destruct (@sum_chain_total signs 0%nat xs (toVars x) f Lxs
                (toVars_not_constant x)) as (r & w & Er & Hr).
    pose proof (@mulInput_chain_result signs 0%nat xs f (toVars x) x0s ovs
                  ltac:(lia) ltac:(lia)) as Em.
    rewrite Er in Em. cbn [fst] in Em.
    destruct (mulInput_chain signs 0 xs f (toVars x) x0s ovs)
      as [rm wm] eqn:Emc. cbn [fst] in Em. subst rm.
    assert (L : fst (xo <- (Ok (x0s, ovs), w0) ;;
                     (let '(x0s0, overflows) := xo in
                      x1 <- mulInput_chain signs 0 xs f (toVars x) x0s0
                              overflows ;;
                      (if negb isChained then Gates_zero x1 else ret tt) ;;;
                      Sum_return
                        {| Sum_result_ := None;
                           Sum_summands := x :: y :: map snd ys';
                           Sum_ops := signs |} x1))
                = Ok (r, mkSum (Some r) (x :: y :: map snd ys') signs)).
    { rewrite bind_Ok. cbn [fst]. rewrite Emc, bind_Ok. cbn [fst].
      rewrite fst_bind, fst_close_row. reflexivity. }
    rewrite L. split; [| eexists; eexists; reflexivity].
    rewrite Er. rewrite fst_bind, fst_bind. cbn [fst].
    rewrite fst_bind, fst_close_row. cbn [Sum_return ret fst snd].
    rewrite fst_bind. unfold Sum_rangeCheck. cbn [Sum_result_ Sum_ops].
    subst signs. cbn [length Nat.ltb Nat.leb].
    rewrite multiRangeCheck_provable by assumption. reflexivity.
Qed.

End Finalization.

Section Division.
Context {cfg : Params}.

Lemma bind_Ok_Ok (A B C : Type) (a : A) (b : B) (w1 w2 : list Row)
  (k : B -> M C) :
  bind (Ok a, w1) (fun _ => bind (Ok b, w2) k) = bind (Ok b, w1 ++ w2) k.
Proof.
  unfold bind. destruct (k b) as [r w3]. now rewrite app_assoc.
Qed.

(** [assertMulInternal] on a witnessed left operand never throws. *)
Lemma assertMulInternal_provable (z y x : Field3) (f : Z) :
  f <> 0 -> exists w, assertMulInternal z y (inl x) f = (Ok tt, w).
Proof.
  intros Hf. unfold assertMulInternal.
  destruct (multiplyNoRangeCheck_run z y Hf) as (q & w & E & Hq).
  rewrite E, bind_Ok. cbn [mul_q mul_r01 mul_r2].
  rewrite (multiRangeCheck_provable _ Hq), bind_Ok.
  destruct x as [[x0 x1] x2].
  unfold Field_assertEquals. cbn [Field_witness Field_isConstant andb].
  unfold emit. rewrite bind_Ok. eexists. reflexivity.
Qed.

(** The provable branch of [divide]: the witnessed quotient, the rows of
    the multiplication, then the zero guard on [y] unless
    [allowZeroOverZero]. *)
Lemma divide_provable (x : Field3) (y0 y1 y2 : Field) (f : Z) :
  0 < f < 2 ^ 259 ->
  Field3_isConstant x && Field3_isConstant (y0, y1, y2) = false ->
  let X := Field3_toBigint x in
  let Y := Field3_toBigint (y0, y1, y2) in
  let zs := if Z.gcd Y f =? 1 then split ((X * Z.invmod Y f) mod f)
            else (0, 0, 0) in
  let z := (Field_witness (fst (fst zs)), Field_witness (snd (fst zs)),
            Field_witness (snd zs)) in
  let y01 := Field_add y0 (Field_mul y1 (Field_from (1 << l))) in
  let b1 := Bool_and (Field_equals y01 (Field_from 0))
                     (Field_equals y2 (Field_from 0)) in
  let b2 := Bool_and
              (Field_equals y01 (Field_from (combine2 (low2 (split f)))))
              (Field_equals y2 (Field_from (snd (split f)))) in
  exists w, forall allowZeroOverZero : bool,
    divide x (y0, y1, y2) f allowZeroOverZero
    = ((Ok tt, w) ;;;
       (if negb allowZeroOverZero
        then Bool_assertFalse b1 ;;; Bool_assertFalse b2
        else ret tt) ;;;
       ret z).
Proof.
  intros Hf C X Y zs z y01 b1 b2.
  destruct (@assertMulInternal_provable z (y0, y1, y2) x f ltac:(lia))
    as [wm Em].
  exists (([Row_multiRangeCheck z] ++ wm)
          ++ [Row_multiRangeCheck
                (weakBound (Field_witness (snd zs)) f, Field_from 0,
                 Field_from 0)]).
  intros allowZeroOverZero. unfold divide.
  rewrite modulus_guard_true, assert_true, bind_ret by apply Hf.
  rewrite C. fold X Y.
  assert (Ez : exists vs,
             (yInv <- modInverse Y f ;;
              match yInv with
              | Some yInv0 =>
                  m <- mod_ (X * yInv0) f ;;
                  (let '(z0, z1, z2) := split m in ret [z0; z1; z2])
              | None => ret [0; 0; 0]
              end)
             = ret vs
             /\ vs = [fst (fst zs); snd (fst zs); snd zs]).
  { subst zs. destruct (Z.eq_dec f 1) as [F1 | F1].
    - (* modulo 1 no inverse is found; the filler is the quotient 0 *)
      rewrite F1, modInverse_one, bind_ret, Z.gcd_1_r.
      cbn [Z.eqb Pos.eqb]. rewrite Z.mod_1_r, split_0.
      eexists; split; reflexivity.
    - rewrite modInverse_gt1, bind_ret by lia.
      destruct (Z.gcd Y f =? 1).
      + rewrite mod_spec, bind_ret by apply Hf.
        destruct (split ((X * Z.invmod Y f) mod f)) as [[z0 z1] z2].
        eexists; split; reflexivity.
      + eexists; split; reflexivity. }
  destruct Ez as (vs & Ez & ->). unfold exists_ at 1. rewrite Ez.
  rewrite bind_ret. cbn [length Nat.eqb]. rewrite assert_true, !bind_ret.
  cbn [map]. fold z.
  rewrite (@multiRangeCheck_provable _ z) by reflexivity.
  rewrite Em, bind_Ok_Ok.
  rewrite (@multiRangeCheck_provable _
             (weakBound (Field_witness (snd zs)) f, Field_from 0, Field_from 0))
    by reflexivity.
  rewrite bind_Ok_Ok.
  destruct (split f) as [[f0 f1] f2]. cbn [low2 snd] in b2.
  reflexivity.
Qed.

Lemma mul_inverse_cancel (X Y yi f : Z) :
  (yi * Y) mod f = 1 mod f -> (((X * yi) mod f) * Y) mod f = X mod f.
Proof.
  intros H. rewrite Zmult_mod_idemp_l.
  rewrite <- Z.mul_assoc, <- Zmult_mod_idemp_r, H, Zmult_mod_idemp_r.
  now rewrite Z.mul_1_r.
Qed.

(** The native value of the combined low+mid limb of an in-range triple. *)
Lemma low_mid_value (y0 y1 : Field) :
  0 <= l -> 2 ^ l2 <= nativeModulus ->
  inRange l y0 = true -> inRange l y1 = true ->
  Field_toBigInt (Field_add y0 (Field_mul y1 (Field_from (1 << l))))
  = combine2 (Field_toBigInt y0, Field_toBigInt y1).
Proof.
  intros Hl Hp R0 R1. pose proof (pow2_l_pos Hl) as Hb.
  pose proof (pow2_l2 Hl) as E2. pose proof (pow2_l_le_l2 Hl).
  unfold inRange in R0, R1.
  apply andb_prop in R0; destruct R0 as [R0 R0'].
  apply andb_prop in R1; destruct R1 as [R1 R1'].
  apply Z.leb_le in R0, R1. apply Z.ltb_lt in R0', R1'.
  cbn [Field_add Field_mul Field_from Field_toBigInt].
  rewrite combine2_spec, Z.shiftl_1_l by assumption.
  set (b := 2 ^ l) in *.
  rewrite Zmult_mod_idemp_r, Zplus_mod_idemp_r.
  apply Z.mod_small. nia.
Qed.

Lemma combine_low_high (y0 y1 y2 : Z) :
  0 <= l -> combine (y0, y1, y2) = combine2 (y0, y1) + y2 * (2 ^ l * 2 ^ l).
Proof. intros Hl. now rewrite combine_spec, combine2_spec. Qed.

(** What the two guard booleans of [divide] compare, for an in-range [y]:
    the combined low+mid limb and the high limb of [y] against [0] and
    against the split of [f]. *)
Lemma zero_guard_values (y0 y1 y2 : Field) (f : Z) :
  0 <= l -> 2 ^ l2 <= nativeModulus -> 0 <= f < 2 ^ l3 ->
  Field3_inRange (y0, y1, y2) = true ->
  let ys := toBigint3 (y0, y1, y2) in
  let y01 := Field_add y0 (Field_mul y1 (Field_from (1 << l))) in
  let b1 := Bool_and (Field_equals y01 (Field_from 0))
                     (Field_equals y2 (Field_from 0)) in
  let b2 := Bool_and
              (Field_equals y01 (Field_from (combine2 (low2 (split f)))))
              (Field_equals y2 (Field_from (snd (split f)))) in
  Bool_toBoolean b1 = (combine2 (low2 ys) =? 0) && (snd ys =? 0) /\
  Bool_toBoolean b2
  = (combine2 (low2 ys) =? combine2 (low2 (split f)))
    && (snd ys =? snd (split f)) /\
  (Bool_toBoolean b1 = true -> Field3_toBigint (y0, y1, y2) = 0) /\
  (Bool_toBoolean b2 = true -> Field3_toBigint (y0, y1, y2) = f).
Proof.
  intros Hl Hp Hf R ys y01 b1 b2.
  pose proof (pow2_l_pos Hl) as Hb. pose proof (pow2_l_le_l2 Hl) as Hb2.
  pose proof (pow2_l2 Hl) as E2.
  assert (R' := R). unfold Field3_inRange in R'.
  apply andb_prop in R'; destruct R' as [R01 R2].
  apply andb_prop in R01; destruct R01 as [R0 R1].
  assert (V01 : Field_toBigInt y01 = combine2 (low2 ys))
    by (now apply low_mid_value).
  pose proof (split_limbs_range f Hl) as Rf.
  assert (Ef : combine (split f) = f) by (now apply combine_split).
  destruct (split f) as [[f0 f1] f2]. destruct Rf as (F0 & F1 & F2).
  cbn [low2 snd] in *.
  assert (Vf01 : combine2 (f0, f1) mod nativeModulus = combine2 (f0, f1)).
  { apply Z.mod_small. rewrite combine2_spec by assumption. nia. }
  assert (B1 : Bool_toBoolean b1
               = (combine2 (Field_toBigInt y0, Field_toBigInt y1) =? 0)
                 && (Field_toBigInt y2 =? 0)).
  { subst b1. cbn [Bool_and Field_equals Bool_toBoolean].
    rewrite V01. cbn [Field_from Field_toBigInt]. now rewrite Zmod_0_l. }
  assert (B2 : Bool_toBoolean b2
               = (combine2 (Field_toBigInt y0, Field_toBigInt y1)
                  =? combine2 (f0, f1))
                 && (Field_toBigInt y2 =? f2)).
  { subst b2. cbn [Bool_and Field_equals Bool_toBoolean].
    rewrite V01. cbn [Field_from Field_toBigInt].
    now rewrite Vf01, (Z.mod_small f2) by lia. }
  split; [exact B1 |]. split; [exact B2 |].
  unfold Field3_toBigint. cbn [toBigint3].
  rewrite combine_low_high in * by assumption. split.
  - rewrite B1. intros H. apply andb_prop in H. destruct H as [H1 H2].
    apply Z.eqb_eq in H1, H2. rewrite H1, H2. lia.
  - rewrite B2. intros H. apply andb_prop in H. destruct H as [H1 H2].
    apply Z.eqb_eq in H1, H2. rewrite H1, H2. exact Ef.
Qed.


Lemma guard_not_constant (y0 y1 y2 target01 target2 : Field) :
  Field3_isConstant (y0, y1, y2) = false ->
  Bool_isConstant
    (Bool_and
       (Field_equals (Field_add y0 (Field_mul y1 (Field_from (1 << l))))
                     target01)
       (Field_equals y2 target2))
  = false.
Proof.
  cbn. destruct (Field_isConstant y0), (Field_isConstant y1),
    (Field_isConstant y2); cbn; intros H; try discriminate;
    rewrite ?andb_false_r; reflexivity.
Qed.


Lemma combine_zero : combine (0, 0, 0) = 0.
Proof. unfold combine. now rewrite !Z.shiftl_0_l. Qed.

Lemma gcd_zero_not_one (f : Z) : 1 < f -> (Z.gcd 0 f =? 1) = false.
Proof.
  intros Hf. rewrite Z.gcd_0_l, Z.abs_eq by lia. apply Z.eqb_neq. lia.
Qed.

(** C3, as the code has it: for every modulus [f] with [0 < f < 2^259] and
    every [x], with [y = 0]: in symbolic mode and with [allowZeroOverZero],
    [divide] produces a result without throwing (the filler [0]); in
    constant mode it throws "inverse exists" at construction whether or not
    [allowZeroOverZero] is set. Without [allowZeroOverZero], a symbolic
    [y = 0] builds a log with a violated row, so it fails at proof time,
    and a constant [y = 0] beside a symbolic [x] throws at construction. *)
Theorem divide_by_zero (x y : Field3) (f : Z) :
  0 < f < 2 ^ 259 ->
  toBigint3 y = (0, 0, 0) ->
  (Field3_isConstant x && Field3_isConstant y = false ->
   exists z w,
     divide x y f true = (Ok z, w) /\ toBigint3 z = (0, 0, 0)) /\
  (Field3_isConstant x && Field3_isConstant y = true ->
   forall allowZeroOverZero,
     divide x y f allowZeroOverZero
     = throw (AssertionError "inverse exists")) /\
  (Field3_isConstant y = false ->
   exists z w, divide x y f false = (Ok z, w) /\ proofFails w = true) /\
  (Field3_isConstant x = false -> Field3_isConstant y = true ->
   exists e w, divide x y f false = (Err e, w)).
Proof.
  intros Hf Hy.
  assert (HY : Field3_toBigint y = 0).
  { unfold Field3_toBigint. rewrite Hy. apply combine_zero. }
  assert (Hfill : (if Z.gcd 0 f =? 1
                   then split ((Field3_toBigint x * Z.invmod 0 f) mod f)
                   else (0, 0, 0)) = (0, 0, 0)).
  { destruct (Z.eq_dec f 1) as [F1 | F1].
    - rewrite F1, Z.mod_1_r, split_0. now destruct (Z.gcd 0 1 =? 1).
    - now rewrite gcd_zero_not_one by lia. }
  destruct y as [[y0 y1] y2]. cbn [toBigint3] in Hy.
  injection Hy as V0 V1 V2.
  set (y01 := Field_add y0 (Field_mul y1 (Field_from (1 << l)))).
  set (b1 := Bool_and (Field_equals y01 (Field_from 0))
                      (Field_equals y2 (Field_from 0))).
  set (b2 := Bool_and
               (Field_equals y01 (Field_from (combine2 (low2 (split f)))))
               (Field_equals y2 (Field_from (snd (split f))))).
  assert (T1 : Bool_toBoolean b1 = true).
  { subst b1 y01. cbn [Bool_and Field_equals Bool_toBoolean Field_add
                       Field_mul Field_from Field_toBigInt].
    rewrite V0, V1, V2. cbn [Z.mul Z.add].
    rewrite !Zmod_0_l. reflexivity. }
  (* the provable branch, for either setting of the flag *)
  assert (P : Field3_isConstant x && Field3_isConstant (y0, y1, y2) = false ->
              exists w, forall allow,
                divide x (y0, y1, y2) f allow
                = ((Ok tt, w) ;;;
                   (if negb allow
                    then Bool_assertFalse b1 ;;; Bool_assertFalse b2
                    else ret tt) ;;;
                   ret (Field_witness 0, Field_witness 0, Field_witness 0))).
  { intros C.
    destruct (@divide_provable x y0 y1 y2 f ltac:(lia) C) as [w E].
    exists w. intros allow. specialize (E allow). cbv zeta in E.
    rewrite HY, Hfill in E. exact E. }
  split; [| split; [| split]].
  - intros C. destruct (P C) as [w E]. rewrite (E true). cbn [negb].
    rewrite bind_ret, bind_Ok. eexists. eexists. split; [reflexivity |].
    cbn [fst ret toBigint3 Field_witness Field_toBigInt].
    now rewrite Zmod_0_l.
  - intros C allow. unfold divide.
    rewrite modulus_guard_true, assert_true, bind_ret by apply Hf.
    rewrite C, modInverse_spec, bind_ret by lia.
    rewrite HY, Zmod_0_l. reflexivity.
  - intros Cy.
    assert (C : Field3_isConstant x && Field3_isConstant (y0, y1, y2) = false)
      by (rewrite Cy; apply andb_false_r).
    destruct (P C) as [w E]. rewrite (E false). cbn [negb].
    assert (K1 : Bool_assertFalse b1 = (Ok tt, [Row_assertFalse b1])).
    { unfold Bool_assertFalse. subst b1 y01.
      now rewrite guard_not_constant by exact Cy. }
    assert (K2 : Bool_assertFalse b2 = (Ok tt, [Row_assertFalse b2])).
    { unfold Bool_assertFalse. subst b2 y01.
      now rewrite guard_not_constant by exact Cy. }
    rewrite K1, K2.
    repeat (rewrite bind_Ok; cbn [fst snd ret app]).
    eexists. eexists. split; [reflexivity |].
    rewrite proofFails_app. apply orb_true_iff; right.
    unfold proofFails. cbn [existsb Row_violated]. now rewrite T1.
  - intros Cx Cy.
    assert (C : Field3_isConstant x && Field3_isConstant (y0, y1, y2) = false)
      by (now rewrite Cx).
    destruct (P C) as [w E]. rewrite (E false). cbn [negb].
    assert (K1 : Bool_assertFalse b1
                 = throw (AssertionError "Bool.assertFalse()")).
    { unfold Bool_assertFalse. rewrite T1.
      replace (Bool_isConstant b1) with true; [reflexivity |].
      subst b1 y01. cbn in Cy |- *.
      destruct (Field_isConstant y0), (Field_isConstant y1),
        (Field_isConstant y2); try discriminate; reflexivity. }
    rewrite K1. eexists. eexists. reflexivity.
Qed.

End Division.

(** * The deployed configuration: examples *)

(** Closes a ground arithmetic side condition by evaluation. *)
Ltac zcheck := vm_compute; repeat split; try reflexivity; try discriminate.

Lemma split_combine_roundtrip_witness :
  0 <= 2 ^ 264 - 1 < 2 ^ (@l3 pasta88) /\
  @combine pasta88 (@split pasta88 (2 ^ 264 - 1)) = 2 ^ 264 - 1.
Proof.
  assert (H : 0 <= 2 ^ 264 - 1 < 2 ^ (@l3 pasta88)) by zcheck.
  exact (conj H (@split_combine_roundtrip pasta88 _ H)).
Defined.

Lemma modulus_too_large_fails_witness :
  2 ^ 259 <= 2 ^ 259 /\
  @multiply pasta88 (variable3 3) (constant3 5) (2 ^ 259)
  = throw (AssertionError "Foreign modulus fits in 259 bits") /\
  @inverse pasta88 (variable3 3) (2 ^ 259)
  = throw (AssertionError "Foreign modulus fits in 259 bits") /\
  @divide pasta88 (variable3 3) (constant3 5) (2 ^ 259) true
  = throw (AssertionError "Foreign modulus fits in 259 bits").
Proof.
  assert (H : 2 ^ 259 <= 2 ^ 259) by zcheck.
  exact (conj H (@modulus_too_large_fails pasta88 (variable3 3) (constant3 5)
                   (2 ^ 259) true H)).
Defined.

(** The spec's scenario [f = 2^256 - 2^32 - 977], [x = 2^255 - 1], [y = 7],
    with a symbolic [x]; and the largest supported modulus [2^259 - 1]. *)
Lemma multiply_sound_witness :
  (259 <= @l3 pasta88 /\ 2 ^ (@l2 pasta88) <= @nativeModulus pasta88 /\
   0 < secp256k1 < 2 ^ 259) /\
  (exists r w,
      @multiply pasta88 (variable3 (2 ^ 255 - 1)) (constant3 7) secp256k1
      = (Ok r, w) /\
      @Field3_toBigint pasta88 r = ((2 ^ 255 - 1) * 7) mod secp256k1) /\
  (exists r w,
      @multiply pasta88 (variable3 (2 ^ 259 - 2)) (variable3 (2 ^ 259 - 3))
        (2 ^ 259 - 1)
      = (Ok r, w) /\ @Field3_toBigint pasta88 r = 2).
Proof.
  assert (H1 : 259 <= @l3 pasta88) by zcheck.
  assert (H2 : 2 ^ (@l2 pasta88) <= @nativeModulus pasta88) by zcheck.
  assert (H3 : 0 < secp256k1 < 2 ^ 259) by zcheck.
  split; [exact (conj H1 (conj H2 H3)) |]. split.
  - destruct (@multiply_sound pasta88 (variable3 (2 ^ 255 - 1)) (constant3 7)
                secp256k1 H1 H2 H3 ltac:(zcheck) ltac:(zcheck))
      as [(r & w & E & _ & V) _].
    exists r, w. split; [exact E |]. rewrite V. zcheck.
  - destruct (@multiply_sound pasta88 (variable3 (2 ^ 259 - 2))
                (variable3 (2 ^ 259 - 3)) (2 ^ 259 - 1) H1 H2
                ltac:(zcheck) ltac:(zcheck) ltac:(zcheck))
      as [(r & w & E & _ & V) _].
    exists r, w. split; [exact E |]. rewrite V. zcheck.
Defined.

Lemma finishForMulInput_equiv_finish_witness :
  let x := variable3 5 in
  let ys := [(Plus, variable3 4); (Minus, constant3 6)] in
  let this := mkSum None [x; variable3 4; constant3 6] [Plus; Minus] in
  (0 <= @l pasta88 /\ 0 < @nativeModulus pasta88 /\
   Sum_chained (Sum_new x) ys = ret this) /\
  fst (@Sum_finishForMulInput pasta88 this 7 false)
  = fst (rs <- @Sum_finish pasta88 this 7 false ;;
         @Sum_rangeCheck pasta88 (snd rs) ;;; ret rs) /\
  exists r this',
    fst (@Sum_finishForMulInput pasta88 this 7 false) = Ok (r, this').
Proof.
  intros x ys this.
  assert (H1 : 0 <= @l pasta88) by zcheck.
  assert (H2 : 0 < @nativeModulus pasta88) by zcheck.
  assert (H3 : Sum_chained (Sum_new x) ys = ret this) by reflexivity.
  split; [exact (conj H1 (conj H2 H3)) |].
  destruct (@finishForMulInput_equiv_finish pasta88 x ys 7 false this
              H1 H2 H3) as [E P].
  split; [exact E |]. apply P. left. zcheck.
Defined.

(** Constant mode: [divide 5 0 f] throws although [allowZeroOverZero] is
    set, against the claim that a result is produced in constant mode as
    well. *)
Lemma divide_zero_constant_counterexample :
  ~ (exists z w,
        @divide pasta88 (constant3 5) (constant3 0) secp256k1 true
        = (Ok z, w)).
Proof. intros (z & w & E). vm_compute in E. discriminate E. Qed.

Lemma divide_by_zero_witness :
  (0 < secp256k1 < 2 ^ 259 /\ 0 < 1 < 2 ^ 259 /\
   @toBigint3 (variable3 0) = (0, 0, 0)) /\
  (exists z w,
      @divide pasta88 (variable3 5) (variable3 0) secp256k1 true = (Ok z, w)
      /\ toBigint3 z = (0, 0, 0)) /\
  (forall allowZeroOverZero,
      @divide pasta88 (constant3 5) (constant3 0) secp256k1 allowZeroOverZero
      = throw (AssertionError "inverse exists")) /\
  (exists z w,
      @divide pasta88 (variable3 5) (variable3 0) secp256k1 false = (Ok z, w)
      /\ @proofFails pasta88 w = true) /\
  (exists e w,
      @divide pasta88 (variable3 5) (constant3 0) secp256k1 false
      = (Err e, w)) /\
  (exists z w,
      @divide pasta88 (variable3 5) (variable3 0) 1 true = (Ok z, w)
      /\ toBigint3 z = (0, 0, 0)) /\
  (forall allowZeroOverZero,
      @divide pasta88 (constant3 5) (constant3 0) 1 allowZeroOverZero
      = throw (AssertionError "inverse exists")).
Proof.
  assert (H1 : 0 < secp256k1 < 2 ^ 259) by zcheck.
  assert (H1' : 0 < 1 < 2 ^ 259) by zcheck.
  assert (H2 : @toBigint3 (variable3 0) = (0, 0, 0)) by reflexivity.
  assert (H3 : @toBigint3 (constant3 0) = (0, 0, 0)) by reflexivity.
  split; [exact (conj H1 (conj H1' H2)) |].
  destruct (@divide_by_zero pasta88 (variable3 5) (variable3 0) secp256k1
              H1 H2) as (A & _ & C & _).
  destruct (@divide_by_zero pasta88 (constant3 5) (constant3 0) secp256k1
              H1 H3) as (_ & B & _ & _).
  destruct (@divide_by_zero pasta88 (variable3 5) (constant3 0) secp256k1
              H1 H3) as (_ & _ & _ & D).
  destruct (@divide_by_zero pasta88 (variable3 5) (variable3 0) 1
              H1' H2) as (A' & _ & _ & _).
  destruct (@divide_by_zero pasta88 (constant3 5) (constant3 0) 1
              H1' H3) as (_ & B' & _ & _).
  split; [exact (A eq_refl) |]. split; [exact (B eq_refl) |].
  split; [exact (C eq_refl) |]. split; [exact (D eq_refl eq_refl) |].
  split; [exact (A' eq_refl) | exact (B' eq_refl)].
Defined.



(** Above [2^l3] the returned triple no longer holds [(x + y) mod f]:
    [2^263 + 2^263] modulo [2^264 + 1] is [2^264], whose split is zero. *)
Lemma sum_above_l3_counterexample :
  let f := 2 ^ 264 + 1 in
  let x := constant3 (2 ^ 263) in
  (0 < f /\ 0 <= @Field3_toBigint pasta88 x < f) /\
  ~ (exists r w,
        @sum pasta88 [x; x] [Plus] f = (Ok r, w) /\
        @Field3_toBigint pasta88 r
        = (@Field3_toBigint pasta88 x
           + Sign_toBigint Plus * @Field3_toBigint pasta88 x) mod f).
Proof.
  intros f x. split; [zcheck |].
  intros (r & w & E & V). vm_compute in E.
  inversion E; subst r. vm_compute in V. discriminate V.
Qed.

Lemma sum_sound_witness :
  let f := secp256k1 in
  let x := variable3 5 in
  let y := constant3 (secp256k1 - 1) in
  (0 <= @l pasta88 /\ 2 ^ (@l pasta88) <= @nativeModulus pasta88 /\
   0 < f < 2 ^ (@l3 pasta88) /\
   0 <= @Field3_toBigint pasta88 x < f /\
   0 <= @Field3_toBigint pasta88 y < f) /\
  (exists r w,
      @sum pasta88 [x; y] [Plus] f = (Ok r, w) /\
      @Field3_toBigint pasta88 r = 4) /\
  @sum pasta88 [constant3 5; constant3 6; constant3 2] [Minus; Plus] 7
  = (Ok (constant3 1), []).
Proof.
  intros f x y.
  assert (H1 : 0 <= @l pasta88) by zcheck.
  assert (H2 : 2 ^ (@l pasta88) <= @nativeModulus pasta88) by zcheck.
  assert (H3 : 0 < f < 2 ^ (@l3 pasta88)) by zcheck.
  assert (H4 : 0 <= @Field3_toBigint pasta88 x < f) by zcheck.
  assert (H5 : 0 <= @Field3_toBigint pasta88 y < f) by zcheck.
  split; [exact (conj H1 (conj H2 (conj H3 (conj H4 H5)))) |].
  destruct (@sum_sound pasta88 x y Plus f H1 H2 H3 H4 H5)
    as [(r & w & E & V) K].
  split.
  - exists r, w. split; [exact E |]. rewrite V. zcheck.
  - rewrite (K (constant3 5) [constant3 6; constant3 2] [Minus; Plus] 7
               ltac:(zcheck) eq_refl eq_refl).
    reflexivity.
Defined.

Lemma assertLessThan_spec_witness :
  (0 <= @l pasta88 /\ 2 ^ (@l pasta88) < @nativeModulus pasta88) /\
  @ForeignField_assertLessThan pasta88 (constant3 (secp256k1 - 1)) secp256k1
  = (Ok tt, []) /\
  (exists msg,
      @ForeignField_assertLessThan pasta88 (constant3 secp256k1) secp256k1
      = throw (AssertionError msg)) /\
  (exists w,
      @ForeignField_assertLessThan pasta88 (variable3 secp256k1) secp256k1
      = (Ok tt, w) /\ @proofFails pasta88 w = true).
Proof.
  assert (H1 : 0 <= @l pasta88) by zcheck.
  assert (H2 : 2 ^ (@l pasta88) < @nativeModulus pasta88) by zcheck.
  split; [exact (conj H1 H2) |].
  destruct (@assertLessThan_spec pasta88 (constant3 (secp256k1 - 1))
              secp256k1 H1 H2) as [[A _] _]; [reflexivity |].
  destruct (@assertLessThan_spec pasta88 (constant3 secp256k1)
              secp256k1 H1 H2) as [[_ B] _]; [reflexivity |].
  destruct (@assertLessThan_spec pasta88 (variable3 secp256k1)
              secp256k1 H1 H2) as [_ C].
  destruct (C eq_refl ltac:(zcheck)) as [_ D].
  split; [apply A; zcheck |]. split; [apply B; zcheck |].
  apply D; [reflexivity | zcheck].
Defined.

Lemma Sum_state_machine_witness :
  let this := mkSum None [variable3 5; variable3 4] [Plus] in
  exists r this',
    fst (@Sum_finish pasta88 this 7 false) = Ok (r, this') /\
    Sum_state this = Building /\ Sum_state this' = Finalized /\
    Sum_result this' = ret r /\
    fst (@Sum_finish pasta88 this' 7 false)
    = Err (AssertionError "sum already finished") /\
    fst (Sum_add this' (variable3 1))
    = Err (AssertionError "sum already finished").
Proof.
  intros this.
  destruct (@Sum_finish pasta88 this 7 false) as [[[r this'] | e] w] eqn:E;
    [| vm_compute in E; discriminate E].
  destruct (@Sum_state_machine pasta88 this) as (_ & _ & _ & F & _).
  destruct (F 7 false r this' w (or_introl E))
    as (B & Fi & R & _ & _ & A & _ & Ff & _).
  exists r, this'. split; [reflexivity |].
  split; [exact B |]. split; [exact Fi |]. split; [exact R |].
  split; [apply Ff | apply A].
Defined.

(** * Further properties of the gadget *)

Section CodecEdges.
Context {cfg : Params}.

(** X1: [split] accepts any integer, also a negative one or one of more
    than [l3] bits: its three limbs are always [l]-bit, and recombining them
    gives the input reduced modulo [2^l3]. *)
Theorem split_wraps (x : Z) :
  0 <= l ->
  (let '(x0, x1, x2) := split x in
   0 <= x0 < 2 ^ l /\ 0 <= x1 < 2 ^ l /\ 0 <= x2 < 2 ^ l) /\
  combine (split x) = x mod 2 ^ l3.
Proof.
  intros Hl. split.
  - apply split_limbs_range; assumption.
  - apply combine_split_mod; assumption.
Qed.

(** X2: on a triple of [l]-bit limbs, [split] undoes [combine]: the
    limb-triple of a value is unique. *)
Theorem split_combine_limbs (x0 x1 x2 : Z) :
  0 <= l ->
  0 <= x0 < 2 ^ l -> 0 <= x1 < 2 ^ l -> 0 <= x2 < 2 ^ l ->
  split (combine (x0, x1, x2)) = (x0, x1, x2) /\
  0 <= combine (x0, x1, x2) < 2 ^ l3.
Proof.
  intros Hl H0 H1 H2. split.
  - apply split_combine; assumption.
  - pose proof (pow2_l_pos Hl). rewrite combine_spec, pow2_l3 by assumption.
    nia.
Qed.

Lemma digits2 (b x : Z) :
  0 < b -> x mod b + (x / b) mod b * b = x mod (b * b).
Proof.
  intros Hb. assert (Hbb : 0 < b * b) by nia.
  pose proof (Z.div_mod x b ltac:(lia)) as E0.
  pose proof (Z.div_mod (x / b) b ltac:(lia)) as E1.
  pose proof (Z.mod_pos_bound x b Hb).
  pose proof (Z.mod_pos_bound (x / b) b Hb).
  apply (Z.mod_unique_pos _ _ (x / b / b)); nia.
Qed.

(** X3: the two-limb codec: [combine2 (split2 x)] is [x] modulo [2^l2] for
    any integer [x], and [split2] undoes [combine2] on [l]-bit limbs. *)
Theorem split2_combine2 (x x0 x1 : Z) :
  0 <= l ->
  combine2 (split2 x) = x mod 2 ^ l2 /\
  (0 <= x0 < 2 ^ l -> 0 <= x1 < 2 ^ l ->
   split2 (combine2 (x0, x1)) = (x0, x1)).
Proof.
  intros Hl. pose proof (pow2_l_pos Hl) as Hb. split.
  - rewrite split2_spec, combine2_spec, pow2_l2 by assumption.
    now apply digits2.
  - intros H0 H1. rewrite split2_spec, combine2_spec by assumption.
    set (b := 2 ^ l) in *.
    assert (E0 : (x0 + x1 * b) mod b = x0).
    { symmetry. apply (Z.mod_unique_pos _ _ x1); nia. }
    assert (D0 : (x0 + x1 * b) / b = x1).
    { symmetry. apply (Z.div_unique_pos _ _ _ x0); nia. }
    rewrite E0, D0. now rewrite Z.mod_small.
Qed.

(** X4: a limb-triple built from a literal below [2^l3] is constant, has
    [l]-bit limbs, and reads back as that literal. *)
Theorem Field3_from_readback (x : Z) :
  0 <= l -> 2 ^ l <= nativeModulus -> 0 <= x < 2 ^ l3 ->
  Field3_isConstant (Field3_from x) = true /\
  Field3_inRange (Field3_from x) = true /\
  Field3_toBigint (Field3_from x) = x.
Proof.
  intros Hl Hp Hx. split; [| split].
  - unfold Field3_from. now destruct (split x) as [[x0 x1] x2].
  - pose proof (toBigint3_Field3_from x Hl Hp) as E.
    pose proof (split_limbs_range x Hl) as R. rewrite <- E in R.
    destruct (Field3_from x) as [[y0 y1] y2]. cbn [toBigint3] in R.
    destruct R as (R0 & R1 & R2). unfold Field3_inRange, inRange.
    repeat (apply andb_true_intro; split);
      first [apply Z.leb_le; lia | apply Z.ltb_lt; lia].
  - now apply Field3_toBigint_from.
Qed.

End CodecEdges.

Lemma split_wraps_witness :
  0 <= @l pasta88 /\
  @combine pasta88 (@split pasta88 (-1)) = 2 ^ 264 - 1 /\
  @combine pasta88 (@split pasta88 (2 ^ 264 + 5)) = 5.
Proof.
  assert (H : 0 <= @l pasta88) by zcheck.
  split; [exact H |]. split.
  - destruct (@split_wraps pasta88 (-1) H) as [_ E]. rewrite E. zcheck.
  - destruct (@split_wraps pasta88 (2 ^ 264 + 5) H) as [_ E]. rewrite E.
    zcheck.
Defined.

Lemma split_combine_limbs_witness :
  (0 <= @l pasta88 /\ 0 <= 7 < 2 ^ @l pasta88 /\
   0 <= 2 ^ 88 - 1 < 2 ^ @l pasta88 /\ 0 <= 0 < 2 ^ @l pasta88) /\
  @split pasta88 (@combine pasta88 (7, 2 ^ 88 - 1, 0)) = (7, 2 ^ 88 - 1, 0).
Proof.
  assert (H : 0 <= @l pasta88) by zcheck.
  assert (H0 : 0 <= 7 < 2 ^ @l pasta88) by zcheck.
  assert (H1 : 0 <= 2 ^ 88 - 1 < 2 ^ @l pasta88) by zcheck.
  assert (H2 : 0 <= 0 < 2 ^ @l pasta88) by zcheck.
  split; [exact (conj H (conj H0 (conj H1 H2))) |].
  exact (proj1 (@split_combine_limbs pasta88 7 (2 ^ 88 - 1) 0 H H0 H1 H2)).
Defined.

Lemma split2_combine2_witness :
  0 <= @l pasta88 /\
  @combine2 pasta88 (@split2 pasta88 (2 ^ 176 + 3)) = 3 /\
  @split2 pasta88 (@combine2 pasta88 (4, 5)) = (4, 5).
Proof.
  assert (H : 0 <= @l pasta88) by zcheck.
  split; [exact H |].
  destruct (@split2_combine2 pasta88 (2 ^ 176 + 3) 4 5 H) as [E K].
  split; [rewrite E; zcheck | apply K; zcheck].
Defined.

Lemma Field3_from_readback_witness :
  (0 <= @l pasta88 /\ 2 ^ @l pasta88 <= @nativeModulus pasta88 /\
   0 <= secp256k1 < 2 ^ @l3 pasta88) /\
  @Field3_toBigint pasta88 (constant3 secp256k1) = secp256k1.
Proof.
  assert (H1 : 0 <= @l pasta88) by zcheck.
  assert (H2 : 2 ^ @l pasta88 <= @nativeModulus pasta88) by zcheck.
  assert (H3 : 0 <= secp256k1 < 2 ^ @l3 pasta88) by zcheck.
  split; [exact (conj H1 (conj H2 H3)) |].
  exact (proj2 (proj2 (@Field3_from_readback pasta88 secp256k1 H1 H2 H3))).
Defined.

Section AdditionChains.
Context {cfg : Params}.

(** What [singleAdd] witnesses, for arbitrary operands: the overflow flag,
    two [l]-bit low limbs, and a triple that recombines to
    [x + sign*y - overflow*f] (with [f] as its split holds it). *)
Lemma singleAdd_witnesses_arith (x y : Field3) (sign : Sign) (f : Z)
  (r0 r1 r2 overflow carry : Z) :
  0 <= l ->
  singleAdd_witnesses x y sign f = ret [r0; r1; r2; overflow; carry] ->
  let s := Sign_toBigint sign in
  let X := Field3_toBigint x in
  let Y := Field3_toBigint y in
  let b := 2 ^ l in
  overflow
  = (if f =? 0 then 0
     else if (s =? -1) && (X + s * Y <? 0) then -1
          else if (s =? 1) && (X + s * Y >=? f) then 1 else 0) /\
  0 <= r0 < b /\ 0 <= r1 < b /\
  r0 + r1 * b + r2 * (b * b) = X + s * Y - overflow * combine (split f) /\
  carry
  = (combine2 (low2 (toBigint3 x)) + s * combine2 (low2 (toBigint3 y))
     - overflow * combine2 (low2 (split f))) / (b * b) /\
  r0
  = (fst (fst (toBigint3 x)) + s * fst (fst (toBigint3 y))
     - overflow * fst (fst (split f))) mod b.
Proof.
  intros Hl E s X Y b. pose proof (pow2_l_pos Hl) as Hb. fold b in Hb.
  unfold singleAdd_witnesses in E. subst X Y. unfold Field3_toBigint.
  destruct (toBigint3 x) as [[x0 x1] x2].
  destruct (toBigint3 y) as [[y0 y1] y2].
  destruct (split f) as [[f0 f1] f2].
  cbn [low2 snd fst] in *. fold s in E.
  set (X := combine (x0, x1, x2)) in *.
  set (Y := combine (y0, y1, y2)) in *.
  set (o := if f =? 0 then 0
            else if (s =? -1) && (X + s * Y <? 0) then -1
                 else if (s =? 1) && (X + s * Y >=? f) then 1 else 0) in *.
  match type of E with
  | context [Z.land ?v l2Mask] => set (r01full := v) in *
  end.
  rewrite split2_spec in E by assumption.
  unfold l2Mask in E. rewrite land_mask, shr_pow2 in E by (unfold l2; lia).
  rewrite pow2_l2 in E by assumption. fold b in E.
  unfold ret in E. injection E as E0 E1 E2 Eo Ec.
  assert (Hbb : 0 < b * b) by nia.
  set (r01 := r01full mod (b * b)) in *.
  pose proof (Z.mod_pos_bound r01full (b * b) Hbb) as R01. fold r01 in R01.
  pose proof (Z.div_mod r01full (b * b) ltac:(lia)) as D01. fold r01 in D01.
  assert (L1 : r01 / b < b) by (apply Z.div_lt_upper_bound; lia).
  assert (L0 : 0 <= r01 / b) by (apply Z.div_pos; lia).
  rewrite (Z.mod_small (r01 / b) b) in E1 by lia.
  pose proof (Z.div_mod r01 b ltac:(lia)) as Dr.
  pose proof (Z.mod_pos_bound r01 b Hb) as R0.
  assert (M0 : r01 mod b = r01full mod b).
  { replace (r01full mod b)
      with ((r01 + b * (r01full / (b * b)) * b) mod b)
      by (f_equal; nia).
    symmetry. apply Z_mod_plus_full. }
  split; [now rewrite <- Eo |]. split; [lia |]. split; [lia |].
  rewrite !combine_spec by assumption. fold b.
  unfold r01full in D01, M0, Ec.
  rewrite !combine2_spec in * by assumption. fold b in D01, M0, Ec.
  subst X Y. rewrite !combine_spec in * by assumption. fold b in o |- *.
  split; [| split].
  - rewrite <- E2, <- Eo, <- E0, <- E1. unfold r01full.
    rewrite !combine2_spec by assumption. fold b.
    set (q := (x0 + x1 * b + s * (y0 + y1 * b) - o * (f0 + f1 * b))
              / (b * b)) in *.
    nia.
  - rewrite <- Ec, <- Eo. reflexivity.
  - rewrite <- E0, <- Eo, M0.
    replace (x0 + x1 * b + s * (y0 + y1 * b) - o * (f0 + f1 * b))
      with (x0 + s * y0 - o * f0 + (x1 + s * y1 - o * f1) * b) by ring.
    apply Z_mod_plus_full.
Qed.

Lemma inRange_intro (k v : Z) (c : bool) :
  0 <= v < 2 ^ k -> inRange k (mkField c v) = true.
Proof.
  intros H. unfold inRange. cbn [Field_toBigInt].
  apply andb_true_intro; split; [apply Z.leb_le | apply Z.ltb_lt]; lia.
Qed.

Lemma inRange_elim (k : Z) (x : Field) :
  inRange k x = true -> 0 <= Field_toBigInt x < 2 ^ k.
Proof.
  unfold inRange. intros H. apply andb_prop in H. destruct H as [H1 H2].
  apply Z.leb_le in H1. apply Z.ltb_lt in H2. lia.
Qed.

Lemma Field3_inRange_elim (x : Field3) :
  Field3_inRange x = true ->
  let '(x0, x1, x2) := toBigint3 x in
  0 <= x0 < 2 ^ l /\ 0 <= x1 < 2 ^ l /\ 0 <= x2 < 2 ^ l.
Proof.
  destruct x as [[x0 x1] x2]. unfold Field3_inRange. intros H.
  apply andb_prop in H. destruct H as [H H2].
  apply andb_prop in H. destruct H as [H0 H1].
  cbn [toBigint3]. split; [| split]; now apply inRange_elim.
Qed.

Lemma witness3_inRange (r0 r1 r2 : Z) :
  2 ^ l <= nativeModulus ->
  0 <= r0 < 2 ^ l -> 0 <= r1 < 2 ^ l -> 0 <= r2 < 2 ^ l ->
  Field3_inRange (Field_witness r0, Field_witness r1, Field_witness r2) = true
  /\ toBigint3 (Field_witness r0, Field_witness r1, Field_witness r2)
     = (r0, r1, r2).
Proof.
  intros Hp H0 H1 H2. unfold Field3_inRange, Field_witness.
  cbn [toBigint3 Field_toBigInt]. rewrite !Z.mod_small by lia.
  rewrite !inRange_intro by assumption. split; reflexivity.
Qed.

Lemma Field3_from_inRange (x : Z) :
  0 <= l -> 2 ^ l <= nativeModulus -> Field3_inRange (Field3_from x) = true.
Proof.
  intros Hl Hp. pose proof (toBigint3_Field3_from x Hl Hp) as E.
  pose proof (split_limbs_range x Hl) as R. rewrite <- E in R.
  destruct (Field3_from x) as [[y0 y1] y2]. cbn [toBigint3] in R.
  destruct R as (R0 & R1 & R2). unfold Field3_inRange.
  destruct y0, y1, y2. cbn [Field_toBigInt] in *.
  now rewrite !inRange_intro by assumption.
Qed.

(** The limbs and flags [singleAdd] witnesses for operands below [f]. *)
Lemma singleAdd_witnesses_honest (x y : Field3) (sign : Sign) (f : Z)
  (r0 r1 r2 overflow carry : Z) :
  0 <= l -> 0 < f < 2 ^ l3 ->
  0 <= Field3_toBigint x < f -> 0 <= Field3_toBigint y < f ->
  singleAdd_witnesses x y sign f = ret [r0; r1; r2; overflow; carry] ->
  let s := Sign_toBigint sign in
  (-1 <= overflow <= 1 /\ 0 <= s * overflow) /\
  (0 <= r0 < 2 ^ l /\ 0 <= r1 < 2 ^ l /\ 0 <= r2 < 2 ^ l) /\
  combine (r0, r1, r2)
  = Field3_toBigint x + s * Field3_toBigint y - overflow * f /\
  0 <= combine (r0, r1, r2) < f.
Proof.
  intros Hl Hf HX HY E s. pose proof (pow2_l_pos Hl) as Hb.
  destruct (singleAdd_witnesses_arith Hl E)
    as (Eo & R0 & R1 & ET & _ & _).
  fold s in Eo, ET.
  rewrite combine_split in ET by lia.
  pose proof (@overflow_reduces _ _ f sign ltac:(lia) HX HY) as Ho.
  cbv zeta in Ho. fold s in Ho. rewrite <- Eo in Ho. destruct Ho as [HT Hor].
  rewrite combine_spec by assumption.
  assert (Hs : 0 <= s * overflow).
  { rewrite Eo. subst s. destruct (Z.eqb_spec f 0); [lia |].
    destruct sign; cbn [Sign_toBigint Z.eqb Pos.eqb andb].
    - destruct (_ >=? _); lia.
    - destruct (_ <? _); lia. }
  assert (R2 : 0 <= r2 < 2 ^ l).
  { rewrite pow2_l3 in Hf by assumption. nia. }
  split; [split; assumption |]. split; [repeat split; lia |].
  split; lia.
Qed.

(** The value of a two-term chain, with an in-range result (both modes). *)
Lemma sum_two_value (x y : Field3) (sign : Sign) (f : Z) :
  0 <= l -> 2 ^ l <= nativeModulus -> 0 < f < 2 ^ l3 ->
  0 <= Field3_toBigint x < f -> 0 <= Field3_toBigint y < f ->
  exists r w,
    sum [x; y] [sign] f = (Ok r, w) /\
    Field3_toBigint r
    = (Field3_toBigint x + Sign_toBigint sign * Field3_toBigint y) mod f /\
    Field3_inRange r = true /\ proofFails w = false.
Proof.
  intros Hl Hp Hf HX HY.
  pose proof (Z.mod_pos_bound
    (Field3_toBigint x + Sign_toBigint sign * Field3_toBigint y) f
    ltac:(lia)) as Hm.
  destruct (Field3_isConstant x && Field3_isConstant y) eqn:C.
  - rewrite (@sum_constant_folding _ x [y] [sign] f) by
      (try lia; try reflexivity; simpl; now rewrite andb_true_r).
    eexists. eexists. split; [reflexivity |].
    cbn [map signedTerms_spec]. rewrite Z.add_0_r.
    split; [apply Field3_toBigint_from; try assumption; lia |].
    split; [now apply Field3_from_inRange | reflexivity].
  - destruct (sum_two_provable x y sign f C)
      as (r0 & r1 & r2 & o & c & g & Ew & Es).
    cbv zeta in Es. rewrite Es. eexists. eexists. split; [reflexivity |].
    apply singleAdd_witnesses_honest in Ew;
      rewrite ?Field3_toBigint_toVars; try assumption.
    rewrite !Field3_toBigint_toVars in Ew.
    destruct Ew as (Ho & (R0 & R1 & R2) & Ec & Hc).
    destruct (witness3_inRange Hp R0 R1 R2) as [IR TB].
    split; [| split; [exact IR |]].
    + unfold Field3_toBigint at 1. rewrite TB, Ec.
      apply (Z.mod_unique_pos _ _ o); lia.
    + unfold proofFails. cbn [existsb Row_violated orb].
      change (inRange l (Field_witness r0) && inRange l (Field_witness r1)
              && inRange l (Field_witness r2))
        with (Field3_inRange
                (Field_witness r0, Field_witness r1, Field_witness r2)).
      now rewrite IR.
Qed.

(** X5: one step of the addition chain on range-checked operands below
    [f]: [singleAdd] emits exactly one addition row and throws nothing; the
    overflow it witnesses is [-1], [0] or [1] and never of the sign opposite
    to the operation, the carry is [-1], [0] or [1], and the result is a
    triple of [l]-bit limbs holding [x + sign*y - overflow*f], a value
    in [[0, f)]. *)
Theorem singleAdd_honest (x y : Field3) (sign : Sign) (f : Z) :
  0 <= l -> 2 ^ l <= nativeModulus -> 0 < f < 2 ^ l3 ->
  Field3_inRange x = true -> Field3_inRange y = true ->
  Field3_toBigint x < f -> Field3_toBigint y < f ->
  exists r o c,
    singleAdd x y sign f
    = (Ok (r, Field_witness o),
       [Row_foreignFieldAdd
          {| ffadd_left := x; ffadd_right := y;
             ffadd_overflow := Field_witness o;
             ffadd_carry := Field_witness c;
             ffadd_modulus := split f; ffadd_sign := sign |}]) /\
    -1 <= o <= 1 /\ 0 <= Sign_toBigint sign * o /\ -1 <= c <= 1 /\
    Field3_inRange r = true /\
    Field3_toBigint r
    = Field3_toBigint x + Sign_toBigint sign * Field3_toBigint y - o * f /\
    0 <= Field3_toBigint r < f.
Proof.
  intros Hl Hp Hf Rx Ry HX HY. pose proof (pow2_l_pos Hl) as Hb.
  pose proof (Field3_inRange_bound x Hl Rx) as Bx.
  pose proof (Field3_inRange_bound y Hl Ry) as By.
  destruct (singleAdd_run x y sign f) as (r0 & r1 & r2 & o & c & Ew & Es).
  destruct (singleAdd_witnesses_honest Hl Hf
              (conj (proj1 Bx) HX) (conj (proj1 By) HY) Ew)
    as ((Ho & Hs) & (R0 & R1 & R2) & Ec & Hc).
  destruct (singleAdd_witnesses_arith Hl Ew) as (Eo & _ & _ & _ & Ecar & _).
  destruct (witness3_inRange Hp R0 R1 R2) as [IR TB].
  exists (Field_witness r0, Field_witness r1, Field_witness r2), o, c.
  split; [exact Es |]. split; [exact Ho |]. split; [exact Hs |].
  split.
  - (* the carry *)
    pose proof (Field3_inRange_elim x Rx) as Lx.
    pose proof (Field3_inRange_elim y Ry) as Ly.
    pose proof (split_limbs_range f Hl) as Lf.
    destruct (toBigint3 x) as [[x0 x1] x2].
    destruct (toBigint3 y) as [[y0 y1] y2].
    destruct (split f) as [[f0 f1] f2].
    cbn [low2] in Ecar. rewrite !combine2_spec in Ecar by assumption.
    destruct Lx as (Lx0 & Lx1 & _). destruct Ly as (Ly0 & Ly1 & _).
    destruct Lf as (Lf0 & Lf1 & _).
    set (b := 2 ^ l) in *. assert (Hbb : 0 < b * b) by nia.
    set (s := Sign_toBigint sign) in *.
    assert (Hs' : s = 1 \/ s = -1) by (subst s; destruct sign; auto).
    rewrite Ecar. clear Ecar Eo Ew Es Ec.
    assert (Ho' : o = -1 \/ o = 0 \/ o = 1) by lia.
    assert (N : - (b * b) <= x0 + x1 * b + s * (y0 + y1 * b)
                             - o * (f0 + f1 * b) < 2 * (b * b)).
    { clearbody s.
      destruct Hs' as [-> | ->]; destruct Ho' as [-> | [-> | ->]];
        try lia; nia. }
    split.
    + apply Z.div_le_lower_bound; lia.
    + enough (H : (x0 + x1 * b + s * (y0 + y1 * b) - o * (f0 + f1 * b))
                  / (b * b) < 2) by lia.
      apply Z.div_lt_upper_bound; lia.
  - split; [exact IR |].
    assert (V : Field3_toBigint
                  (Field_witness r0, Field_witness r1, Field_witness r2)
                = combine (r0, r1, r2))
      by (unfold Field3_toBigint; now rewrite TB).
    rewrite V. split; assumption.
Qed.

(** The chain loop of [sum] on terms below [f]: it never throws, its rows
    are addition rows, and the triple it returns holds the running value
    plus the signed terms, reduced modulo [f]. *)
Lemma sum_chain_honest (f : Z) (signs : list Sign) :
  0 <= l -> 2 ^ l <= nativeModulus -> 0 < f < 2 ^ l3 ->
  forall (pre ts : list Field3) (i : nat) (result : Field3),
    length pre = (i + 1)%nat -> length ts = length signs ->
    Forall (fun t => 0 <= Field3_toBigint t < f) ts ->
    0 <= Field3_toBigint result < f ->
    exists r w,
      sum_chain signs i (pre ++ ts) result f = (Ok r, w) /\
      Field3_toBigint r
      = (Field3_toBigint result
         + signedTerms_spec signs (map Field3_toBigint ts)) mod f /\
      (signs <> [] \/
       (Field3_inRange result = true /\ Field3_isConstant result = false) ->
       Field3_inRange r = true /\ Field3_isConstant r = false) /\
      proofFails w = false.
Proof.
  intros Hl Hp Hf.
  induction signs as [| s signs' IH]; intros pre ts i result Hpre Hts Fts Hr.
  - destruct ts; [| discriminate]. exists result, []. cbn.
    split; [reflexivity |]. rewrite Z.add_0_r, Z.mod_small by lia.
    split; [reflexivity |]. split; [| reflexivity].
    intros [H | H]; [contradiction | exact H].
  - destruct ts as [| t ts']; [discriminate |]. cbn [length] in Hts.
    inversion Fts as [| ? ? Ht Fts']; subst.
    cbn [sum_chain]. unfold at_ at 1.
    rewrite nth_error_app2 by lia. rewrite Hpre, Nat.sub_diag.
    cbn [nth_error]. rewrite bind_ret.
    destruct (singleAdd_run result t s f)
      as (r0 & r1 & r2 & o & c & Ew & Es).
    destruct (singleAdd_witnesses_honest Hl Hf Hr Ht Ew)
      as (_ & (R0 & R1 & R2) & Ec & Hc).
    destruct (witness3_inRange Hp R0 R1 R2) as [IR TB].
    rewrite Es, bind_Ok. cbn [fst snd].
    set (r' := (Field_witness r0, Field_witness r1, Field_witness r2)) in *.
    assert (Vr : Field3_toBigint r' = combine (r0, r1, r2))
      by (unfold Field3_toBigint; now rewrite TB).
    replace (pre ++ t :: ts') with ((pre ++ [t]) ++ ts')
      by (now rewrite <- app_assoc).
    destruct (IH (pre ++ [t]) ts' (S i) r') as (r & w & E & V & K & PF);
      [rewrite length_app; simpl; lia | lia | assumption
      | rewrite Vr; assumption |].
    rewrite E. eexists. eexists. split; [reflexivity |]. cbn [fst snd].
    split; [| split].
    + rewrite V, Vr, Ec. cbn [map signedTerms_spec].
      replace (Field3_toBigint result + Sign_toBigint s * Field3_toBigint t
               - o * f
               + signedTerms_spec signs' (map Field3_toBigint ts'))
        with (Field3_toBigint result
              + (Sign_toBigint s * Field3_toBigint t
                 + signedTerms_spec signs' (map Field3_toBigint ts'))
              + (- o) * f) by ring.
      apply Z_mod_plus_full.
    + intros _. apply K. right. split; [exact IR | reflexivity].
    + cbn [app]. unfold proofFails in *. cbn [existsb Row_violated orb].
      exact PF.
Qed.

Lemma Forall_toVars_values (f : Z) (ts : list Field3) :
  Forall (fun t => 0 <= Field3_toBigint t < f) ts ->
  Forall (fun t => 0 <= Field3_toBigint t < f) (map toVars ts).
Proof.
  induction 1; cbn; constructor;
    [now rewrite Field3_toBigint_toVars | assumption].
Qed.

Lemma map_toBigint_toVars (ts : list Field3) :
  map Field3_toBigint (map toVars ts) = map Field3_toBigint ts.
Proof.
  induction ts as [| t ts' IH]; cbn; [reflexivity |].
  now rewrite Field3_toBigint_toVars, IH.
Qed.

Lemma Field3_inRange_toVars (x : Field3) :
  Field3_inRange (toVars x) = Field3_inRange x.
Proof. now destruct x as [[x0 x1] x2]. Qed.

(** X6: a chain of any length: for range-checked terms below [f], with as
    many signs as terms after the first, [sum] returns without throwing a
    triple of [l]-bit limbs that holds [(t0 + sum_i sign_i*t_i) mod f], and
    no row it emits is violated (constant folding emits none). *)
Theorem sum_chain_sound (t0 : Field3) (ts : list Field3) (signs : list Sign)
  (f : Z) :
  0 <= l -> 2 ^ l <= nativeModulus -> 0 < f < 2 ^ l3 ->
  length ts = length signs ->
  Forall (fun t => Field3_inRange t = true /\ Field3_toBigint t < f)
         (t0 :: ts) ->
  exists r w,
    sum (t0 :: ts) signs f = (Ok r, w) /\
    Field3_toBigint r
    = (Field3_toBigint t0 + signedTerms_spec signs (map Field3_toBigint ts))
      mod f /\
    Field3_inRange r = true /\
    proofFails w = false.
Proof.
  intros Hl Hp Hf Hlen Hon.
  assert (Hv : Forall (fun t => 0 <= Field3_toBigint t < f) (t0 :: ts)).
  { eapply Forall_impl; [| exact Hon]. cbn. intros t [R B].
    pose proof (Field3_inRange_bound t Hl R). lia. }
  inversion Hv as [| ? ? Hv0 Hvs]; subst.
  inversion Hon as [| ? ? [R0 _] _]; subst.
  set (m := (Field3_toBigint t0
             + signedTerms_spec signs (map Field3_toBigint ts)) mod f).
  assert (Hm : 0 <= m < f) by (subst m; apply Z.mod_pos_bound; lia).
  destruct (forallb Field3_isConstant (t0 :: ts)) eqn:C.
  - rewrite sum_constant_folding by (try assumption; lia). fold m.
    eexists. eexists. split; [reflexivity |].
    split; [apply Field3_toBigint_from; try assumption; lia |].
    split; [now apply Field3_from_inRange | reflexivity].
  - unfold sum. rewrite C.
    replace (Nat.eqb (length (t0 :: ts)) (length signs + 1)) with true
      by (symmetry; apply Nat.eqb_eq; simpl; lia).
    rewrite assert_true, bind_ret. cbn [map]. unfold at_ at 1.
    cbn [nth_error]. rewrite bind_ret.
    change (toVars t0 :: map toVars ts) with ([toVars t0] ++ map toVars ts).
    destruct (@sum_chain_honest f signs Hl Hp Hf [toVars t0] (map toVars ts)
                0%nat (toVars t0)) as (r & w & E & V & K & PF);
      [reflexivity | now rewrite length_map | now apply Forall_toVars_values
      | now rewrite Field3_toBigint_toVars |].
    rewrite Field3_toBigint_toVars, map_toBigint_toVars in V. fold m in V.
    destruct K as [IR NC].
    { right. rewrite Field3_inRange_toVars, toVars_not_constant. auto. }
    rewrite E, bind_Ok. cbn [fst snd].
    unfold Gates_zero, emit. rewrite bind_Ok. cbn [fst snd].
    rewrite (multiRangeCheck_provable _ NC), bind_Ok. cbn [fst snd ret].
    eexists. eexists. split; [reflexivity |].
    split; [exact V |]. split; [exact IR |].
    rewrite !proofFails_app, PF. unfold proofFails.
    cbn [existsb Row_violated orb app].
    destruct r as [[r0 r1] r2]. unfold Field3_inRange in IR.
    now rewrite IR.
Qed.

(** X7: with a positive modulus or a symbolic term, [sum] throws exactly
    when the number of terms is not the number of signs plus one (and then
    at once, with "inputs and operators match" and no row); otherwise it
    returns a result. *)
Theorem sum_throws_iff_mismatch (x : list Field3) (sign : list Sign)
  (f : Z) :
  0 < f \/ forallb Field3_isConstant x = false ->
  (length x <> (length sign + 1)%nat ->
   sum x sign f = throw (AssertionError "inputs and operators match")) /\
  (length x = (length sign + 1)%nat ->
   exists r w, sum x sign f = (Ok r, w)).
Proof.
  intros Hf. split; intros Hlen; unfold sum.
  - replace (Nat.eqb (length x) (length sign + 1)) with false
      by (symmetry; now apply Nat.eqb_neq).
    reflexivity.
  - destruct x as [| t0 ts]; [simpl in Hlen; lia |].
    destruct (forallb Field3_isConstant (t0 :: ts)) eqn:C.
    + destruct Hf as [Hf | Hf]; [| discriminate].
      pose proof (@sum_constant_folding _ t0 ts sign f Hf
                    ltac:(simpl in Hlen; lia) C) as E.
      unfold sum in E. rewrite C in E. rewrite E. eexists; eexists; reflexivity.
    + replace (Nat.eqb (length (t0 :: ts)) (length sign + 1)) with true
        by (symmetry; now apply Nat.eqb_eq).
      rewrite assert_true, bind_ret. cbn [map]. unfold at_ at 1.
      cbn [nth_error]. rewrite bind_ret.
      destruct (@sum_chain_total _ sign 0%nat
                  (toVars t0 :: map toVars ts) (toVars t0) f)
        as (r & w & E & NC);
        [simpl in *; rewrite length_map; lia | apply toVars_not_constant |].
      rewrite E, bind_Ok. cbn [fst snd].
      unfold Gates_zero, emit. rewrite bind_Ok. cbn [fst snd].
      rewrite (multiRangeCheck_provable _ NC), bind_Ok.
      eexists; eexists; reflexivity.
Qed.

Lemma Field3_toBigint_from_0 : Field3_toBigint (Field3_from 0) = 0.
Proof.
  unfold Field3_toBigint. rewrite toBigint3_Field3_from_0. apply combine_zero.
Qed.

(** X8: addition and subtraction undo each other: for [x], [y] in
    [[0, f)], [sub (add x y) y] and [add (sub x y) y] both return a triple
    holding [x]. *)
Theorem add_sub_roundtrip (x y : Field3) (f : Z) :
  0 <= l -> 2 ^ l <= nativeModulus -> 0 < f < 2 ^ l3 ->
  0 <= Field3_toBigint x < f -> 0 <= Field3_toBigint y < f ->
  (exists r1 w1 r2 w2,
      ForeignField_add x y f = (Ok r1, w1) /\
      ForeignField_sub r1 y f = (Ok r2, w2) /\
      Field3_toBigint r2 = Field3_toBigint x) /\
  (exists r1 w1 r2 w2,
      ForeignField_sub x y f = (Ok r1, w1) /\
      ForeignField_add r1 y f = (Ok r2, w2) /\
      Field3_toBigint r2 = Field3_toBigint x).
Proof.
  intros Hl Hp Hf HX HY. unfold ForeignField_add, ForeignField_sub. split.
  - destruct (@sum_two_value x y Plus f Hl Hp Hf HX HY)
      as (r1 & w1 & E1 & V1 & _ & _).
    assert (H1 : 0 <= Field3_toBigint r1 < f)
      by (rewrite V1; apply Z.mod_pos_bound; lia).
    destruct (@sum_two_value r1 y Minus f Hl Hp Hf H1 HY)
      as (r2 & w2 & E2 & V2 & _ & _).
    exists r1, w1, r2, w2. split; [exact E1 |]. split; [exact E2 |].
    rewrite V2, V1. cbn [Sign_toBigint].
    replace (-1 * Field3_toBigint y) with (- Field3_toBigint y) by ring.
    rewrite Z.add_opp_r, Zminus_mod_idemp_l.
    replace (Field3_toBigint x + 1 * Field3_toBigint y - Field3_toBigint y)
      with (Field3_toBigint x) by ring.
    now apply Z.mod_small.
  - destruct (@sum_two_value x y Minus f Hl Hp Hf HX HY)
      as (r1 & w1 & E1 & V1 & _ & _).
    assert (H1 : 0 <= Field3_toBigint r1 < f)
      by (rewrite V1; apply Z.mod_pos_bound; lia).
    destruct (@sum_two_value r1 y Plus f Hl Hp Hf H1 HY)
      as (r2 & w2 & E2 & V2 & _ & _).
    exists r1, w1, r2, w2. split; [exact E1 |]. split; [exact E2 |].
    rewrite V2, V1. cbn [Sign_toBigint].
    rewrite Zplus_mod_idemp_l.
    replace (Field3_toBigint x + -1 * Field3_toBigint y
             + 1 * Field3_toBigint y)
      with (Field3_toBigint x) by ring.
    now apply Z.mod_small.
Qed.

(** X9: [negate x f] is the additive inverse: for [x] in [[0, f)] it
    returns a triple holding [(f - x) mod f] (so [0] for [x = 0]), and
    adding it to [x] returns a triple holding [0]. *)
Theorem negate_inverse (x : Field3) (f : Z) :
  0 <= l -> 2 ^ l <= nativeModulus -> 0 < f < 2 ^ l3 ->
  0 <= Field3_toBigint x < f ->
  exists n wn z wz,
    ForeignField_negate x f = (Ok n, wn) /\
    Field3_toBigint n = (f - Field3_toBigint x) mod f /\
    ForeignField_add x n f = (Ok z, wz) /\
    Field3_toBigint z = 0.
Proof.
  intros Hl Hp Hf HX. unfold ForeignField_negate, ForeignField_add.
  assert (H0 : 0 <= Field3_toBigint (Field3_from 0) < f)
    by (rewrite Field3_toBigint_from_0; lia).
  destruct (@sum_two_value (Field3_from 0) x Minus f Hl Hp Hf H0 HX)
    as (n & wn & En & Vn & _ & _).
  rewrite Field3_toBigint_from_0 in Vn. cbn [Sign_toBigint] in Vn.
  assert (Vn' : Field3_toBigint n = (f - Field3_toBigint x) mod f).
  { rewrite Vn.
    replace (f - Field3_toBigint x)
      with (0 + -1 * Field3_toBigint x + 1 * f) by ring.
    now rewrite Z_mod_plus_full. }
  assert (Hn : 0 <= Field3_toBigint n < f)
    by (rewrite Vn; apply Z.mod_pos_bound; lia).
  destruct (@sum_two_value x n Plus f Hl Hp Hf HX Hn)
    as (z & wz & Ez & Vz & _ & _).
  exists n, wn, z, wz. split; [exact En |]. split; [exact Vn' |].
  split; [exact Ez |].
  rewrite Vz, Vn. cbn [Sign_toBigint]. rewrite Z.mul_1_l, Zplus_mod_idemp_r.
  replace (Field3_toBigint x + (0 + -1 * Field3_toBigint x)) with 0 by ring.
  apply Zmod_0_l.
Qed.

End AdditionChains.

Section Comparison.
Context {cfg : Params}.

Lemma negative_limb_out_of_range (r : Z) :
  0 <= l -> 2 * 2 ^ l <= nativeModulus -> - 2 ^ l <= r < 0 ->
  inRange l (Field_witness r) = false.
Proof.
  intros Hl Hp Hr. pose proof (pow2_l_pos Hl) as Hb.
  unfold inRange, Field_witness. cbn [Field_toBigInt].
  assert (E : r mod nativeModulus = r + nativeModulus).
  { symmetry. apply (Z.mod_unique_pos _ _ (-1)); lia. }
  rewrite E. apply andb_false_iff; right. apply Z.ltb_ge. lia.
Qed.

(** The high limb that negating [x] modulo [f - 1] witnesses: an [l]-bit
    value when [x < f], a negative one otherwise. *)
Lemma negate_below_witness (x0 x : Field3) (f r0 r1 r2 overflow carry : Z) :
  0 <= l -> 0 < f <= 2 ^ l3 ->
  Field3_toBigint x0 = 0 -> 0 <= Field3_toBigint x < 2 ^ l3 ->
  singleAdd_witnesses x0 x Minus (f - 1)
  = ret [r0; r1; r2; overflow; carry] ->
  0 <= r0 < 2 ^ l /\ 0 <= r1 < 2 ^ l /\
  (Field3_toBigint x < f -> 0 <= r2 < 2 ^ l) /\
  (f <= Field3_toBigint x -> - 2 ^ l <= r2 < 0).
Proof.
  intros Hl Hf H0 HX E. pose proof (pow2_l_pos Hl) as Hb.
  destruct (singleAdd_witnesses_arith Hl E) as (Eo & R0 & R1 & ET & _ & _).
  rewrite H0 in Eo, ET. rewrite combine_split in ET by lia.
  cbn [Sign_toBigint Z.eqb Pos.eqb andb] in Eo, ET.
  rewrite pow2_l3 in Hf, HX by assumption.
  set (X := Field3_toBigint x) in *. set (b := 2 ^ l) in *.
  assert (Ho : overflow * (f - 1) = if X =? 0 then 0 else - (f - 1)).
  { rewrite Eo. destruct (Z.eqb_spec (f - 1) 0) as [F | F].
    - rewrite F. destruct (X =? 0); lia.
    - destruct (Z.ltb_spec (0 + -1 * X) 0); destruct (Z.eqb_spec X 0); lia. }
  rewrite Ho in ET. clear Eo Ho E.
  split; [exact R0 |]. split; [exact R1 |].
  destruct (Z.eqb_spec X 0) as [Z0 | Z0]; split; intros H; nia.
Qed.

(** X10: [assertLessThan] decides [x < f] on every range-checked triple, in
    both modes: for [0 < f <= 2^l3] the run is accepted (nothing thrown, no
    violated row) exactly when the value of [x] is below [f]. *)
Theorem assertLessThan_decides (x : Field3) (f : Z) :
  0 <= l -> 2 * 2 ^ l <= nativeModulus -> 0 < f <= 2 ^ l3 ->
  Field3_inRange x = true ->
  accepts (ForeignField_assertLessThan x f) = (Field3_toBigint x <? f).
Proof.
  intros Hl Hp Hf Rx. pose proof (pow2_l_pos Hl) as Hb.
  pose proof (Field3_inRange_bound x Hl Rx) as Bx.
  unfold ForeignField_assertLessThan.
  replace (f >? 0) with true by (symmetry; apply Z.gtb_lt; lia).
  rewrite assert_true, bind_ret.
  destruct (Field3_isConstant x) eqn:C.
  - destruct (Z.ltb_spec (Field3_toBigint x) f); reflexivity.
  - unfold ForeignField_negate.
    destruct (sum_two_provable (Field3_from 0) x Minus (f - 1))
      as (r0 & r1 & r2 & o & c & g & Ew & Es).
    { rewrite C. apply andb_false_r. }
    apply negate_below_witness in Ew;
      [| assumption | assumption
       | rewrite Field3_toBigint_toVars; apply Field3_toBigint_from_0
       | now rewrite Field3_toBigint_toVars ].
    rewrite Field3_toBigint_toVars in Ew.
    destruct Ew as (R0 & R1 & Hlt & Hge).
    cbv zeta in Es. rewrite Es, bind_Ok. cbn [snd ret accepts].
    unfold proofFails. cbn [app existsb Row_violated orb].
    rewrite orb_false_r, negb_involutive.
    assert (I0 : inRange l (Field_witness r0) = true).
    { unfold Field_witness. rewrite Z.mod_small by lia.
      now apply inRange_intro. }
    assert (I1 : inRange l (Field_witness r1) = true).
    { unfold Field_witness. rewrite Z.mod_small by lia.
      now apply inRange_intro. }
    rewrite I0, I1. cbn [andb].
    destruct (Z.ltb_spec (Field3_toBigint x) f) as [H | H].
    + unfold Field_witness. rewrite Z.mod_small by lia.
      apply inRange_intro. auto.
    + apply negative_limb_out_of_range; auto.
Qed.

End Comparison.

Section MultiplicationCore.
Context {cfg : Params}.

Lemma limb_mul_bound (b x y : Z) :
  0 <= x < b -> 0 <= y < b -> 0 <= x * y <= (b - 1) * (b - 1).
Proof. intros Hx Hy. nia. Qed.

Lemma limb_shift_bound (b x : Z) :
  0 <= x < b -> 0 <= x * b <= (b - 1) * b.
Proof. intros Hx. nia. Qed.

(** The integer arithmetic behind the two carries of the multiplication
    witness, in base [b]. *)
Lemma ffmul_carry_arith
  (b a0 a1 a2 b0 b1 b2 f f0 f1 f2 q0 q1 q2 r0 r1 r2 p10 p110 p111 : Z) :
  0 < b ->
  0 <= a0 < b -> 0 <= a1 < b -> 0 <= a2 < b ->
  0 <= b0 < b -> 0 <= b1 < b -> 0 <= b2 < b ->
  0 <= f0 < b -> 0 <= f1 < b -> 0 <= f2 < b ->
  0 <= q0 < b -> 0 <= q1 < b -> 0 <= q2 < b ->
  0 <= r0 < b -> 0 <= r1 < b -> 0 <= r2 < b ->
  0 <= p10 < b -> 0 <= p110 < b -> 0 <= p111 < b ->
  f0 + f1 * b + f2 * (b * b) = b * b * b - f ->
  (a0 + a1 * b + a2 * (b * b)) * (b0 + b1 * b + b2 * (b * b))
  = (q0 + q1 * b + q2 * (b * b)) * f + (r0 + r1 * b + r2 * (b * b)) ->
  p10 + p110 * b + p111 * (b * b) = a0 * b1 + a1 * b0 + q0 * f1 + q1 * f0 ->
  let e0 := a0 * b0 + q0 * f0 + p10 * b - (r0 + r1 * b) in
  let c0 := e0 / (b * b) in
  let e1 := a0 * b2 + a1 * b1 + a2 * b0 + q0 * f2 + q1 * f1 + q2 * f0
            - r2 + (p110 + p111 * b) + c0 in
  let c1 := e1 / b in
  e0 = c0 * (b * b) /\ 0 <= c0 < 4 /\ e1 = c1 * b /\ 0 <= c1 < 8 * b.
Proof.
  intros Hb A0 A1 A2 B0 B1 B2 F0 F1 F2 Q0 Q1 Q2 R0 R1 R2 P10 P110 P111
    Hf Hab Hp1 e0 c0 e1 c1.
  assert (Hbb : 0 < b * b) by nia.
  set (h3 := a1 * b2 + a2 * b1 + q1 * f2 + q2 * f1).
  set (h4 := a2 * b2 + q2 * f2).
  set (p2 := a0 * b2 + a1 * b1 + a2 * b0 + q0 * f2 + q1 * f1 + q2 * f0).
  set (Q := q0 + q1 * b + q2 * (b * b)) in *.
  set (k1 := Q - h3 - h4 * b).
  set (k0 := r2 - p2 - (p110 + p111 * b) + k1 * b).
  assert (Hf' : f = b * b * b - (f0 + f1 * b + f2 * (b * b))) by lia.
  assert (E0 : e0 = k0 * (b * b)).
  { subst e0 k0 k1 Q h3 h4 p2.
    assert (Hp1b : (p10 + p110 * b + p111 * (b * b)) * b
                   = (a0 * b1 + a1 * b0 + q0 * f1 + q1 * f0) * b)
      by (now rewrite Hp1).
    rewrite Hf' in Hab. clear - Hab Hp1b. lia. }
  assert (C0 : c0 = k0).
  { subst c0. rewrite E0. apply Z.div_mul. lia. }
  pose proof (limb_mul_bound A0 B0) as M1.
  pose proof (limb_mul_bound Q0 F0) as M2.
  pose proof (limb_mul_bound A0 B2) as M3.
  pose proof (limb_mul_bound A1 B1) as M4.
  pose proof (limb_mul_bound A2 B0) as M5.
  pose proof (limb_mul_bound Q0 F2) as M6.
  pose proof (limb_mul_bound Q1 F1) as M7.
  pose proof (limb_mul_bound Q2 F0) as M8.
  pose proof (limb_shift_bound P111) as M9.
  pose proof (limb_shift_bound P10) as M10.
  pose proof (limb_shift_bound R1) as M11.
  assert (N0 : - (b * b) < e0 < 3 * (b * b)).
  { subst e0. clear - Hb Hbb M1 M2 M10 M11 P10 R0 R1. lia. }
  assert (K0 : 0 <= k0 < 3).
  { clear - E0 N0 Hbb. nia. }
  assert (E1 : e1 = k1 * b).
  { subst e1. rewrite C0. subst k0. fold p2. ring. }
  assert (C1 : c1 = k1).
  { subst c1. rewrite E1. apply Z.div_mul. lia. }
  assert (N1 : - b < e1 < 8 * (b * b)).
  { subst e1. fold p2. rewrite C0. subst p2.
    clear - Hb Hbb M3 M4 M5 M6 M7 M8 M9 R2 P110 P111 K0. lia. }
  rewrite C0, C1. split; [exact E0 |]. split; [lia |].
  split; [exact E1 |]. clear - E1 N1 Hb. nia.
Qed.

Lemma slice_step (c s n : Z) :
  0 <= s -> 0 <= n ->
  c / 2 ^ s = c / 2 ^ (s + n) * 2 ^ n + (c / 2 ^ s) mod 2 ^ n.
Proof.
  intros Hs Hn. rewrite Z.pow_add_r, <- Z.div_div by lia.
  rewrite Z.mul_comm. apply Z.div_mod. apply Z.pow_nonzero; lia.
Qed.

Lemma slices_arith (c : Z) :
  0 <= c < 2 ^ 91 ->
  c mod 2 ^ 12 + (c / 2 ^ 12) mod 2 ^ 12 * 2 ^ 12
  + (c / 2 ^ 24) mod 2 ^ 12 * 2 ^ 24 + (c / 2 ^ 36) mod 2 ^ 12 * 2 ^ 36
  + (c / 2 ^ 48) mod 2 ^ 12 * 2 ^ 48 + (c / 2 ^ 60) mod 2 ^ 12 * 2 ^ 60
  + (c / 2 ^ 72) mod 2 ^ 12 * 2 ^ 72 + (c / 2 ^ 84) mod 2 ^ 2 * 2 ^ 84
  + (c / 2 ^ 86) mod 2 ^ 2 * 2 ^ 86 + (c / 2 ^ 88) mod 2 ^ 2 * 2 ^ 88
  + (c / 2 ^ 90) mod 2 ^ 1 * 2 ^ 90 = c.
Proof.
  intros Hc.
  assert (Z91 : c / 2 ^ 91 = 0) by (apply Z.div_small; exact Hc).
  pose proof (@slice_step c 0 12 ltac:(discriminate) ltac:(discriminate)) as M0.
  pose proof (@slice_step c 12 12 ltac:(discriminate) ltac:(discriminate)) as M1.
  pose proof (@slice_step c 24 12 ltac:(discriminate) ltac:(discriminate)) as M2.
  pose proof (@slice_step c 36 12 ltac:(discriminate) ltac:(discriminate)) as M3.
  pose proof (@slice_step c 48 12 ltac:(discriminate) ltac:(discriminate)) as M4.
  pose proof (@slice_step c 60 12 ltac:(discriminate) ltac:(discriminate)) as M5.
  pose proof (@slice_step c 72 12 ltac:(discriminate) ltac:(discriminate)) as M6.
  pose proof (@slice_step c 84 2 ltac:(discriminate) ltac:(discriminate)) as M7.
  pose proof (@slice_step c 86 2 ltac:(discriminate) ltac:(discriminate)) as M8.
  pose proof (@slice_step c 88 2 ltac:(discriminate) ltac:(discriminate)) as M9.
  pose proof (@slice_step c 90 1 ltac:(discriminate) ltac:(discriminate)) as M10.
  cbn [Z.add Pos.add Pos.succ Pos.add_carry] in M0, M1, M2, M3, M4, M5, M6, M7, M8, M9, M10.
  rewrite Z.pow_0_r, Z.div_1_r in M0.
  rewrite Z91 in M10. clear Z91 Hc.
  rewrite Z.mul_0_l, Z.add_0_l in M10.
  (generalize dependent (c / 2 ^ 12); intros d1;
  generalize dependent (c / 2 ^ 24); intros d2;
  generalize dependent (c / 2 ^ 36); intros d3;
  generalize dependent (c / 2 ^ 48); intros d4;
  generalize dependent (c / 2 ^ 60); intros d5;
  generalize dependent (c / 2 ^ 72); intros d6;
  generalize dependent (c / 2 ^ 84); intros d7;
  generalize dependent (c / 2 ^ 86); intros d8;
  generalize dependent (c / 2 ^ 88); intros d9;
  generalize dependent (c / 2 ^ 90); intros d10).
  intros.
  (generalize dependent (c mod 2 ^ 12); intros m0;
  generalize dependent (d1 mod 2 ^ 12); intros m1;
  generalize dependent (d2 mod 2 ^ 12); intros m2;
  generalize dependent (d3 mod 2 ^ 12); intros m3;
  generalize dependent (d4 mod 2 ^ 12); intros m4;
  generalize dependent (d5 mod 2 ^ 12); intros m5;
  generalize dependent (d6 mod 2 ^ 12); intros m6;
  generalize dependent (d7 mod 2 ^ 2); intros m7;
  generalize dependent (d8 mod 2 ^ 2); intros m8;
  generalize dependent (d9 mod 2 ^ 2); intros m9;
  generalize dependent (d10 mod 2 ^ 1); intros m10).
  intros. subst.
  ring.
Qed.

(** The eleven slices of a 91-bit carry and what they recombine to. *)
Lemma bitSlices_recombine (c : Z) :
  0 <= c < 2 ^ 91 ->
  bitSlice c 0 12 + (bitSlice c 12 12 << 12) + (bitSlice c 24 12 << 24)
  + (bitSlice c 36 12 << 36) + (bitSlice c 48 12 << 48)
  + (bitSlice c 60 12 << 60) + (bitSlice c 72 12 << 72)
  + (bitSlice c 84 2 << 84) + (bitSlice c 86 2 << 86)
  + (bitSlice c 88 2 << 88) + (bitSlice c 90 1 << 90) = c.
Proof.
  intros Hc. unfold bitSlice.
  rewrite !land_mask, !shr_pow2, !shl_pow2 by discriminate.
  rewrite Z.pow_0_r, Z.div_1_r. now apply slices_arith.
Qed.

Lemma bitSlice_range (c start len : Z) :
  0 <= start -> 0 <= len -> 0 <= bitSlice c start len < 2 ^ len.
Proof.
  intros Hs Hn. unfold bitSlice. rewrite land_mask by assumption.
  apply Z.mod_pos_bound. now apply Z.pow_pos_nonneg.
Qed.

(** What the witness generator of [multiplyNoRangeCheck] stores for
    range-checked operands whose product is below [f * 2^l3]. *)
Lemma mul_witnesses_honest (a b : Field3) (f : Z)
  (a0 a1 a2 b0 b1 b2 f_0 f_1 f_2 : Z) :
  0 <= l -> 0 < f <= 2 ^ l3 ->
  Field3_inRange a = true -> Field3_inRange b = true ->
  toBigint3 a = (a0, a1, a2) -> toBigint3 b = (b0, b1, b2) ->
  split ((1 << l3) - f) = (f_0, f_1, f_2) ->
  Field3_toBigint a * Field3_toBigint b < f * 2 ^ l3 ->
  let ab := Field3_toBigint a * Field3_toBigint b in
  exists r0 r1 r2 q0 q1 q2 p10 p110 p111 c0 c1,
    multiplyNoRangeCheck_witnesses a b f
    = ret [combine2 (r0, r1); r2; q0; q1; q2;
           q2 + ((1 << l) - (f >> l2) - 1); p10; p110; p111; c0;
           bitSlice c1 0 12; bitSlice c1 12 12; bitSlice c1 24 12;
           bitSlice c1 36 12; bitSlice c1 48 12; bitSlice c1 60 12;
           bitSlice c1 72 12; bitSlice c1 84 2; bitSlice c1 86 2;
           bitSlice c1 88 2; bitSlice c1 90 1] /\
    split (ab mod f) = (r0, r1, r2) /\
    (ab = (q0 + q1 * 2 ^ l + q2 * (2 ^ l * 2 ^ l)) * f + ab mod f /\
     r0 + r1 * 2 ^ l + r2 * (2 ^ l * 2 ^ l) = ab mod f) /\
    a0 * b1 + a1 * b0 + q0 * f_1 + q1 * f_0
    = p10 + p110 * 2 ^ l + p111 * (2 ^ l * 2 ^ l) /\
    a0 * b0 + q0 * f_0 + p10 * 2 ^ l - (r0 + r1 * 2 ^ l)
    = c0 * (2 ^ l * 2 ^ l) /\
    a0 * b2 + a1 * b1 + a2 * b0 + q0 * f_2 + q1 * f_1 + q2 * f_0
    - r2 + (p110 + p111 * 2 ^ l) + c0 = c1 * 2 ^ l /\
    (0 <= q0 < 2 ^ l /\ 0 <= q1 < 2 ^ l /\ 0 <= q2 < 2 ^ l) /\
    (0 <= r0 < 2 ^ l /\ 0 <= r1 < 2 ^ l /\ 0 <= r2 < 2 ^ l) /\
    (0 <= p10 < 2 ^ l /\ 0 <= p110 < 2 ^ l /\ 0 <= p111 < 2 ^ l) /\
    0 <= c0 < 4 /\ 0 <= c1 < 8 * 2 ^ l /\
    (f < 2 ^ l3 -> ab < f * f ->
     0 <= q2 + ((1 << l) - (f >> l2) - 1) < 2 ^ l).
Proof.
  intros Hl0 Hf Ra Rb Ea Eb Ef Hab ab.
  pose proof (pow2_l_pos Hl0) as Hb.
  pose proof (Field3_inRange_elim a Ra) as La. rewrite Ea in La.
  pose proof (Field3_inRange_elim b Rb) as Lb. rewrite Eb in Lb.
  destruct La as (A0 & A1 & A2). destruct Lb as (B0 & B1 & B2).
  pose proof (Field3_inRange_bound a Hl0 Ra) as BA.
  pose proof (Field3_inRange_bound b Hl0 Rb) as BB.
  subst ab. unfold Field3_toBigint in *. rewrite Ea, Eb in *.
  set (A := combine (a0, a1, a2)) in *. set (B := combine (b0, b1, b2)) in *.
  assert (HAB : 0 <= A * B) by (clear - BA BB; nia).
  (* quotient and remainder *)
  set (Q := A * B / f).
  assert (ER : A * B - Q * f = (A * B) mod f).
  { subst Q. rewrite Z.mod_eq by lia. ring. }
  assert (HR : 0 <= (A * B) mod f < f) by (apply Z.mod_pos_bound; lia).
  assert (HQ : 0 <= Q < 2 ^ l3).
  { subst Q. split; [apply Z.div_pos; lia |].
    apply Z.div_lt_upper_bound; lia. }
  assert (HF : 0 <= (1 << l3) - f < 2 ^ l3).
  { rewrite shl_pow2 by (unfold l3; lia). lia. }
  assert (HR3 : 0 <= (A * B) mod f < 2 ^ l3) by lia.
  pose proof (combine_split HQ) as CQ.
  pose proof (combine_split HR3) as CR.
  pose proof (combine_split HF) as CF.
  pose proof (split_limbs_range Q Hl0) as LQ.
  pose proof (split_limbs_range ((A * B) mod f) Hl0) as LR.
  pose proof (split_limbs_range ((1 << l3) - f) Hl0) as LF.
  rewrite Ef in CF, LF. destruct LF as (F0 & F1 & F2).
  unfold multiplyNoRangeCheck_witnesses. rewrite Ea, Eb, Ef.
  fold A B. rewrite BigInt_div_nonneg, bind_ret by lia. fold Q. rewrite ER.
  destruct (split Q) as [[q0 q1] q2]. destruct LQ as (Q0 & Q1 & Q2).
  destruct (split ((A * B) mod f)) as [[r0 r1] r2].
  destruct LR as (R0 & R1 & R2).
  set (p1 := a0 * b1 + a1 * b0 + q0 * f_1 + q1 * f_0).
  pose proof (limb_mul_bound A0 B1) as N1.
  pose proof (limb_mul_bound A1 B0) as N2.
  pose proof (limb_mul_bound Q0 F1) as N3.
  pose proof (limb_mul_bound Q1 F0) as N4.
  assert (HP : 0 <= p1 < 2 ^ l3).
  { rewrite pow2_l3 by assumption. subst p1.
    clear - Hb N1 N2 N3 N4. set (b := 2 ^ l) in *.
    assert (4 * ((b - 1) * (b - 1)) < b * b * b) by nia. lia. }
  pose proof (combine_split HP) as CP.
  pose proof (split_limbs_range p1 Hl0) as LP.
  destruct (split p1) as [[p10 p110] p111]. destruct LP as (P10 & P110 & P111).
  clear N1 N2 N3 N4.
  rewrite !combine_spec in * by assumption.
  rewrite shl_pow2, pow2_l3, Z.mul_1_l in CF by (unfold l3; lia).
  assert (HabE : (a0 + a1 * 2 ^ l + a2 * (2 ^ l * 2 ^ l))
                 * (b0 + b1 * 2 ^ l + b2 * (2 ^ l * 2 ^ l))
                 = (q0 + q1 * 2 ^ l + q2 * (2 ^ l * 2 ^ l)) * f
                   + (r0 + r1 * 2 ^ l + r2 * (2 ^ l * 2 ^ l))).
  { rewrite CQ, CR, <- ER. subst A B.
    rewrite !combine_spec by assumption. ring. }
  destruct (@ffmul_carry_arith (2 ^ l) a0 a1 a2 b0 b1 b2 f f_0 f_1 f_2
              q0 q1 q2 r0 r1 r2 p10 p110 p111 Hb A0 A1 A2 B0 B1 B2
              F0 F1 F2 Q0 Q1 Q2 R0 R1 R2 P10 P110 P111 CF HabE CP)
    as (E0 & C0 & E1 & C1).
  cbv zeta in E0, C0, E1, C1.
  do 11 eexists. split; [reflexivity |].
  rewrite !combine2_spec by assumption.
  rewrite !(shl_pow2 _ Hl0), !(@shr_pow2 _ l2) by (unfold l2; lia).
  rewrite !(@shr_pow2 _ l) by assumption.
  rewrite pow2_l2 by assumption.
  split; [reflexivity |].
  split; [split; [rewrite <- CR; subst A B;
                  rewrite !combine_spec by assumption; exact HabE
                 | exact CR] |].
  split; [symmetry; exact CP |].
  split; [exact E0 |]. split; [exact E1 |].
  split; [repeat split; lia |].
  split; [repeat split; lia |].
  split; [repeat split; lia |].
  split; [exact C0 |]. split; [exact C1 |].
  intros Hf3 Hff.
  assert (Hbb : 0 < 2 ^ l * 2 ^ l) by (clear - Hb; nia).
  assert (Hq2 : Q / (2 ^ l * 2 ^ l) = q2).
  { rewrite <- CQ. symmetry.
    apply (Z.div_unique_pos _ _ _ (q0 + q1 * 2 ^ l)).
    - pose proof (limb_shift_bound Q1) as S1. clear - Q0 Q1 S1 Hb. lia.
    - ring. }
  assert (HQf : Q < f).
  { subst Q. apply Z.div_lt_upper_bound; [lia | exact Hff]. }
  assert (Hle : Q / (2 ^ l * 2 ^ l) <= f / (2 ^ l * 2 ^ l))
    by (apply Z.div_le_mono; lia).
  assert (Hup : f / (2 ^ l * 2 ^ l) < 2 ^ l).
  { apply Z.div_lt_upper_bound; [exact Hbb |].
    rewrite pow2_l3 in Hf3 by assumption. clear - Hf3. lia. }
  assert (Hlo : 0 <= f / (2 ^ l * 2 ^ l)) by (apply Z.div_pos; lia).
  clear - Hq2 Hle Hup Hlo Q2. lia.
Qed.

(** X11: the witness generator of [multiplyNoRangeCheck] on range-checked
    operands whose product is below [f * 2^l3], for limbs of at most 88
    bits: the quotient and remainder it stores satisfy [a*b = q*f + r] with
    [0 <= r < f]; the middle product is stored limb by limb; both carries
    are exact (the right shifts drop zero bits only), [c0] fits 2 bits and
    the eleven slices recombine to a 91-bit [c1]; and every stored limb is
    an [l]-bit value. *)
Theorem multiplyNoRangeCheck_witnesses_exact (a b : Field3) (f : Z)
  (a0 a1 a2 b0 b1 b2 f_0 f_1 f_2 : Z) :
  0 <= l <= 88 -> 0 < f <= 2 ^ l3 ->
  Field3_inRange a = true -> Field3_inRange b = true ->
  toBigint3 a = (a0, a1, a2) -> toBigint3 b = (b0, b1, b2) ->
  split ((1 << l3) - f) = (f_0, f_1, f_2) ->
  Field3_toBigint a * Field3_toBigint b < f * 2 ^ l3 ->
  exists r01 r2 q0 q1 q2 q2Bound p10 p110 p111 c0
         s00 s12 s24 s36 s48 s60 s72 s84 s86 s88 s90,
    multiplyNoRangeCheck_witnesses a b f
    = ret [r01; r2; q0; q1; q2; q2Bound; p10; p110; p111; c0;
           s00; s12; s24; s36; s48; s60; s72; s84; s86; s88; s90] /\
    let q := combine (q0, q1, q2) in
    let r := r01 + (r2 << l2) in
    let c1 := s00 + (s12 << 12) + (s24 << 24) + (s36 << 36) + (s48 << 48)
              + (s60 << 60) + (s72 << 72) + (s84 << 84) + (s86 << 86)
              + (s88 << 88) + (s90 << 90) in
    (Field3_toBigint a * Field3_toBigint b = q * f + r /\ 0 <= r < f) /\
    a0 * b1 + a1 * b0 + q0 * f_1 + q1 * f_0 = combine (p10, p110, p111) /\
    a0 * b0 + q0 * f_0 + (p10 << l) - r01 = c0 << l2 /\
    a0 * b2 + a1 * b1 + a2 * b0 + q0 * f_2 + q1 * f_1 + q2 * f_0
    - r2 + combine2 (p110, p111) + c0 = c1 << l /\
    q2Bound = q2 + ((1 << l) - (f >> l2) - 1) /\
    (0 <= q0 < 2 ^ l /\ 0 <= q1 < 2 ^ l /\ 0 <= q2 < 2 ^ l) /\
    (0 <= r01 < 2 ^ l2 /\ 0 <= r2 < 2 ^ l) /\
    (0 <= p10 < 2 ^ l /\ 0 <= p110 < 2 ^ l /\ 0 <= p111 < 2 ^ l) /\
    0 <= c0 < 4 /\ 0 <= c1 < 2 ^ 91.
Proof.
  intros Hl Hf Ra Rb Ea Eb Ef Hab.
  assert (Hl0 : 0 <= l) by lia. pose proof (pow2_l_pos Hl0) as Hb.
  destruct (mul_witnesses_honest a b Hl0 Hf Ra Rb Ea Eb Ef Hab)
    as (r0 & r1 & r2 & q0 & q1 & q2 & p10 & p110 & p111 & c0 & c1 & E
        & _ & (Eab & Er) & Ep & E0 & E1 & Lq & (R0 & R1 & R2) & Lp & C0
        & C1 & _).
  assert (H91 : 0 <= c1 < 2 ^ 91).
  { split; [lia |].
    assert (2 ^ l <= 2 ^ 88) by (apply Z.pow_le_mono_r; lia).
    change (2 ^ 91) with (8 * 2 ^ 88). lia. }
  do 21 eexists. split; [exact E |]. cbv zeta.
  rewrite (bitSlices_recombine H91).
  rewrite !combine2_spec, !combine_spec by assumption.
  rewrite !(shl_pow2 _ Hl0), !(@shl_pow2 _ l2) by (unfold l2; lia).
  rewrite pow2_l2 by assumption.
  pose proof (limb_shift_bound R1) as S1.
  pose proof (Z.mod_pos_bound (Field3_toBigint a * Field3_toBigint b) f
                ltac:(lia)) as Hm.
  split; [split; [clear - Eab Er; lia | clear - Er Hm; lia] |].
  split; [exact Ep |]. split; [exact E0 |]. split; [exact E1 |].
  split; [reflexivity |]. split; [exact Lq |].
  split; [split; [clear - R0 R1 S1 Hb; lia | exact R2] |].
  split; [exact Lp |]. split; assumption.
Qed.

End MultiplicationCore.

Section Products.
Context {cfg : Params}.

Lemma Field3_inRange_of_limbs (r : Field3) (r0 r1 r2 : Z) :
  toBigint3 r = (r0, r1, r2) ->
  0 <= r0 < 2 ^ l -> 0 <= r1 < 2 ^ l -> 0 <= r2 < 2 ^ l ->
  Field3_inRange r = true.
Proof.
  destruct r as [[[c0 v0] [c1 v1]] [c2 v2]]. cbn [toBigint3 Field_toBigInt].
  intros E H0 H1 H2. injection E as -> -> ->. unfold Field3_inRange.
  now rewrite !inRange_intro by assumption.
Qed.

Lemma Row_multiRangeCheck_ok (x : Field3) :
  Field3_inRange x = true -> Row_violated (Row_multiRangeCheck x) = false.
Proof.
  destruct x as [[x0 x1] x2]. unfold Field3_inRange. cbn [Row_violated].
  now intros ->.
Qed.

(** The compact range check of a witnessed remainder: one row, satisfied,
    and the limbs come back. *)
Lemma compactMultiRangeCheck_honest (r0 r1 r2 : Z) :
  0 <= l -> 2 ^ l2 <= nativeModulus ->
  0 <= r0 < 2 ^ l -> 0 <= r1 < 2 ^ l -> 0 <= r2 < 2 ^ l ->
  let xy := Field_witness (combine2 (r0, r1)) in
  let z := Field_witness r2 in
  exists r,
    compactMultiRangeCheck xy z = (Ok r, [Row_compactMultiRangeCheck xy z]) /\
    toBigint3 r = (r0, r1, r2) /\
    Row_violated (Row_compactMultiRangeCheck xy z) = false.
Proof.
  intros Hl Hp H0 H1 H2 xy z.
  pose proof (pow2_l_pos Hl) as Hb. pose proof (pow2_l_le_l2 Hl) as Hb2.
  pose proof (pow2_l2 Hl) as E2.
  destruct (compactMultiRangeCheck_witness Hl Hp H0 H1 H2)
    as (r & w & E & Hr).
  fold xy z in E. exists r.
  assert (Ew : w = [Row_compactMultiRangeCheck xy z]).
  { unfold compactMultiRangeCheck in E.
    cbn [xy z Field_witness Field_isConstant andb] in E.
    unfold emit in E. rewrite bind_Ok in E. cbn [snd ret app] in E.
    now injection E as _ <-. }
  subst w. split; [exact E |]. split; [exact Hr |].
  cbn [Row_violated]. subst xy z. unfold Field_witness.
  rewrite combine2_spec by assumption.
  pose proof (limb_shift_bound H1) as S1.
  rewrite !Z.mod_small by lia.
  rewrite !inRange_intro; [reflexivity | assumption |].
  rewrite E2. lia.
Qed.

(** One core multiplication on range-checked operands whose product is
    below [f*f]: the remainder it returns, its range-checked quotient, and
    its two rows, the second a satisfied range check. *)
Lemma multiplyNoRangeCheck_honest (a b : Field3) (f : Z) :
  0 <= l -> 2 ^ l <= nativeModulus -> 0 < f < 2 ^ l3 ->
  Field3_inRange a = true -> Field3_inRange b = true ->
  Field3_toBigint a * Field3_toBigint b < f * f ->
  let m := (Field3_toBigint a * Field3_toBigint b) mod f in
  exists q g bnd,
    multiplyNoRangeCheck a b f
    = (Ok (mkMulResult (Field_witness (combine2 (low2 (split m))))
                       (Field_witness (snd (split m))) q),
       [Row_foreignFieldMul g; Row_multiRangeCheck bnd]) /\
    Field3_isConstant q = false /\ Field3_inRange q = true /\
    Field3_toBigint q * f + m = Field3_toBigint a * Field3_toBigint b /\
    Row_violated (Row_multiRangeCheck bnd) = false.
Proof.
  intros Hl Hp Hf Ra Rb Hab m. pose proof (pow2_l_pos Hl) as Hb.
  destruct (toBigint3 a) as [[a0 a1] a2] eqn:Ea.
  destruct (toBigint3 b) as [[b0 b1] b2] eqn:Eb.
  destruct (split ((1 << l3) - f)) as [[f_0 f_1] f_2] eqn:Ef.
  assert (Hab3 : Field3_toBigint a * Field3_toBigint b < f * 2 ^ l3).
  { apply Z.lt_le_trans with (1 := Hab). apply Z.mul_le_mono_nonneg_l; lia. }
  assert (Hf' : 0 < f <= 2 ^ l3) by lia.
  destruct (mul_witnesses_honest a b Hl Hf' Ra Rb Ea Eb Ef Hab3)
    as (r0 & r1 & r2 & q0 & q1 & q2 & p10 & p110 & p111 & c0 & c1 & E
        & Sm & (Eab & _) & _ & _ & _ & (Q0 & Q1 & Q2) & _
        & (P10 & P110 & _) & _ & _ & Hbnd).
  specialize (Hbnd (proj2 Hf) Hab). fold m in Sm, Eab.
  unfold multiplyNoRangeCheck. rewrite Ef, E. unfold exists_.
  rewrite bind_ret. cbn [length Nat.eqb]. rewrite assert_true, !bind_ret.
  cbn [map]. unfold Gates_foreignFieldMul, emit. rewrite bind_Ok.
  rewrite multiRangeCheck_provable by reflexivity. rewrite bind_Ok.
  rewrite Sm. cbn [low2 snd fst ret app].
  destruct (witness3_inRange Hp Q0 Q1 Q2) as [IQ TQ].
  destruct (witness3_inRange Hp P10 P110 Hbnd) as [IB _].
  eexists. eexists. eexists. split; [reflexivity |].
  split; [reflexivity |]. split; [exact IQ |].
  split.
  - unfold Field3_toBigint at 1. rewrite TQ, combine_spec by assumption.
    clear - Eab. lia.
  - now apply Row_multiRangeCheck_ok.
Qed.

(** [multiply] on range-checked operands below [f]. *)
Lemma multiply_honest (a b : Field3) (f : Z) :
  259 <= l3 -> 2 ^ l2 <= nativeModulus -> 0 < f < 2 ^ 259 ->
  Field3_inRange a = true -> Field3_inRange b = true ->
  Field3_toBigint a < f -> Field3_toBigint b < f ->
  exists r w,
    multiply a b f = (Ok r, w) /\
    Field3_inRange r = true /\
    Field3_toBigint r = (Field3_toBigint a * Field3_toBigint b) mod f /\
    proofFails w = false /\
    length w
    = (if Field3_isConstant a && Field3_isConstant b then 0 else 4)%nat.
Proof.
  intros Hl3 Hp Hf Ra Rb HA HB.
  assert (Hl : 0 <= l) by (unfold l3 in Hl3; lia).
  pose proof (pow2_l_pos Hl) as Hb. pose proof (pow2_l_le_l2 Hl) as Hb2.
  pose proof (pow2_259_l3 Hl3) as H259.
  pose proof (Field3_inRange_bound a Hl Ra) as BA.
  pose proof (Field3_inRange_bound b Hl Rb) as BB.
  set (m := (Field3_toBigint a * Field3_toBigint b) mod f).
  assert (Hm : 0 <= m < f) by (apply Z.mod_pos_bound; lia).
  unfold multiply.
  rewrite modulus_guard_true, assert_true, bind_ret by apply Hf.
  destruct (Field3_isConstant a && Field3_isConstant b) eqn:C.
  - rewrite mod_spec, bind_ret by apply Hf. fold m.
    exists (Field3_from m), []. split; [reflexivity |].
    split; [apply Field3_from_inRange; lia |].
    rewrite Field3_toBigint_from by lia. repeat split.
  - assert (Hab : Field3_toBigint a * Field3_toBigint b < f * f)
      by (clear - BA BB HA HB; nia).
    assert (Hp1 : 2 ^ l <= nativeModulus) by lia.
    assert (Hf3 : 0 < f < 2 ^ l3) by lia.
    destruct (@multiplyNoRangeCheck_honest a b f Hl Hp1 Hf3 Ra Rb Hab)
      as (q & g & bnd & E & Cq & Iq & _ & Vb).
    fold m in E. rewrite E, bind_Ok. cbn [mul_q mul_r01 mul_r2].
    rewrite (multiRangeCheck_provable _ Cq), bind_Ok.
    pose proof (split_limbs_range m Hl) as Rm.
    assert (Em : combine (split m) = m) by (apply combine_split; lia).
    destruct (split m) as [[r0 r1] r2]. destruct Rm as (R0 & R1 & R2).
    cbn [low2 snd].
    destruct (compactMultiRangeCheck_honest Hl Hp R0 R1 R2)
      as (r & Ec & Tr & Vc).
    cbv zeta in Ec, Vc. rewrite Ec, bind_Ok. cbn [fst snd ret app].
    eexists. eexists. split; [reflexivity |].
    split; [exact (Field3_inRange_of_limbs _ Tr R0 R1 R2) |].
    split; [unfold Field3_toBigint; rewrite Tr, Em; reflexivity |].
    split; [| reflexivity].
    unfold proofFails. cbn [existsb orb].
    rewrite Vb, (Row_multiRangeCheck_ok _ Iq), Vc. reflexivity.
Qed.

(** X12: [multiply] is closed on valid operands: for range-checked [a], [b]
    below [f], it returns a range-checked triple below [f], every range
    check of the log it builds holds (that of the quotient bound
    included), and the log has no row in constant mode and four rows
    otherwise. *)
Theorem multiply_accepted (a b : Field3) (f : Z) :
  259 <= l3 -> 2 ^ l2 <= nativeModulus -> 0 < f < 2 ^ 259 ->
  Field3_inRange a = true -> Field3_inRange b = true ->
  Field3_toBigint a < f -> Field3_toBigint b < f ->
  exists r w,
    multiply a b f = (Ok r, w) /\
    Field3_inRange r = true /\ 0 <= Field3_toBigint r < f /\
    proofFails w = false /\
    length w
    = (if Field3_isConstant a && Field3_isConstant b then 0 else 4)%nat.
Proof.
  intros Hl3 Hp Hf Ra Rb HA HB.
  destruct (@multiply_honest a b f Hl3 Hp Hf Ra Rb HA HB)
    as (r & w & E & Ir & Vr & Pw & Lw).
  exists r, w. split; [exact E |]. split; [exact Ir |].
  split; [rewrite Vr; apply Z.mod_pos_bound; lia |].
  split; assumption.
Qed.

(** [assertMulInternal] on a triple is the call on its combined low+mid
    limb and its high limb. *)
Lemma assertMulInternal_inl (x y : Field3) (xy0 xy1 xy2 : Field) (f : Z) :
  assertMulInternal x y (inl (xy0, xy1, xy2)) f
  = assertMulInternal x y
      (inr (Field_add xy0 (Field_mul xy1 (Field_from (1 << l))), xy2)) f.
Proof. reflexivity. Qed.

(** The rows of [assertMulInternal] on range-checked factors: the only
    ones that can be violated are the two that bind the remainder. *)
Lemma assertMulInternal_honest (x y : Field3) (t01 t2 : Field) (f : Z) :
  0 <= l -> 2 ^ l2 <= nativeModulus -> 0 < f < 2 ^ l3 ->
  Field3_inRange x = true -> Field3_inRange y = true ->
  Field3_toBigint x * Field3_toBigint y < f * f ->
  let m := (Field3_toBigint x * Field3_toBigint y) mod f in
  exists w,
    assertMulInternal x y (inr (t01, t2)) f = (Ok tt, w) /\
    proofFails w
    = negb ((Field_toBigInt t01 =? combine2 (low2 (split m)))
            && (Field_toBigInt t2 =? snd (split m))).
Proof.
  intros Hl Hp Hf Rx Ry Hxy m.
  pose proof (pow2_l_pos Hl) as Hb. pose proof (pow2_l_le_l2 Hl) as Hb2.
  pose proof (pow2_l2 Hl) as E2.
  assert (Hp1 : 2 ^ l <= nativeModulus) by lia.
  destruct (@multiplyNoRangeCheck_honest x y f Hl Hp1 Hf Rx Ry Hxy)
    as (q & g & bnd & E & Cq & Iq & _ & Vb).
  fold m in E. unfold assertMulInternal. rewrite E, bind_Ok.
  cbn [mul_q mul_r01 mul_r2].
  rewrite (multiRangeCheck_provable _ Cq), bind_Ok.
  unfold Field_assertEquals. cbn [Field_witness Field_isConstant andb].
  unfold emit. rewrite bind_Ok. cbn [fst snd ret app].
  eexists. split; [reflexivity |].
  unfold proofFails. cbn [existsb orb].
  rewrite Vb, (Row_multiRangeCheck_ok _ Iq). cbn [orb Row_violated].
  rewrite orb_false_r. cbn [Field_toBigInt].
  pose proof (split_limbs_range m Hl) as Rm.
  destruct (split m) as [[m0 m1] m2]. destruct Rm as (R0 & R1 & R2).
  cbn [low2 snd]. rewrite combine2_spec by assumption.
  pose proof (limb_shift_bound R1) as S1.
  cbn [Field_witness Field_toBigInt].
  rewrite !Z.mod_small by lia.
  rewrite (Z.eqb_sym (m0 + m1 * 2 ^ l)), (Z.eqb_sym m2).
  now rewrite negb_andb.
Qed.

Lemma limbs_eq_value (x : Field3) (m : Z) :
  0 <= l -> Field3_inRange x = true -> 0 <= m < 2 ^ l3 ->
  (combine2 (low2 (toBigint3 x)) =? combine2 (low2 (split m)))
  && (snd (toBigint3 x) =? snd (split m))
  = (Field3_toBigint x =? m).
Proof.
  intros Hl Rx Hm. pose proof (pow2_l_pos Hl) as Hb.
  pose proof (Field3_inRange_elim x Rx) as Lx.
  pose proof (combine_split Hm) as Cm.
  pose proof (split_limbs_range m Hl) as Rm.
  unfold Field3_toBigint.
  destruct (toBigint3 x) as [[x0 x1] x2]. destruct Lx as (X0 & X1 & X2).
  destruct (split m) as [[m0 m1] m2]. destruct Rm as (M0 & M1 & M2).
  cbn [low2 snd]. rewrite <- Cm.
  rewrite !(combine_low_high _ _ _ Hl).
  rewrite !combine2_spec by assumption.
  pose proof (limb_shift_bound X1) as S1.
  pose proof (limb_shift_bound M1) as S2.
  destruct (Z.eqb_spec (x0 + x1 * 2 ^ l) (m0 + m1 * 2 ^ l)) as [E1 | N1];
    destruct (Z.eqb_spec x2 m2) as [E2 | N2]; cbn [andb]; symmetry.
  - apply Z.eqb_eq. now rewrite E1, E2.
  - apply Z.eqb_neq. intros H. apply N2. rewrite E1 in H.
    assert (Hbb : 0 < 2 ^ l * 2 ^ l) by (clear - Hb; nia).
    clear - H Hbb. nia.
  - apply Z.eqb_neq. intros H. apply N1.
    assert (Hbb : 0 < 2 ^ l * 2 ^ l) by (clear - Hb; nia).
    set (bb := 2 ^ l * 2 ^ l) in *.
    assert (x2 = m2) by (clear - H Hbb X0 X1 X2 M0 M1 M2 S1 S2 Hb; nia).
    subst x2. lia.
  - apply Z.eqb_neq. intros H. apply N1.
    assert (Hbb : 0 < 2 ^ l * 2 ^ l) by (clear - Hb; nia).
    set (bb := 2 ^ l * 2 ^ l) in *.
    assert (x2 = m2) by (clear - H Hbb X0 X1 X2 M0 M1 M2 S1 S2 Hb; nia).
    subst x2. lia.
Qed.

(** X13: [assertMulInternal] checks the product exactly: for range-checked
    factors with [x*y < f*f] and a range-checked expected triple [xy], the
    run throws nothing, and its log is free of violated rows exactly when
    [xy] holds [(x*y) mod f]. *)
Theorem assertMulInternal_decides (x y xy : Field3) (f : Z) :
  0 <= l -> 2 ^ l2 <= nativeModulus -> 0 < f < 2 ^ l3 ->
  Field3_inRange x = true -> Field3_inRange y = true ->
  Field3_inRange xy = true ->
  Field3_toBigint x * Field3_toBigint y < f * f ->
  accepts (assertMulInternal x y (inl xy) f)
  = (Field3_toBigint xy =? (Field3_toBigint x * Field3_toBigint y) mod f).
Proof.
  intros Hl Hp Hf Rx Ry Rxy Hxy.
  set (m := (Field3_toBigint x * Field3_toBigint y) mod f).
  assert (Hm : 0 <= m < 2 ^ l3).
  { pose proof (Z.mod_pos_bound (Field3_toBigint x * Field3_toBigint y) f
                  ltac:(lia)). subst m. lia. }
  rewrite <- (@limbs_eq_value xy m Hl Rxy Hm).
  destruct xy as [[xy0 xy1] xy2]. rewrite assertMulInternal_inl.
  destruct (@assertMulInternal_honest x y
              (Field_add xy0 (Field_mul xy1 (Field_from (1 << l)))) xy2 f
              Hl Hp Hf Rx Ry Hxy) as (w & E & Pw).
  rewrite E. cbn [accepts]. rewrite Pw, negb_involutive. fold m.
  assert (R' := Rxy). unfold Field3_inRange in R'.
  apply andb_prop in R'; destruct R' as [R01 R2].
  apply andb_prop in R01; destruct R01 as [R0 R1].
  rewrite (@low_mid_value _ xy0 xy1 Hl Hp R0 R1). reflexivity.
Qed.

(** The native value of a weak bound on an [l]-bit limb. *)
Lemma weakBound_value (x : Field) (f : Z) :
  0 <= l -> 2 * 2 ^ l <= nativeModulus -> 0 <= f < 2 ^ l3 ->
  inRange l x = true ->
  Field_toBigInt (weakBound x f)
  = Field_toBigInt x + (2 ^ l - 1 - f / (2 ^ l * 2 ^ l)) /\
  0 <= f / (2 ^ l * 2 ^ l) < 2 ^ l.
Proof.
  intros Hl Hp Hf Rx. pose proof (pow2_l_pos Hl) as Hb.
  apply inRange_elim in Rx.
  assert (Hbb : 0 < 2 ^ l * 2 ^ l) by (clear - Hb; nia).
  assert (F2 : 0 <= f / (2 ^ l * 2 ^ l) < 2 ^ l).
  { split; [apply Z.div_pos; lia |].
    apply Z.div_lt_upper_bound; [exact Hbb |].
    rewrite pow2_l3 in Hf by assumption. clear - Hf. lia. }
  split; [| exact F2].
  unfold weakBound, lMask. cbn [Field_add Field_from Field_toBigInt].
  rewrite shl_pow2, shr_pow2, pow2_l2, Z.mul_1_l by (unfold l2; lia).
  rewrite Zplus_mod_idemp_r. apply Z.mod_small. lia.
Qed.

(** X14: the weak bound decides [x <= f >> l2]: for an [l]-bit limb [x],
    the value [weakBound x f] is itself an [l]-bit value exactly when [x]
    is at most the high limb of [f]. *)
Theorem weakBound_decides (x : Field) (f : Z) :
  0 <= l -> 2 * 2 ^ l <= nativeModulus -> 0 <= f < 2 ^ l3 ->
  inRange l x = true ->
  inRange l (weakBound x f) = (Field_toBigInt x <=? f >> l2).
Proof.
  intros Hl Hp Hf Rx.
  destruct (weakBound_value x Hl Hp Hf Rx) as [V F2].
  apply inRange_elim in Rx. unfold inRange. rewrite V.
  rewrite shr_pow2, pow2_l2 by (unfold l2; lia).
  destruct (Z.leb_spec (Field_toBigInt x) (f / (2 ^ l * 2 ^ l))).
  - apply andb_true_intro. split; [apply Z.leb_le | apply Z.ltb_lt]; lia.
  - apply andb_false_iff. right. apply Z.ltb_ge. lia.
Qed.

(** The high limb of a value below [f] is at most the high limb of [f]. *)
Lemma high_limb_le (z f z0 z1 z2 : Z) :
  0 <= l -> 0 <= z < f -> split z = (z0, z1, z2) -> f < 2 ^ l3 ->
  z2 <= f / (2 ^ l * 2 ^ l).
Proof.
  intros Hl Hz Sz Hf. pose proof (pow2_l_pos Hl) as Hb.
  assert (Hbb : 0 < 2 ^ l * 2 ^ l) by (clear - Hb; nia).
  rewrite split_spec in Sz by assumption. injection Sz as _ _ E2.
  rewrite pow2_l2 in E2 by assumption.
  assert (Hd : 0 <= z / (2 ^ l * 2 ^ l) < 2 ^ l).
  { split; [apply Z.div_pos; lia |].
    apply Z.div_lt_upper_bound; [exact Hbb |].
    rewrite pow2_l3 in Hf by assumption. clear - Hz Hf. lia. }
  rewrite Z.mod_small in E2 by exact Hd. subst z2.
  apply Z.div_le_mono; lia.
Qed.

(** The padded range check of the weak bound on a witnessed high limb. *)
Lemma weakBound_row_ok (z2 : Z) (f : Z) :
  0 <= l -> 2 * 2 ^ l <= nativeModulus -> 0 <= f < 2 ^ l3 ->
  0 <= z2 < 2 ^ l -> z2 <= f / (2 ^ l * 2 ^ l) ->
  let bnd := (weakBound (Field_witness z2) f, Field_from 0, Field_from 0) in
  multiRangeCheck bnd = (Ok tt, [Row_multiRangeCheck bnd]) /\
  Row_violated (Row_multiRangeCheck bnd) = false.
Proof.
  intros Hl Hp Hf Hz Hle bnd. pose proof (pow2_l_pos Hl) as Hb.
  split; [apply multiRangeCheck_provable; reflexivity |].
  apply Row_multiRangeCheck_ok. subst bnd. unfold Field3_inRange.
  assert (Rz : inRange l (Field_witness z2) = true).
  { unfold Field_witness. rewrite Z.mod_small by lia.
    now apply inRange_intro. }
  destruct (weakBound_value _ Hl Hp Hf Rz) as [V F2].
  assert (R0 : inRange l (Field_from 0) = true).
  { unfold Field_from. rewrite Zmod_0_l. apply inRange_intro. lia. }
  rewrite R0. rewrite !andb_true_r. unfold inRange. rewrite V.
  cbn [Field_witness Field_toBigInt]. rewrite Z.mod_small by lia.
  apply andb_true_intro. split; [apply Z.leb_le | apply Z.ltb_lt]; lia.
Qed.

Lemma pow2_l_ge_2 : 259 <= l3 -> 2 <= 2 ^ l /\ 2 * 2 ^ l <= 2 ^ l2.
Proof.
  intros Hl3. assert (Hl : 1 <= l) by (unfold l3 in Hl3; lia).
  assert (H : 2 ^ 1 <= 2 ^ l) by (apply Z.pow_le_mono_r; lia).
  change (2 ^ 1) with 2 in H. split; [exact H |].
  rewrite pow2_l2 by lia. nia.
Qed.

Lemma split_one : 259 <= l3 -> split 1 = (1, 0, 0).
Proof.
  intros Hl3. destruct (pow2_l_ge_2 Hl3) as [H2 _].
  assert (Hl : 0 <= l) by (unfold l3 in Hl3; lia).
  rewrite split_spec, pow2_l2 by assumption.
  rewrite !(Z.div_small 1), Z.mod_small, Zmod_0_l by nia. reflexivity.
Qed.

Lemma split_zero : 0 <= l -> split 0 = (0, 0, 0).
Proof.
  intros Hl. rewrite split_spec by assumption.
  now rewrite !Zdiv_0_l, !Zmod_0_l.
Qed.

(** The provable branch of [inverse], row by row. *)
Lemma inverse_provable (x : Field3) (f : Z) (i0 i1 i2 : Z) (wm : list Row) :
  1 < f < 2 ^ 259 -> Field3_isConstant x = false ->
  (if Z.gcd (Field3_toBigint x) f =? 1
   then split (Z.invmod (Field3_toBigint x) f) else (0, 0, 0))
  = (i0, i1, i2) ->
  let xInv := (Field_witness i0, Field_witness i1, Field_witness i2) in
  let bnd := (weakBound (Field_witness i2) f, Field_from 0, Field_from 0) in
  assertMulInternal x xInv (inr (Field_from 1, Field_from 0)) f
  = (Ok tt, wm) ->
  inverse x f
  = (Ok xInv,
     [Row_multiRangeCheck xInv] ++ wm ++ [Row_multiRangeCheck bnd]).
Proof.
  intros Hf C Ei xInv bnd Em. unfold inverse.
  rewrite modulus_guard_true, assert_true, bind_ret by apply Hf.
  rewrite C, modInverse_gt1, bind_ret by apply Hf.
  assert (Ew : (match (if Z.gcd (Field3_toBigint x) f =? 1
                       then Some (Z.invmod (Field3_toBigint x) f) else None)
                with
                | Some xInv0 =>
                    let '(j0, j1, j2) := split xInv0 in ret [j0; j1; j2]
                | None => ret [0; 0; 0]
                end) = ret [i0; i1; i2]).
  { destruct (Z.gcd (Field3_toBigint x) f =? 1).
    - now rewrite Ei.
    - now injection Ei as <- <- <-. }
  unfold exists_ at 1. rewrite Ew, bind_ret. cbn [length Nat.eqb].
  rewrite assert_true, !bind_ret. cbn [map]. fold xInv.
  rewrite (@multiRangeCheck_provable _ xInv) by reflexivity.
  rewrite bind_Ok. cbv zeta. unfold Field2. rewrite Em, bind_Ok. fold bnd.
  rewrite (@multiRangeCheck_provable _ bnd) by reflexivity.
  rewrite bind_Ok. cbn [fst snd ret app]. reflexivity.
Qed.

(** [inverse] of an invertible, range-checked [x] below [f]. *)
Lemma inverse_honest (x : Field3) (f : Z) :
  259 <= l3 -> 2 ^ l2 <= nativeModulus -> 1 < f < 2 ^ 259 ->
  Field3_inRange x = true -> Field3_toBigint x < f ->
  Z.gcd (Field3_toBigint x) f = 1 ->
  exists r w,
    inverse x f = (Ok r, w) /\ Field3_inRange r = true /\
    Field3_toBigint r = Z.invmod (Field3_toBigint x) f /\
    proofFails w = false.
Proof.
  intros Hl3 Hp Hf Rx HX Hg.
  assert (Hl : 0 <= l) by (unfold l3 in Hl3; lia).
  pose proof (pow2_l_pos Hl) as Hb. pose proof (pow2_259_l3 Hl3) as H259.
  destruct (pow2_l_ge_2 Hl3) as [H2 H22].
  pose proof (Field3_inRange_bound x Hl Rx) as BX.
  assert (Hf0 : 0 < f) by lia.
  destruct (@invmod_inverse (Field3_toBigint x) f Hf0 Hg) as [Hi Hone].
  set (inv := Z.invmod (Field3_toBigint x) f) in *.
  assert (Hp1 : 2 ^ l <= nativeModulus) by lia.
  assert (Hi3 : 0 <= inv < 2 ^ l3) by lia.
  destruct (Field3_isConstant x) eqn:C.
  - unfold inverse.
    rewrite modulus_guard_true, assert_true, bind_ret by lia.
    rewrite C, modInverse_gt1, bind_ret, Hg by lia. cbn [Z.eqb Pos.eqb].
    fold inv. exists (Field3_from inv), []. split; [reflexivity |].
    split; [now apply Field3_from_inRange |].
    split; [now apply Field3_toBigint_from | reflexivity].
  - pose proof (split_limbs_range inv Hl) as Ri.
    pose proof (combine_split Hi3) as Ci.
    destruct (split inv) as [[i0 i1] i2] eqn:Si.
    destruct Ri as (R0 & R1 & R2).
    destruct (witness3_inRange Hp1 R0 R1 R2) as [Iv Tv].
    set (xInv := (Field_witness i0, Field_witness i1, Field_witness i2)) in *.
    assert (Vv : Field3_toBigint xInv = inv)
      by (unfold Field3_toBigint; now rewrite Tv).
    assert (Hf3 : 0 < f < 2 ^ l3) by lia.
    assert (Hxy : Field3_toBigint x * Field3_toBigint xInv < f * f)
      by (rewrite Vv; clear - BX HX Hi; nia).
    destruct (@assertMulInternal_honest x xInv (Field_from 1) (Field_from 0)
                f Hl Hp Hf3 Rx Iv Hxy) as (wm & Em & Pm).
    assert (Hm : (Field3_toBigint x * Field3_toBigint xInv) mod f = 1).
    { rewrite Vv, Z.mul_comm, Hone. apply Z.mod_small. lia. }
    rewrite Hm, (split_one Hl3) in Pm. cbn [low2 snd] in Pm.
    rewrite combine2_spec in Pm by assumption.
    cbn [Field_from Field_toBigInt] in Pm.
    rewrite Zmod_0_l, (Z.mod_small 1) in Pm by lia.
    rewrite Z.mul_0_l, Z.add_0_r in Pm. cbn in Pm.
    assert (Ei : (if Z.gcd (Field3_toBigint x) f =? 1
                  then split (Z.invmod (Field3_toBigint x) f) else (0, 0, 0))
                 = (i0, i1, i2)).
    { rewrite Hg. cbn [Z.eqb Pos.eqb]. exact Si. }
    assert (Hf259 : 1 < f < 2 ^ 259) by lia.
    rewrite (@inverse_provable x f i0 i1 i2 wm Hf259 C Ei Em).
    fold xInv. eexists. eexists. split; [reflexivity |].
    split; [exact Iv |]. split; [exact Vv |].
    assert (Hp2 : 2 * 2 ^ l <= nativeModulus) by lia.
    assert (Hf3' : 0 <= f < 2 ^ l3) by lia.
    assert (Hle : i2 <= f / (2 ^ l * 2 ^ l))
      by (apply (@high_limb_le inv f i0 i1 i2); try assumption; lia).
    destruct (@weakBound_row_ok i2 f Hl Hp2 Hf3' R2 Hle) as [_ Vb].
    cbv zeta in Vb.
    rewrite !proofFails_app, Pm. unfold proofFails. cbn [existsb].
    rewrite Vb, (Row_multiRangeCheck_ok _ Iv). reflexivity.
Qed.

(** X15: [inverse] on an invertible input: for a range-checked [x] below
    [f] that is coprime to [f], it returns a range-checked triple in
    [[0, f)] holding the inverse, [r * x = 1 (mod f)], and the log it builds
    has no violated row. *)
Theorem inverse_sound (x : Field3) (f : Z) :
  259 <= l3 -> 2 ^ l2 <= nativeModulus -> 1 < f < 2 ^ 259 ->
  Field3_inRange x = true -> Field3_toBigint x < f ->
  Z.gcd (Field3_toBigint x) f = 1 ->
  exists r w,
    inverse x f = (Ok r, w) /\ Field3_inRange r = true /\
    0 <= Field3_toBigint r < f /\
    (Field3_toBigint r * Field3_toBigint x) mod f = 1 /\
    proofFails w = false.
Proof.
  intros Hl3 Hp Hf Rx HX Hg.
  destruct (@inverse_honest x f Hl3 Hp Hf Rx HX Hg)
    as (r & w & E & Ir & Vr & Pw).
  assert (Hf0 : 0 < f) by lia.
  destruct (@invmod_inverse (Field3_toBigint x) f Hf0 Hg) as [Hi Hone].
  exists r, w. split; [exact E |]. split; [exact Ir |]. rewrite Vr.
  split; [exact Hi |]. split; [| exact Pw].
  rewrite Hone. apply Z.mod_small. lia.
Qed.

(** X16: [inverse] rejects what has no inverse, in both modes: for a
    range-checked [x] below [f] with [gcd x f <> 1], a constant [x] throws
    "inverse exists" at once, and a symbolic [x] gets the filler triple
    [0] and a log in which the row binding the product to [1] is
    violated. *)
Theorem inverse_rejects (x : Field3) (f : Z) :
  259 <= l3 -> 2 ^ l2 <= nativeModulus -> 1 < f < 2 ^ 259 ->
  Field3_inRange x = true -> Field3_toBigint x < f ->
  Z.gcd (Field3_toBigint x) f <> 1 ->
  (Field3_isConstant x = true ->
   inverse x f = throw (AssertionError "inverse exists")) /\
  (Field3_isConstant x = false ->
   exists r w,
     inverse x f = (Ok r, w) /\ toBigint3 r = (0, 0, 0) /\
     proofFails w = true).
Proof.
  intros Hl3 Hp Hf Rx HX Hg.
  assert (Hl : 0 <= l) by (unfold l3 in Hl3; lia).
  pose proof (pow2_l_pos Hl) as Hb. pose proof (pow2_259_l3 Hl3) as H259.
  pose proof (Field3_inRange_bound x Hl Rx) as BX.
  apply Z.eqb_neq in Hg. split; intros C.
  - unfold inverse.
    rewrite modulus_guard_true, assert_true, bind_ret by lia.
    rewrite C, modInverse_gt1, bind_ret, Hg by lia. reflexivity.
  - assert (Hp1 : 2 ^ l <= nativeModulus)
      by (pose proof (pow2_l_le_l2 Hl); lia).
    assert (Z0 : 0 <= 0 < 2 ^ l) by lia.
    destruct (witness3_inRange Hp1 Z0 Z0 Z0) as [Iv Tv].
    set (xInv := (Field_witness 0, Field_witness 0, Field_witness 0)) in *.
    assert (Vv : Field3_toBigint xInv = 0).
    { unfold Field3_toBigint. rewrite Tv. apply combine_zero. }
    assert (Hf3 : 0 < f < 2 ^ l3) by lia.
    assert (Hxy : Field3_toBigint x * Field3_toBigint xInv < f * f)
      by (rewrite Vv; clear - Hf; nia).
    destruct (@assertMulInternal_honest x xInv (Field_from 1) (Field_from 0)
                f Hl Hp Hf3 Rx Iv Hxy) as (wm & Em & Pm).
    rewrite Vv, Z.mul_0_r, Zmod_0_l, (split_zero Hl) in Pm.
    cbn [low2 snd] in Pm. rewrite combine2_spec in Pm by assumption.
    cbn [Field_from Field_toBigInt] in Pm.
    destruct (pow2_l_ge_2 Hl3) as [H2 H22].
    rewrite (Z.mod_small 1) in Pm by lia.
    cbn in Pm.
    assert (Ei : (if Z.gcd (Field3_toBigint x) f =? 1
                  then split (Z.invmod (Field3_toBigint x) f) else (0, 0, 0))
                 = (0, 0, 0)) by (now rewrite Hg).
    assert (Hf259 : 1 < f < 2 ^ 259) by lia.
    rewrite (@inverse_provable x f 0 0 0 wm Hf259 C Ei Em).
    fold xInv. eexists. eexists. split; [reflexivity |].
    split; [exact Tv |].
    rewrite !proofFails_app, Pm. now rewrite orb_true_r.
Qed.

(** The provable branch of [divide], row by row. *)
Lemma divide_provable_log (x : Field3) (y0 y1 y2 : Field) (f : Z)
  (z0 z1 z2 : Z) (wm : list Row) :
  1 < f < 2 ^ 259 ->
  Field3_isConstant x && Field3_isConstant (y0, y1, y2) = false ->
  (if Z.gcd (Field3_toBigint (y0, y1, y2)) f =? 1
   then split ((Field3_toBigint x
                * Z.invmod (Field3_toBigint (y0, y1, y2)) f) mod f)
   else (0, 0, 0)) = (z0, z1, z2) ->
  let z := (Field_witness z0, Field_witness z1, Field_witness z2) in
  let bnd := (weakBound (Field_witness z2) f, Field_from 0, Field_from 0) in
  let y01 := Field_add y0 (Field_mul y1 (Field_from (1 << l))) in
  let b1 := Bool_and (Field_equals y01 (Field_from 0))
                     (Field_equals y2 (Field_from 0)) in
  let b2 := Bool_and
              (Field_equals y01 (Field_from (combine2 (low2 (split f)))))
              (Field_equals y2 (Field_from (snd (split f)))) in
  assertMulInternal z (y0, y1, y2) (inl x) f = (Ok tt, wm) ->
  forall allowZeroOverZero : bool,
    divide x (y0, y1, y2) f allowZeroOverZero
    = ((Ok tt, [Row_multiRangeCheck z] ++ wm ++ [Row_multiRangeCheck bnd]) ;;;
       (if negb allowZeroOverZero
        then Bool_assertFalse b1 ;;; Bool_assertFalse b2
        else ret tt) ;;;
       ret z).
Proof.
  intros Hf C Ez z bnd y01 b1 b2 Em allowZeroOverZero. unfold divide.
  rewrite modulus_guard_true, assert_true, bind_ret by apply Hf.
  rewrite C, modInverse_gt1 by apply Hf.
  assert (Ev : (yInv <- ret (if Z.gcd (Field3_toBigint (y0, y1, y2)) f =? 1
                             then Some (Z.invmod
                                          (Field3_toBigint (y0, y1, y2)) f)
                             else None) ;;
                match yInv with
                | Some yInv0 =>
                    m <- mod_ (Field3_toBigint x * yInv0) f ;;
                    (let '(j0, j1, j2) := split m in ret [j0; j1; j2])
                | None => ret [0; 0; 0]
                end) = ret [z0; z1; z2]).
  { rewrite bind_ret.
    destruct (Z.gcd (Field3_toBigint (y0, y1, y2)) f =? 1).
    - rewrite mod_spec, bind_ret by lia. now rewrite Ez.
    - now injection Ez as <- <- <-. }
  unfold exists_ at 1. rewrite Ev, bind_ret. cbn [length Nat.eqb].
  rewrite assert_true, !bind_ret. cbn [map]. fold z.
  rewrite (@multiRangeCheck_provable _ z) by reflexivity.
  cbv zeta. rewrite Em, bind_Ok_Ok. fold bnd.
  rewrite (@multiRangeCheck_provable _ bnd) by reflexivity.
  rewrite bind_Ok_Ok.
  destruct (split f) as [[f0 f1] f2]. cbn [low2 snd] in b2.
  rewrite <- app_assoc. reflexivity.
Qed.

Lemma accepts_Bool_assertFalse (b : Bool) :
  accepts (Bool_assertFalse b) = negb (Bool_toBoolean b).
Proof.
  destruct b as [[|] [|]]; reflexivity.
Qed.

(** The zero guard of [divide] on a divisor that is neither [0] nor [f]. *)
Lemma zero_guard_passes (y0 y1 y2 : Field) (f : Z) (allow : bool) :
  0 <= l -> 2 ^ l2 <= nativeModulus -> 0 <= f < 2 ^ l3 ->
  Field3_inRange (y0, y1, y2) = true ->
  Field3_toBigint (y0, y1, y2) <> 0 -> Field3_toBigint (y0, y1, y2) <> f ->
  let y01 := Field_add y0 (Field_mul y1 (Field_from (1 << l))) in
  let b1 := Bool_and (Field_equals y01 (Field_from 0))
                     (Field_equals y2 (Field_from 0)) in
  let b2 := Bool_and
              (Field_equals y01 (Field_from (combine2 (low2 (split f)))))
              (Field_equals y2 (Field_from (snd (split f)))) in
  exists wg,
    (if negb allow then (Bool_assertFalse b1 ;;; Bool_assertFalse b2)
     else ret tt) = (Ok tt, wg) /\ proofFails wg = false.
Proof.
  intros Hl Hp Hf R Y0 Yf y01 b1 b2.
  destruct (@zero_guard_values _ y0 y1 y2 f Hl Hp Hf R)
    as (_ & _ & Z1 & Z2).
  fold y01 in Z1, Z2. fold b1 in Z1. fold b2 in Z2.
  assert (N1 : Bool_toBoolean b1 = false).
  { destruct (Bool_toBoolean b1); [now elim Y0; apply Z1 | reflexivity]. }
  assert (N2 : Bool_toBoolean b2 = false).
  { destruct (Bool_toBoolean b2); [now elim Yf; apply Z2 | reflexivity]. }
  destruct allow; cbn [negb].
  - exists []. split; reflexivity.
  - unfold Bool_assertFalse. rewrite N1, N2. cbn [negb].
    destruct (Bool_isConstant b1), (Bool_isConstant b2);
      eexists; (split; [reflexivity |]); unfold proofFails;
      cbn [app existsb Row_violated orb]; rewrite ?N1, ?N2; reflexivity.
Qed.

(** [divide] by an invertible, range-checked [y] below [f]. *)
Lemma divide_honest (x y : Field3) (f : Z) (allow : bool) :
  259 <= l3 -> 2 ^ l2 <= nativeModulus -> 1 < f < 2 ^ 259 ->
  Field3_inRange x = true -> Field3_inRange y = true ->
  Field3_toBigint x < f -> Field3_toBigint y < f ->
  Z.gcd (Field3_toBigint y) f = 1 ->
  exists z w,
    divide x y f allow = (Ok z, w) /\ Field3_inRange z = true /\
    Field3_toBigint z
    = (Field3_toBigint x * Z.invmod (Field3_toBigint y) f) mod f /\
    proofFails w = false.
Proof.
  intros Hl3 Hp Hf Rx Ry HX HY Hg.
  assert (Hl : 0 <= l) by (unfold l3 in Hl3; lia).
  pose proof (pow2_l_pos Hl) as Hb. pose proof (pow2_259_l3 Hl3) as H259.
  destruct (pow2_l_ge_2 Hl3) as [H2 H22].
  pose proof (Field3_inRange_bound x Hl Rx) as BX.
  pose proof (Field3_inRange_bound y Hl Ry) as BY.
  assert (Hf0 : 0 < f) by lia.
  destruct (@invmod_inverse (Field3_toBigint y) f Hf0 Hg) as [Hi Hone].
  set (m := (Field3_toBigint x * Z.invmod (Field3_toBigint y) f) mod f).
  assert (Hm : 0 <= m < f) by (subst m; apply Z.mod_pos_bound; lia).
  assert (Hcancel : (m * Field3_toBigint y) mod f = Field3_toBigint x).
  { subst m. rewrite mul_inverse_cancel by exact Hone.
    apply Z.mod_small. lia. }
  assert (Hp1 : 2 ^ l <= nativeModulus) by lia.
  assert (Hm3 : 0 <= m < 2 ^ l3) by lia.
  assert (Hf259 : 1 < f < 2 ^ 259) by lia.
  destruct (Field3_isConstant x && Field3_isConstant y) eqn:C.
  - unfold divide.
    rewrite modulus_guard_true, assert_true, bind_ret by lia.
    rewrite C, modInverse_gt1, bind_ret, Hg by lia. cbn [Z.eqb Pos.eqb].
    rewrite mod_spec, bind_ret by lia. fold m.
    exists (Field3_from m), []. split; [reflexivity |].
    split; [now apply Field3_from_inRange |].
    split; [now apply Field3_toBigint_from | reflexivity].
  - destruct y as [[y0 y1] y2].
    pose proof (split_limbs_range m Hl) as Rm.
    pose proof (combine_split Hm3) as Cm.
    destruct (split m) as [[z0 z1] z2] eqn:Sm.
    destruct Rm as (R0 & R1 & R2).
    destruct (witness3_inRange Hp1 R0 R1 R2) as [Iz Tz].
    set (z := (Field_witness z0, Field_witness z1, Field_witness z2)) in *.
    assert (Vz : Field3_toBigint z = m)
      by (unfold Field3_toBigint; now rewrite Tz).
    assert (Hf3 : 0 < f < 2 ^ l3) by lia.
    assert (Hzy : Field3_toBigint z * Field3_toBigint (y0, y1, y2) < f * f)
      by (rewrite Vz; clear - BY HY Hm; nia).
    (* the rows of the multiplication *)
    assert (Pm : exists wm,
               assertMulInternal z (y0, y1, y2) (inl x) f = (Ok tt, wm)
               /\ proofFails wm = false).
    { assert (Rx' := Rx). destruct x as [[x0 x1] x2].
      rewrite assertMulInternal_inl.
      destruct (@assertMulInternal_honest z (y0, y1, y2)
                  (Field_add x0 (Field_mul x1 (Field_from (1 << l)))) x2 f
                  Hl Hp Hf3 Iz Ry Hzy) as (wm & Em & Pm).
      exists wm. split; [exact Em |]. rewrite Pm, Vz, Hcancel.
      unfold Field3_inRange in Rx'.
      apply andb_prop in Rx'; destruct Rx' as [R01 Rx2].
      apply andb_prop in R01; destruct R01 as [Rx0 Rx1].
      rewrite (@low_mid_value _ x0 x1 Hl Hp Rx0 Rx1).
      assert (HX3 : 0 <= Field3_toBigint (x0, x1, x2) < 2 ^ l3) by lia.
      pose proof (@limbs_eq_value (x0, x1, x2) _ Hl Rx HX3) as LE.
      cbn [toBigint3 low2 snd] in LE. rewrite LE, Z.eqb_refl. reflexivity. }
    destruct Pm as (wm & Em & Pm).
    assert (Ez : (if Z.gcd (Field3_toBigint (y0, y1, y2)) f =? 1
                  then split ((Field3_toBigint x
                               * Z.invmod (Field3_toBigint (y0, y1, y2)) f)
                              mod f)
                  else (0, 0, 0)) = (z0, z1, z2)).
    { rewrite Hg. cbn [Z.eqb Pos.eqb]. exact Sm. }
    rewrite (@divide_provable_log x y0 y1 y2 f z0 z1 z2 wm Hf259 C Ez Em).
    assert (Y0 : Field3_toBigint (y0, y1, y2) <> 0).
    { intros E0. rewrite E0, Z.gcd_0_l, Z.abs_eq in Hg by lia. lia. }
    assert (Yf : Field3_toBigint (y0, y1, y2) <> f) by lia.
    assert (Hf3' : 0 <= f < 2 ^ l3) by lia.
    destruct (@zero_guard_passes y0 y1 y2 f allow Hl Hp Hf3' Ry Y0 Yf)
      as (wg & Eg & Pg).
    cbv zeta in Eg. rewrite Eg, bind_Ok_Ok, bind_Ok. fold z.
    eexists. eexists. split; [reflexivity |].
    split; [exact Iz |]. split; [exact Vz |].
    assert (Hp2 : 2 * 2 ^ l <= nativeModulus) by lia.
    assert (Hle : z2 <= f / (2 ^ l * 2 ^ l))
      by (apply (@high_limb_le m f z0 z1 z2); try assumption; lia).
    destruct (@weakBound_row_ok z2 f Hl Hp2 Hf3' R2 Hle) as [_ Vb].
    cbv zeta in Vb. cbn [snd ret].
    rewrite !proofFails_app, Pm, Pg. unfold proofFails. cbn [existsb].
    rewrite Vb, (Row_multiRangeCheck_ok _ Iz). reflexivity.
Qed.

(** X17: [divide] is closed on valid operands: for range-checked [x], [y]
    below [f] with [y] coprime to [f], and either setting of
    [allowZeroOverZero], it returns a range-checked triple in [[0, f)] and
    the log it builds (the weak bound on the quotient and the zero guard
    on [y] included) has no violated row. *)
Theorem divide_accepted (x y : Field3) (f : Z) (allowZeroOverZero : bool) :
  259 <= l3 -> 2 ^ l2 <= nativeModulus -> 1 < f < 2 ^ 259 ->
  Field3_inRange x = true -> Field3_inRange y = true ->
  Field3_toBigint x < f -> Field3_toBigint y < f ->
  Z.gcd (Field3_toBigint y) f = 1 ->
  exists z w,
    divide x y f allowZeroOverZero = (Ok z, w) /\
    Field3_inRange z = true /\ 0 <= Field3_toBigint z < f /\
    proofFails w = false.
Proof.
  intros Hl3 Hp Hf Rx Ry HX HY Hg.
  destruct (@divide_honest x y f allowZeroOverZero Hl3 Hp Hf Rx Ry HX HY Hg)
    as (z & w & E & Iz & Vz & Pw).
  exists z, w. split; [exact E |]. split; [exact Iz |].
  split; [rewrite Vz; apply Z.mod_pos_bound; lia | exact Pw].
Qed.


(** X19: [divide] by a divisor without inverse, [gcd y f <> 1]: constant
    operands throw "inverse exists" whatever [x] is, while the provable
    branch witnesses the filler quotient [0] and, with [allowZeroOverZero],
    builds a log that has a violated row exactly when [x <> 0]: [0 / y]
    is accepted there, for [y = 0] as for any other such [y]. *)
Theorem divide_noninvertible (x y : Field3) (f : Z) :
  259 <= l3 -> 2 ^ l2 <= nativeModulus -> 1 < f < 2 ^ 259 ->
  Field3_inRange x = true -> Field3_inRange y = true ->
  Z.gcd (Field3_toBigint y) f <> 1 ->
  (Field3_isConstant x && Field3_isConstant y = true ->
   forall allowZeroOverZero,
     divide x y f allowZeroOverZero
     = throw (AssertionError "inverse exists")) /\
  (Field3_isConstant x && Field3_isConstant y = false ->
   exists z w,
     divide x y f true = (Ok z, w) /\ toBigint3 z = (0, 0, 0) /\
     proofFails w = negb (Field3_toBigint x =? 0)).
Proof.
  intros Hl3 Hp Hf Rx Ry Hg.
  assert (Hl : 0 <= l) by (unfold l3 in Hl3; lia).
  pose proof (pow2_l_pos Hl) as Hb. pose proof (pow2_259_l3 Hl3) as H259.
  destruct (pow2_l_ge_2 Hl3) as [H2 H22].
  apply Z.eqb_neq in Hg. assert (Hf259 : 1 < f < 2 ^ 259) by lia.
  split; intros C.
  - intros allow. unfold divide.
    rewrite modulus_guard_true, assert_true, bind_ret by lia.
    rewrite C, modInverse_gt1, bind_ret, Hg by lia. reflexivity.
  - destruct y as [[y0 y1] y2].
    assert (Hp1 : 2 ^ l <= nativeModulus) by lia.
    assert (Z0 : 0 <= 0 < 2 ^ l) by lia.
    destruct (witness3_inRange Hp1 Z0 Z0 Z0) as [Iz Tz].
    set (z := (Field_witness 0, Field_witness 0, Field_witness 0)) in *.
    assert (Vz : Field3_toBigint z = 0).
    { unfold Field3_toBigint. rewrite Tz. apply combine_zero. }
    assert (Hf3 : 0 < f < 2 ^ l3) by lia.
    assert (Hzy : Field3_toBigint z * Field3_toBigint (y0, y1, y2) < f * f)
      by (rewrite Vz; clear - Hf; nia).
    assert (Pm : exists wm,
               assertMulInternal z (y0, y1, y2) (inl x) f = (Ok tt, wm)
               /\ proofFails wm = negb (Field3_toBigint x =? 0)).
    { assert (Rx' := Rx). destruct x as [[x0 x1] x2].
      rewrite assertMulInternal_inl.
      destruct (@assertMulInternal_honest z (y0, y1, y2)
                  (Field_add x0 (Field_mul x1 (Field_from (1 << l)))) x2 f
                  Hl Hp Hf3 Iz Ry Hzy) as (wm & Em & Pm).
      exists wm. split; [exact Em |]. rewrite Pm, Vz, Z.mul_0_l, Zmod_0_l.
      unfold Field3_inRange in Rx'.
      apply andb_prop in Rx'; destruct Rx' as [R01 Rx2].
      apply andb_prop in R01; destruct R01 as [Rx0 Rx1].
      rewrite (@low_mid_value _ x0 x1 Hl Hp Rx0 Rx1).
      assert (H03 : 0 <= 0 < 2 ^ l3) by lia.
      pose proof (@limbs_eq_value (x0, x1, x2) 0 Hl Rx H03) as LE.
      cbn [toBigint3 low2 snd] in LE. now rewrite LE. }
    destruct Pm as (wm & Em & Pm).
    assert (Ez : (if Z.gcd (Field3_toBigint (y0, y1, y2)) f =? 1
                  then split ((Field3_toBigint x
                               * Z.invmod (Field3_toBigint (y0, y1, y2)) f)
                              mod f)
                  else (0, 0, 0)) = (0, 0, 0)) by (now rewrite Hg).
    rewrite (@divide_provable_log x y0 y1 y2 f 0 0 0 wm Hf259 C Ez Em).
    cbn [negb]. rewrite bind_ret, bind_Ok. fold z.
    eexists. eexists. split; [reflexivity |]. split; [exact Tz |].
    assert (Hp2 : 2 * 2 ^ l <= nativeModulus) by lia.
    assert (Hf3' : 0 <= f < 2 ^ l3) by lia.
    assert (Hle : 0 <= f / (2 ^ l * 2 ^ l)) by (apply Z.div_pos; nia).
    destruct (@weakBound_row_ok 0 f Hl Hp2 Hf3' Z0 Hle) as [_ Vb].
    cbv zeta in Vb. cbn [snd ret].
    rewrite !proofFails_app, Pm. unfold proofFails. cbn [existsb].
    rewrite Vb, (Row_multiRangeCheck_ok _ Iz). cbn [orb].
    now rewrite !orb_false_r.
Qed.

End Products.

Section Amortizer.
Context {cfg : Params}.

Lemma accepts_bind (A B : Type) (m : M A) (k : A -> M B) :
  accepts (bind m k)
  = match m with
    | (Ok a, w) => negb (proofFails w) && accepts (k a)
    | (Err _, _) => false
    end.
Proof.
  destruct m as [[a | e] w]; [| reflexivity].
  rewrite bind_Ok. destruct (k a) as [[b | e] w']; cbn [fst snd accepts].
  - now rewrite proofFails_app, negb_orb.
  - now rewrite andb_false_r.
Qed.

Lemma accepts_multiRangeCheck (x : Field3) :
  accepts (multiRangeCheck x) = Field3_inRange x.
Proof.
  destruct x as [[x0 x1] x2]. unfold multiRangeCheck, Field3_inRange.
  destruct (Field_isConstant x0 && Field_isConstant x1 && Field_isConstant x2).
  - destruct (inRange l x0 && inRange l x1 && inRange l x2); reflexivity.
  - cbn [emit accepts proofFails existsb Row_violated].
    now rewrite orb_false_r, negb_involutive.
Qed.

(** What [multiRangeCheck] leaves behind: a log whose rows hold exactly
    when the triple is in range, or a throw on a constant out of range. *)
Lemma multiRangeCheck_outcome (x : Field3) :
  match multiRangeCheck x with
  | (Ok _, w) => negb (proofFails w) = Field3_inRange x
  | (Err _, _) => Field3_inRange x = false
  end.
Proof.
  pose proof (accepts_multiRangeCheck x) as H.
  destruct (multiRangeCheck x) as [[u | e] w]; cbn [accepts] in H; now symmetry.
Qed.

Lemma inRange_Field_from_0 : 0 <= l -> inRange l (Field_from 0) = true.
Proof.
  intros Hl. pose proof (pow2_l_pos Hl). unfold Field_from.
  rewrite Zmod_0_l. apply inRange_intro. lia.
Qed.

(** The loop of [assertAlmostFieldElements], with [bounds] pending: what is
    accepted so far, together with the range of what is still pending. *)
Lemma assertAlmostFieldElements_loop_accepts (f : Z) (xs : list Field3) :
  forall bounds : list Field,
    (length bounds < 3)%nat ->
    let good := fun x : Field3 =>
      Field3_inRange x && inRange l (weakBound (snd x) f) in
    match assertAlmostFieldElements_loop xs f bounds with
    | (Ok bs, w) =>
        (length bs < 3)%nat /\
        negb (proofFails w) && forallb (inRange l) bs
        = forallb (inRange l) bounds && forallb good xs
    | (Err _, _) => forallb (inRange l) bounds && forallb good xs = false
    end.
Proof.
  induction xs as [| x xs' IH]; intros bounds Hlen good.
  - cbn. split; [exact Hlen |]. now rewrite andb_true_r.
  - cbn [assertAlmostFieldElements_loop forallb].
    pose proof (multiRangeCheck_outcome x) as Hx.
    destruct (multiRangeCheck x) as [[u | e] w1].
    2:{ rewrite bind_Err. unfold good at 1. rewrite Hx.
        now rewrite andb_false_r. }
    rewrite bind_Ok. cbn [fst snd].
    set (wb := weakBound (snd x) f).
    assert (Gx : good x = negb (proofFails w1) && inRange l wb)
      by (unfold good; now rewrite Hx).
    destruct bounds as [| a [| b [| c rest]]]; cbn [app].
    + specialize (IH [wb] ltac:(simpl; lia)). cbv zeta in IH. fold good in IH.
      destruct (assertAlmostFieldElements_loop xs' f [wb]) as [[bs | e] w2];
        cbn [fst snd].
      * destruct IH as [L E]. split; [exact L |].
        rewrite proofFails_app, negb_orb, <- andb_assoc, E, Gx.
        cbn [forallb]. now rewrite andb_true_r, andb_assoc.
      * rewrite Gx. cbn [forallb] in IH |- *.
        rewrite andb_true_r in IH. rewrite andb_true_l, <- andb_assoc, IH.
        apply andb_false_r.
    + specialize (IH [a; wb] ltac:(simpl; lia)). cbv zeta in IH.
      fold good in IH.
      destruct (assertAlmostFieldElements_loop xs' f [a; wb])
        as [[bs | e] w2]; cbn [fst snd].
      * destruct IH as [L E]. split; [exact L |].
        rewrite proofFails_app, negb_orb, <- andb_assoc, E, Gx.
        cbn [forallb]. rewrite !andb_true_r.
        destruct (negb (proofFails w1)), (inRange l a), (inRange l wb),
          (forallb good xs'); reflexivity.
      * rewrite Gx. cbn [forallb] in IH |- *. rewrite !andb_true_r in *.
        destruct (negb (proofFails w1)), (inRange l a), (inRange l wb),
          (forallb good xs'); try reflexivity; discriminate.
    + specialize (IH [] ltac:(simpl; lia)). cbv zeta in IH. fold good in IH.
      cbn [forallb] in IH. rewrite andb_true_l in IH.
      pose proof (multiRangeCheck_outcome (a, b, wb)) as Hg.
      unfold Field3_inRange in Hg.
      destruct (multiRangeCheck (a, b, wb)) as [[u' | e] wg].
      2:{ rewrite bind_Err. cbn [fst snd]. rewrite Gx. cbn [forallb].
          rewrite andb_true_r.
          destruct (negb (proofFails w1)), (inRange l a), (inRange l b),
            (inRange l wb), (forallb good xs'); try reflexivity;
            discriminate. }
      rewrite bind_Ok. cbn [fst snd].
      destruct (assertAlmostFieldElements_loop xs' f []) as [[bs | e] w2];
        cbn [fst snd].
      * destruct IH as [L E]. split; [exact L |].
        rewrite !proofFails_app, !negb_orb, <- !andb_assoc, E, Hg, Gx.
        cbn [forallb]. rewrite !andb_true_r.
        destruct (negb (proofFails w1)), (inRange l a), (inRange l b),
          (inRange l wb), (forallb good xs'); reflexivity.
      * rewrite Gx. cbn [forallb]. rewrite !andb_true_r, IH.
        now rewrite !andb_false_r.
    + simpl in Hlen. lia.
Qed.

Lemma forallb_pointwise (A : Type) (p q : A -> bool) (xs : list A) :
  (forall x, p x = q x) -> forallb p xs = forallb q xs.
Proof.
  intros H. induction xs as [| x xs' IH]; [reflexivity |].
  cbn [forallb]. now rewrite H, IH.
Qed.

(** When the weak bound of an [l]-bit limb is itself in range. *)
Lemma weakBound_inRange_iff (x : Field) (f : Z) :
  0 <= l -> 2 * 2 ^ l <= nativeModulus -> 0 <= f < 2 ^ l3 ->
  inRange l x = true ->
  inRange l (weakBound x f) = (Field_toBigInt x <=? f >> l2).
Proof.
  intros Hl Hp Hf Rx.
  destruct (weakBound_value x Hl Hp Hf Rx) as [V F2].
  apply inRange_elim in Rx. unfold inRange. rewrite V.
  rewrite shr_pow2, pow2_l2 by (unfold l2; lia).
  destruct (Z.leb_spec (Field_toBigInt x) (f / (2 ^ l * 2 ^ l))).
  - apply andb_true_intro. split; [apply Z.leb_le | apply Z.ltb_lt]; lia.
  - apply andb_false_iff. right. apply Z.ltb_ge. lia.
Qed.

(** X20: [assertAlmostFieldElements] accepts exactly the lists of almost
    field elements: whatever mix of constants and variables the triples
    are, the run is accepted (nothing thrown, no violated row) exactly when
    every triple is range-checked and has its high limb at most the high
    limb of [f]. *)
Theorem assertAlmostFieldElements_decides (xs : list Field3) (f : Z) :
  0 <= l -> 2 * 2 ^ l <= nativeModulus -> 0 <= f < 2 ^ l3 ->
  accepts (assertAlmostFieldElements xs f)
  = forallb (fun x : Field3 =>
               Field3_inRange x && (Field_toBigInt (snd x) <=? f >> l2)) xs.
Proof.
  intros Hl Hp Hf.
  assert (G : forall x : Field3,
             Field3_inRange x && inRange l (weakBound (snd x) f)
             = Field3_inRange x && (Field_toBigInt (snd x) <=? f >> l2)).
  { intros [[x0 x1] x2]. cbn [snd].
    destruct (Field3_inRange (x0, x1, x2)) eqn:R; [| reflexivity].
    cbn [andb]. apply weakBound_inRange_iff; try assumption.
    unfold Field3_inRange in R. apply andb_prop in R. apply R. }
  rewrite <- (forallb_pointwise _ _ xs G).
  pose proof (inRange_Field_from_0 Hl) as R0.
  unfold assertAlmostFieldElements.
  pose proof (@assertAlmostFieldElements_loop_accepts f xs []
                ltac:(simpl; lia)) as H.
  cbv zeta in H. cbn [forallb] in H. rewrite andb_true_l in H.
  rewrite accepts_bind.
  destruct (assertAlmostFieldElements_loop xs f []) as [[bs | e] w];
    [| now symmetry].
  destruct H as [L E]. rewrite <- E.
  destruct bs as [| a [| b [| c rest]]]; cbn [forallb].
  - rewrite bind_ret. reflexivity.
  - rewrite accepts_bind.
    pose proof (multiRangeCheck_outcome (a, Field_from 0, Field_from 0)) as Hg.
    unfold Field3_inRange in Hg. rewrite R0, !andb_true_r in Hg.
    destruct (multiRangeCheck (a, Field_from 0, Field_from 0))
      as [[u | e] wg].
    + rewrite Hg. cbn [accepts ret proofFails existsb negb].
      now rewrite !andb_true_r.
    + rewrite Hg. cbn [andb]. now rewrite !andb_false_r.
  - rewrite bind_ret.
    pose proof (accepts_multiRangeCheck (a, b, Field_from 0)) as Hg.
    unfold Field3_inRange in Hg. rewrite R0, !andb_true_r in Hg.
    rewrite Hg. now rewrite andb_true_r.
  - simpl in L. lia.
Qed.

Lemma high_limb_variable (x : Field3) :
  Field_isConstant (snd x) = false -> Field3_isConstant x = false.
Proof.
  destruct x as [[x0 x1] x2]. cbn [snd Field3_isConstant]. intros ->.
  apply andb_false_r.
Qed.

(** The rows of the loop of [assertAlmostFieldElements] on triples with a
    variable high limb: one per triple and one per full group of three. *)
Lemma assertAlmostFieldElements_loop_rows (f : Z) (xs : list Field3) :
  Forall (fun x : Field3 => Field_isConstant (snd x) = false) xs ->
  forall bounds : list Field,
    (length bounds < 3)%nat ->
    Forall (fun b => Field_isConstant b = false) bounds ->
    exists bs w g,
      assertAlmostFieldElements_loop xs f bounds = (Ok bs, w) /\
      length w = (length xs + g)%nat /\
      (3 * g + length bs = length bounds + length xs)%nat /\
      (length bs < 3)%nat /\
      Forall (fun b => Field_isConstant b = false) bs /\
      Forall (fun r => exists t, r = Row_multiRangeCheck t) w.
Proof.
  induction 1 as [| x xs' Hx Hxs IH]; intros bounds Hlen Hb.
  - exists bounds, [], 0%nat. cbn.
    repeat split; try assumption; try constructor; lia.
  - cbn [assertAlmostFieldElements_loop].
    rewrite (multiRangeCheck_provable _ (high_limb_variable _ Hx)), bind_Ok.
    cbn [fst snd].
    set (wb := weakBound (snd x) f).
    assert (Cw : Field_isConstant wb = false).
    { subst wb. unfold weakBound. cbn [Field_add Field_isConstant].
      now rewrite Hx. }
    destruct bounds as [| a [| b [| c rest]]]; cbn [app].
    + destruct (IH [wb] ltac:(simpl; lia) ltac:(repeat constructor; assumption))
        as (bs & w & g & E & Lw & Lg & Lb & Cb & Fw).
      rewrite E. exists bs, ([Row_multiRangeCheck x] ++ w), g.
      split; [reflexivity |]. cbn [length app] in *.
      repeat split; try assumption; try lia.
      constructor; [now eexists | exact Fw].
    + destruct (IH [a; wb] ltac:(simpl; lia)
                  ltac:(inversion Hb; repeat constructor; assumption))
        as (bs & w & g & E & Lw & Lg & Lb & Cb & Fw).
      rewrite E. exists bs, ([Row_multiRangeCheck x] ++ w), g.
      split; [reflexivity |]. cbn [length app] in *.
      repeat split; try assumption; try lia.
      constructor; [now eexists | exact Fw].
    + assert (Cg : Field3_isConstant (a, b, wb) = false)
        by (cbn [Field3_isConstant]; rewrite Cw; apply andb_false_r).
      rewrite (multiRangeCheck_provable _ Cg), bind_Ok. cbn [fst snd].
      destruct (IH [] ltac:(simpl; lia) ltac:(constructor))
        as (bs & w & g & E & Lw & Lg & Lb & Cb & Fw).
      rewrite E.
      exists bs, ([Row_multiRangeCheck x]
                  ++ [Row_multiRangeCheck (a, b, wb)] ++ w), (S g).
      split; [reflexivity |]. cbn [length app] in *.
      repeat split; try assumption; try lia.
      constructor; [now eexists |]. constructor; [now eexists | exact Fw].
    + simpl in Hlen. lia.
Qed.

(** X21: the cost of [assertAlmostFieldElements]: on [n] triples whose high
    limb is a variable it never throws and emits [n + ceil(n/3)] multi-range
    checks, one per triple and one per group of up to three bounds. *)
Theorem assertAlmostFieldElements_rows (xs : list Field3) (f : Z) :
  Forall (fun x : Field3 => Field_isConstant (snd x) = false) xs ->
  exists w,
    assertAlmostFieldElements xs f = (Ok tt, w) /\
    length w = (length xs + (length xs + 2) / 3)%nat /\
    Forall (fun r => exists t, r = Row_multiRangeCheck t) w.
Proof.
  intros Hxs. unfold assertAlmostFieldElements.
  destruct (@assertAlmostFieldElements_loop_rows f xs Hxs []
              ltac:(simpl; lia) ltac:(constructor))
    as (bs & w & g & E & Lw & Lg & Lb & Cb & Fw).
  rewrite E, bind_Ok. cbn [fst snd length Nat.add] in *.
  destruct bs as [| a [| b [| c rest]]]; cbn [length] in *.
  - rewrite !bind_ret. exists w. rewrite app_nil_r.
    split; [reflexivity |]. split; [| exact Fw].
    rewrite Lw. replace (length xs + 2)%nat with (2 + g * 3)%nat by lia.
    rewrite Nat.div_add by lia. cbn. lia.
  - assert (Cg : Field3_isConstant (a, Field_from 0, Field_from 0) = false)
      by (inversion Cb; subst; cbn [Field3_isConstant];
          now replace (Field_isConstant a) with false).
    rewrite (multiRangeCheck_provable _ Cg), bind_Ok. cbn [fst snd ret].
    eexists. split; [reflexivity |]. split.
    + rewrite !length_app. cbn [length]. rewrite Lw.
      replace (length xs + 2)%nat with (0 + (g + 1) * 3)%nat by lia.
      rewrite Nat.div_add by lia. cbn. lia.
    + apply Forall_app. split; [exact Fw |]. repeat constructor. now eexists.
  - assert (Cg : Field3_isConstant (a, b, Field_from 0) = false)
      by (inversion Cb; subst; cbn [Field3_isConstant];
          now replace (Field_isConstant a) with false).
    rewrite bind_ret, (multiRangeCheck_provable _ Cg).
    eexists. split; [reflexivity |]. split.
    + rewrite !length_app. cbn [length]. rewrite Lw.
      replace (length xs + 2)%nat with (1 + (g + 1) * 3)%nat by lia.
      rewrite Nat.div_add by lia. cbn. lia.
    + apply Forall_app. split; [exact Fw |]. repeat constructor. now eexists.
  - lia.
Qed.

End Amortizer.

Section DeferredChains.
Context {cfg : Params}.

(** X22: a deferred chain is the immediate sum: after [new Sum(x)] and at
    least one [add] / [sub], [finish f] followed by [rangeCheck] is
    [sum] on the same terms and signs: the same result or the same throw,
    and the same rows in the same order. *)
Theorem Sum_finish_rangeCheck_is_sum (x : Field3) (ys : list (Sign * Field3))
  (f : Z) (this : Sum) :
  0 <= l -> 0 < nativeModulus -> ys <> [] ->
  Sum_chained (Sum_new x) ys = ret this ->
  (rs <- Sum_finish this f false ;;
   Sum_rangeCheck (snd rs) ;;; ret (fst rs))
  = sum (x :: map snd ys) (map fst ys) f.
Proof.
  intros Hl Hp Hys Hthis.
  rewrite Sum_chained_spec in Hthis by reflexivity.
  unfold ret in Hthis. inversion Hthis as [Ethis]. clear Hthis.
  cbn [Sum_new Sum_summands Sum_ops app].
  destruct ys as [| [s y] ys']; [contradiction |]. clear Hys.
  unfold Sum_finish.
  cbn [Sum_unfinished Sum_result_ Sum_ops Sum_summands].
  rewrite assert_true, bind_ret.
  cbn [map length Nat.eqb fst snd].
  set (signs := s :: map fst ys').
  set (terms := x :: y :: map snd ys').
  assert (Hlen : Nat.eqb (length terms) (length signs + 1) = true).
  { apply Nat.eqb_eq. subst terms signs. simpl. rewrite !length_map. lia. }
  unfold Sum_isConstant. cbn [Sum_summands]. fold terms.
  destruct (forallb Field3_isConstant terms) eqn:C.
  - destruct (sum terms signs f) as [[r | e] w] eqn:Es.
    + destruct (sum_constant_result _ _ _ C Es) as [m ->].
      rewrite !bind_Ok. cbn [Sum_return ret fst snd].
      rewrite bind_Ok. cbn [fst snd].
      unfold Sum_rangeCheck. cbn [Sum_result_ Sum_ops].
      subst signs. cbn [length Nat.ltb Nat.leb].
      rewrite multiRangeCheck_Field3_from by assumption.
      rewrite bind_ret. cbn [ret fst snd]. now rewrite !app_nil_r.
    + now rewrite !bind_Err.
  - unfold sum. rewrite Hlen, assert_true, bind_ret, C.
    subst terms. cbn [map]. unfold at_ at 1 2. cbn [nth_error].
    rewrite !bind_ret.
    set (xs := toVars x :: toVars y :: map toVars (map snd ys')).
    assert (Lxs : (0 + length signs < length xs)%nat).
    { subst xs signs. simpl. rewrite !length_map. lia. }
    destruct (@sum_chain_total _ signs 0%nat xs (toVars x) f Lxs
                (toVars_not_constant x)) as (r & w & Er & Hr).
    rewrite Er, !bind_Ok. cbn [negb fst snd].
    unfold Gates_zero, emit. rewrite !bind_Ok.
    cbn [Sum_return ret fst snd]. rewrite ?bind_Ok. cbn [fst snd].
    unfold Sum_rangeCheck. cbn [Sum_result_ Sum_ops].
    subst signs. cbn [length Nat.ltb Nat.leb].
    rewrite (multiRangeCheck_provable _ Hr), !bind_Ok.
    cbn [ret fst snd app]. now rewrite ?app_nil_r, <- ?app_assoc.
Qed.

Lemma modp_mod (a : Z) :
  (a mod nativeModulus) mod nativeModulus = a mod nativeModulus.
Proof. apply Zmod_mod. Qed.

Lemma modp_add (a a' b b' : Z) :
  a mod nativeModulus = a' mod nativeModulus ->
  b mod nativeModulus = b' mod nativeModulus ->
  (a + b) mod nativeModulus = (a' + b') mod nativeModulus.
Proof.
  intros Ha Hb. rewrite Zplus_mod, Ha, Hb. now rewrite <- Zplus_mod.
Qed.

Lemma modp_sub (a a' b b' : Z) :
  a mod nativeModulus = a' mod nativeModulus ->
  b mod nativeModulus = b' mod nativeModulus ->
  (a - b) mod nativeModulus = (a' - b') mod nativeModulus.
Proof.
  intros Ha Hb. rewrite Zminus_mod, Ha, Hb. now rewrite <- Zminus_mod.
Qed.

Lemma modp_mul (a a' b b' : Z) :
  a mod nativeModulus = a' mod nativeModulus ->
  b mod nativeModulus = b' mod nativeModulus ->
  (a * b) mod nativeModulus = (a' * b') mod nativeModulus.
Proof.
  intros Ha Hb. rewrite Zmult_mod, Ha, Hb. now rewrite <- Zmult_mod.
Qed.

(** The native value of the low limb that the generic gates of
    [finishForMulInput] carry along. *)
Lemma lowLimb_update_value (x0 xi0 : Field) (s f0 o c : Z) :
  0 <= l ->
  Field_toBigInt
    (toVar
       (Field_sub
          (Field_sub
             (Field_add x0 (Field_mul xi0 (Field_from s)))
             (Field_mul (Field_witness o) (Field_from f0)))
          (Field_mul (Field_witness c) (Field_from (1 << l)))))
  = (Field_toBigInt x0 + s * Field_toBigInt xi0 - o * f0 - c * 2 ^ l)
    mod nativeModulus.
Proof.
  intros Hl.
  cbn [toVar Field_sub Field_add Field_mul Field_from Field_witness
       Field_toBigInt].
  rewrite shl_pow2, Z.mul_1_l by assumption.
  rewrite (Z.mul_comm s).
  repeat first [ rewrite modp_mod | apply modp_sub | apply modp_add
               | apply modp_mul | reflexivity ].
Qed.

Lemma low_limb_of_value (x : Field3) :
  0 <= l -> Field3_inRange x = true ->
  Z.land (Field3_toBigint x) lMask = fst (fst (toBigint3 x)).
Proof.
  intros Hl Rx. pose proof (pow2_l_pos Hl) as Hb.
  pose proof (Field3_inRange_elim x Rx) as Lx.
  unfold Field3_toBigint, lMask. rewrite land_mask by assumption.
  destruct (toBigint3 x) as [[x0 x1] x2]. destruct Lx as (X0 & X1 & X2).
  cbn [fst]. rewrite combine_spec by assumption. symmetry.
  apply (Z.mod_unique_pos _ _ (x1 + x2 * 2 ^ l)); [exact X0 | ring].
Qed.

(** The duplicated logic agrees with [singleAdd]: on range-checked
    operands below [f] the low-limb generator of [finishForMulInput]
    computes the overflow of [singleAdd], moves [xRef] to the value of its
    result, and its carry turns the low limbs into the low limb of that
    result. *)
Lemma lowLimb_witnesses_agree (x y : Field3) (sign : Sign)
  (f r0 r1 r2 o c : Z) :
  0 <= l -> 0 < f < 2 ^ l3 ->
  Field3_inRange x = true -> Field3_inRange y = true ->
  Field3_toBigint x < f -> Field3_toBigint y < f ->
  singleAdd_witnesses x y sign f = ret [r0; r1; r2; o; c] ->
  exists c0,
    lowLimb_witnesses (Field3_toBigint x) (toBigint3 y) sign f
                      (Z.land f lMask)
    = ([c0; o], combine (r0, r1, r2)) /\
    -1 <= c0 <= 1 /\
    fst (fst (toBigint3 x)) + Sign_toBigint sign * fst (fst (toBigint3 y))
    - o * Z.land f lMask - c0 * 2 ^ l = r0.
Proof.
  intros Hl Hf Rx Ry HX HY E. pose proof (pow2_l_pos Hl) as Hb.
  pose proof (Field3_inRange_bound x Hl Rx) as BX.
  pose proof (Field3_inRange_bound y Hl Ry) as BY.
  destruct (singleAdd_witnesses_arith Hl E) as (Eo & _ & _ & _ & _ & Er0).
  destruct (singleAdd_witnesses_honest Hl Hf (conj (proj1 BX) HX)
              (conj (proj1 BY) HY) E) as ((Ho & Hs) & _ & Ec & _).
  cbv zeta in Eo, Er0, Hs.
  unfold lowLimb_witnesses. rewrite (low_limb_of_value x Hl Rx).
  change (combine (toBigint3 y)) with (Field3_toBigint y).
  rewrite <- Eo.
  change (fst (fst (split f))) with (Z.land f lMask) in Er0.
  rewrite shr_pow2 by assumption.
  pose proof (Field3_inRange_elim x Rx) as Lx.
  pose proof (Field3_inRange_elim y Ry) as Ly.
  destruct (toBigint3 x) as [[x0 x1] x2]. destruct Lx as (X0 & _ & _).
  destruct (toBigint3 y) as [[y0 y1] y2]. destruct Ly as (Y0 & _ & _).
  cbn [fst] in *.
  assert (F0 : 0 <= Z.land f lMask < 2 ^ l).
  { unfold lMask. rewrite land_mask by assumption.
    now apply Z.mod_pos_bound. }
  set (f0 := Z.land f lMask) in *. set (s := Sign_toBigint sign) in *.
  set (e := x0 + s * y0 - o * f0) in *.
  exists (e / 2 ^ l). rewrite Ec. split; [reflexivity |].
  assert (Hs' : s = 1 \/ s = -1) by (subst s; destruct sign; auto).
  assert (Ho' : o = -1 \/ o = 0 \/ o = 1) by lia.
  assert (N : - 2 ^ l <= e < 2 * 2 ^ l).
  { subst e. clearbody s f0. clear - Hs' Ho' Hs X0 Y0 F0.
    destruct Hs' as [-> | ->]; destruct Ho' as [-> | [-> | ->]]; lia. }
  split.
  - split.
    + apply Z.div_le_lower_bound; lia.
    + enough (e / 2 ^ l < 2) by lia. apply Z.div_lt_upper_bound; lia.
  - rewrite Er0. rewrite Z.mod_eq by lia. ring.
Qed.

Lemma carry_row_ok (c : Z) :
  -1 <= c <= 1 ->
  Row_violated (Row_assertOneOf (Field_witness c) [0; 1; -1]) = false.
Proof.
  intros Hc. cbn [Row_violated existsb Field_witness Field_toBigInt].
  assert (H : c = 0 \/ c = 1 \/ c = -1) by lia.
  destruct H as [-> | [-> | ->]]; rewrite Z.eqb_refl;
    now rewrite ?orb_true_r.
Qed.

(** The two loops of [finishForMulInput] on range-checked terms below [f]:
    neither throws, every generic row and every wiring row holds, and the
    chain ends in a range-checked triple with the reduced value. *)
Lemma finishForMulInput_loops_honest (f : Z) (signs : list Sign) :
  0 <= l -> 2 ^ l <= nativeModulus -> 0 < f < 2 ^ l3 ->
  forall (pre ts : list Field3) (i : nat) (x : Field3) (x0 : Field)
         (p0 pO : list Field),
    length pre = (i + 1)%nat -> length ts = length signs ->
    length p0 = i -> length pO = i ->
    Forall (fun t => Field3_inRange t = true /\ Field3_toBigint t < f) ts ->
    Field3_inRange x = true -> Field3_toBigint x < f ->
    Field_toBigInt x0 = fst (fst (toBigint3 x)) ->
    exists x0s' ovs' w1 r w2,
      lowLimb_loop signs i (pre ++ ts) f (Z.land f lMask) x0
                   (Field3_toBigint x) p0 pO
      = (Ok (p0 ++ x0s', pO ++ ovs'), w1) /\
      mulInput_chain signs i (pre ++ ts) f x (p0 ++ x0s') (pO ++ ovs')
      = (Ok r, w2) /\
      proofFails w1 = false /\ proofFails w2 = false /\
      Field3_inRange r = true /\
      Field3_toBigint r
      = (Field3_toBigint x
         + signedTerms_spec signs (map Field3_toBigint ts)) mod f.
Proof.
  intros Hl Hp Hf. pose proof (pow2_l_pos Hl) as Hb.
  induction signs as [| s signs' IH];
    intros pre ts i x x0 p0 pO Hpre Hts L0 LO Fts Rx HX Hx0.
  - destruct ts; [| discriminate]. exists [], [], [], x, []. cbn.
    rewrite !app_nil_r. repeat split; try assumption.
    pose proof (Field3_inRange_bound x Hl Rx).
    now rewrite Z.add_0_r, Z.mod_small by lia.
  - destruct ts as [| t ts']; [discriminate |]. cbn [length] in Hts.
    inversion Fts as [| ? ? [Rt Ht] Fts']; subst.
    pose proof (Field3_inRange_bound x Hl Rx) as BX.
    pose proof (Field3_inRange_bound t Hl Rt) as BT.
    assert (Et : at_ (pre ++ t :: ts') (length p0 + 1) = ret t).
    { unfold at_. rewrite nth_error_app2 by lia.
      now rewrite Hpre, Nat.sub_diag. }
    destruct (singleAdd_run x t s f) as (r0 & r1 & r2 & o & c & Ew & Es).
    destruct (singleAdd_witnesses_honest Hl Hf (conj (proj1 BX) HX)
                (conj (proj1 BT) Ht) Ew)
      as (_ & (R0 & R1 & R2) & Ec & Hc).
    destruct (witness3_inRange Hp R0 R1 R2) as [IR TB].
    destruct (@lowLimb_witnesses_agree x t s f r0 r1 r2 o c Hl Hf Rx Rt HX Ht
                Ew) as (c0 & El & Hc0 & Er0).
    set (r' := (Field_witness r0, Field_witness r1, Field_witness r2)) in *.
    assert (Vr : Field3_toBigint r' = combine (r0, r1, r2))
      by (unfold Field3_toBigint; now rewrite TB).
    set (x0' := toVar
                  (Field_sub
                     (Field_sub
                        (Field_add x0
                           (Field_mul (fst (fst t))
                                      (Field_from (Sign_toBigint s))))
                        (Field_mul (Field_witness o)
                                   (Field_from (Z.land f lMask))))
                     (Field_mul (Field_witness c0) (Field_from (1 << l))))).
    assert (Vx0 : Field_toBigInt x0' = r0).
    { subst x0'. rewrite lowLimb_update_value by assumption.
      rewrite Hx0.
      replace (Field_toBigInt (fst (fst t))) with (fst (fst (toBigint3 t)))
        by (now destruct t as [[t0 t1] t2]).
      rewrite Er0. apply Z.mod_small. lia. }
    destruct (IH (pre ++ [t]) ts' (S (length p0)) r' x0'
                 (p0 ++ [x0']) (pO ++ [Field_witness o]))
      as (x0s' & ovs' & w1 & r & w2 & E1 & E2 & P1 & P2 & Ir & Vr');
      [rewrite length_app; simpl; lia | lia
      | rewrite length_app; simpl; lia | rewrite length_app; simpl; lia
      | assumption | exact IR | rewrite Vr; lia
      | rewrite Vx0; now rewrite TB |].
    rewrite Vr in E1.
    exists (x0' :: x0s'), (Field_witness o :: ovs').
    rewrite <- !app_assoc in E1, E2. cbn [app] in E1, E2.
    eexists. exists r. eexists.
    split; [| split].
    + cbn [lowLimb_loop]. rewrite Et, bind_ret, El.
      unfold exists_. rewrite bind_ret. cbn [length Nat.eqb].
      rewrite assert_true, bind_ret. cbn [map]. rewrite bind_ret.
      unfold assertOneOf, emit. rewrite bind_Ok. fold x0'.
      rewrite E1. cbn [fst snd]. reflexivity.
    + cbn [mulInput_chain]. rewrite Et, bind_ret, Es, bind_Ok.
      cbn [fst snd]. fold r'.
      assert (A0 : at_ (p0 ++ x0' :: x0s') (length p0) = ret x0').
      { unfold at_. rewrite nth_error_app2 by lia.
        now rewrite Nat.sub_diag. }
      assert (AO : at_ (pO ++ Field_witness o :: ovs') (length p0)
                   = ret (Field_witness o)).
      { unfold at_. rewrite nth_error_app2 by lia.
        now rewrite LO, Nat.sub_diag. }
      rewrite A0, bind_ret. unfold Field_assertEquals at 1.
      cbn [r' fst Field_witness Field_isConstant andb]. unfold emit at 1.
      rewrite bind_Ok, AO, bind_ret. unfold Field_assertEquals at 1.
      cbn [Field_witness Field_isConstant andb]. unfold emit at 1.
      rewrite bind_Ok, E2. cbn [fst snd]. reflexivity.
    + split; [| split; [| split]].
      * cbn [app]. unfold proofFails in *. cbn [existsb].
        now rewrite (carry_row_ok Hc0), P1.
      * cbn [app]. unfold proofFails in *.
        unfold Field_assertEquals.
        cbn [Field_witness Field_isConstant andb]. unfold emit.
        rewrite !bind_Ok.
        cbn [fst snd app existsb Row_violated orb Field_toBigInt].
        rewrite Vx0. cbn [Field_witness Field_toBigInt].
        rewrite (Z.mod_small r0) by lia.
        now rewrite !Z.eqb_refl, P2.
      * exact Ir.
      * rewrite Vr', Vr, Ec. cbn [map signedTerms_spec].
        replace (Field3_toBigint x + Sign_toBigint s * Field3_toBigint t
                 - o * f
                 + signedTerms_spec signs' (map Field3_toBigint ts'))
          with (Field3_toBigint x
                + (Sign_toBigint s * Field3_toBigint t
                   + signedTerms_spec signs' (map Field3_toBigint ts'))
                + (- o) * f) by ring.
        apply Z_mod_plus_full.
Qed.

Lemma Forall_toVars_honest (f : Z) (ts : list Field3) :
  Forall (fun t => Field3_inRange t = true /\ Field3_toBigint t < f) ts ->
  Forall (fun t => Field3_inRange t = true /\ Field3_toBigint t < f)
         (map toVars ts).
Proof.
  induction 1 as [| t ts' [R B] _ IH]; cbn [map]; constructor;
    [| assumption].
  now rewrite Field3_inRange_toVars, Field3_toBigint_toVars.
Qed.

(** [finishForMulInput] on range-checked terms below [f]: value, range and
    log. *)
Lemma Sum_finishForMulInput_value (x : Field3)
  (ys : list (Sign * Field3)) (f : Z) (isChained : bool) (this : Sum) :
  0 <= l -> 2 ^ l <= nativeModulus -> 0 < f < 2 ^ l3 ->
  Forall (fun t => Field3_inRange t = true /\ Field3_toBigint t < f)
         (x :: map snd ys) ->
  Sum_chained (Sum_new x) ys = ret this ->
  exists r w,
    Sum_finishForMulInput this f isChained
    = (Ok (r, mkSum (Some r) (x :: map snd ys) (map fst ys)), w) /\
    proofFails w = false /\ Field3_inRange r = true /\
    Field3_toBigint r
    = (Field3_toBigint x
       + signedTerms_spec (map fst ys) (map Field3_toBigint (map snd ys)))
      mod f.
Proof.
  intros Hl Hp Hf Hon Hthis.
  rewrite Sum_chained_spec in Hthis by reflexivity.
  unfold ret in Hthis. inversion Hthis as [Ethis]. clear Hthis.
  cbn [Sum_new Sum_summands Sum_ops app].
  inversion Hon as [| ? ? [Rx HX] Hys]; subst.
  pose proof (Field3_inRange_bound x Hl Rx) as BX.
  unfold Sum_finishForMulInput.
  cbn [Sum_unfinished Sum_result_ Sum_ops Sum_summands].
  rewrite assert_true, bind_ret.
  destruct ys as [| [s y] ys'].
  { cbn. exists x, []. split; [reflexivity |]. split; [reflexivity |].
    split; [exact Rx |]. now rewrite Z.add_0_r, Z.mod_small by lia. }
  cbn [map length Nat.eqb fst snd] in *.
  set (signs := s :: map fst ys') in *.
  set (ts := y :: map snd ys') in *.
  assert (Hlen : length ts = length signs).
  { subst ts signs. simpl. now rewrite !length_map. }
  unfold Sum_isConstant. cbn [Sum_summands].
  destruct (forallb Field3_isConstant (x :: ts)) eqn:C.
  - rewrite (@sum_constant_folding _ x ts signs f) by (try assumption; lia).
    rewrite bind_Ok. cbn [Sum_return ret fst snd app].
    cbn [Sum_summands Sum_ops].
    eexists. eexists. split; [reflexivity |]. split; [reflexivity |].
    split; [now apply Field3_from_inRange |].
    apply Field3_toBigint_from; try assumption.
    split; [apply Z.mod_pos_bound; lia |].
    eapply Z.lt_trans; [apply Z.mod_pos_bound; lia | lia].
  - cbn [map]. unfold at_ at 1. cbn [nth_error]. rewrite bind_ret.
    change (toVars x :: map toVars ts) with ([toVars x] ++ map toVars ts).
    destruct (@finishForMulInput_loops_honest f signs Hl Hp Hf
                [toVars x] (map toVars ts) 0%nat (toVars x)
                (fst (fst (toVars x))) [] [])
      as (x0s & ovs & w1 & r & w2 & E1 & E2 & P1 & P2 & Ir & Vr);
      [reflexivity | now rewrite length_map | reflexivity | reflexivity
      | now apply Forall_toVars_honest | now rewrite Field3_inRange_toVars
      | now rewrite Field3_toBigint_toVars
      | now destruct x as [[x0 x1] x2] |].
    cbn [app] in E1, E2.
    rewrite Field3_toBigint_toVars, map_toBigint_toVars in Vr.
    unfold ts in E1, E2. cbn [map] in E1, E2.
    rewrite E1, bind_Ok. cbn [fst snd]. rewrite E2, bind_Ok.
    cbn [fst snd]. cbn [Sum_return Sum_summands Sum_ops].
    destruct isChained; cbn [negb]; unfold Gates_zero, emit;
      rewrite ?bind_ret, ?bind_Ok; cbn [ret fst snd app];
      (eexists; eexists; split; [reflexivity |]);
      (split; [| split; [exact Ir | exact Vr]]);
      rewrite ?app_nil_r, !proofFails_app, P1, P2; reflexivity.
Qed.

(** X23: [finishForMulInput] on a chain of range-checked terms below [f]:
    it never throws, stores and returns a range-checked triple holding
    [(x + sum_i sign_i*y_i) mod f], and the log it builds has no violated row:
    the carries of the low-limb gates are [-1], [0] or [1], and the low
    limbs and overflows they compute are those of the addition rows they
    are wired to. *)
Theorem Sum_finishForMulInput_honest (x : Field3)
  (ys : list (Sign * Field3)) (f : Z) (isChained : bool) (this : Sum) :
  0 <= l -> 2 ^ l <= nativeModulus -> 0 < f < 2 ^ l3 ->
  Forall (fun t => Field3_inRange t = true /\ Field3_toBigint t < f)
         (x :: map snd ys) ->
  Sum_chained (Sum_new x) ys = ret this ->
  exists r w,
    Sum_finishForMulInput this f isChained
    = (Ok (r, mkSum (Some r) (x :: map snd ys) (map fst ys)), w) /\
    proofFails w = false /\ Field3_inRange r = true /\
    Field3_toBigint r
    = (Field3_toBigint x
       + signedTerms_spec (map fst ys) (map Field3_toBigint (map snd ys)))
      mod f.
Proof.
  intros Hl Hp Hf Hon Hthis.
  exact (@Sum_finishForMulInput_value x ys f isChained this Hl Hp Hf Hon
           Hthis).
Qed.

End DeferredChains.

Section SumProducts.
Context {cfg : Params}.

Lemma sbind_Ok (A B : Type) (m : SM A) (k : A -> SM B) (st st' : Store)
  (a : A) (w : list Row) :
  m st = ((Ok a, w), st') ->
  sbind m k st
  = (let '((r, w'), st'') := k a st' in ((r, w ++ w'), st'')).
Proof. intros E. unfold sbind. now rewrite E. Qed.

Lemma sbind_Err (A B : Type) (m : SM A) (k : A -> SM B) (st st' : Store)
  (e : Error) (w : list Row) :
  m st = ((Err e, w), st') -> sbind m k st = ((Err e, w), st').
Proof. intros E. unfold sbind. now rewrite E. Qed.

Lemma Store_fromUnfinished_inl (x : Field3) (st : Store) :
  Store_fromUnfinished (inl x) st
  = ((Ok (length st), []), st ++ [Sum_new x]).
Proof. reflexivity. Qed.

Lemma Store_fromUnfinished_inr (r : Ref) (st : Store) (s : Sum) :
  nth_error st r = Some s -> Sum_result_ s = None ->
  Store_fromUnfinished (inr r) st = ((Ok r, []), st).
Proof.
  intros E U. unfold Store_fromUnfinished, Sum_fromUnfinished, Sum_unfinished.
  now rewrite E, U.
Qed.

Lemma Store_call_Ok (A : Type) (r : Ref) (st : Store) (s s' : Sum)
  (method : Sum -> M (A * Sum)) (a : A) (w : list Row) :
  nth_error st r = Some s -> method s = (Ok (a, s'), w) ->
  Store_call r method st = ((Ok a, w), Store_set r s' st).
Proof. intros E Em. unfold Store_call. now rewrite E, Em. Qed.

Lemma Store_call_Err (A : Type) (r : Ref) (st : Store) (s : Sum)
  (method : Sum -> M (A * Sum)) (e : Error) (w : list Row) :
  nth_error st r = Some s -> method s = (Err e, w) ->
  Store_call r method st = ((Err e, w), st).
Proof. intros E Em. unfold Store_call. now rewrite E, Em. Qed.

Lemma nth_error_app_plus (A : Type) (st l : list A) (k : nat) :
  nth_error (st ++ l) (length st + k) = nth_error l k.
Proof.
  rewrite nth_error_app2 by lia. f_equal. lia.
Qed.

Lemma Store_set_app_plus (st l : Store) (k : nat) (s : Sum) :
  Store_set (length st + k)%nat s (st ++ l) = st ++ Store_set k s l.
Proof.
  unfold Store_set.
  rewrite firstn_app, firstn_all2 by lia.
  replace (length st + k - length st)%nat with k by lia.
  replace (S (length st + k)) with (length st + S k)%nat by lia.
  rewrite skipn_app, skipn_all2 by lia.
  replace (length st + S k - length st)%nat with (S k) by lia.
  cbn [app]. now rewrite <- app_assoc.
Qed.

Lemma Store_set_same (st : Store) (r : Ref) (s : Sum) :
  nth_error st r = Some s -> Store_set r s st = st.
Proof.
  revert r. induction st as [| a st' IH]; intros [| r] E; cbn in E;
    try discriminate.
  - injection E as ->. reflexivity.
  - unfold Store_set in *. cbn [firstn skipn app]. f_equal.
    now apply IH.
Qed.

Lemma nth_error_Store_set_eq (st : Store) (r : Ref) (s : Sum) :
  (r < length st)%nat -> nth_error (Store_set r s st) r = Some s.
Proof.
  intros Hr. unfold Store_set.
  rewrite nth_error_app2 by (rewrite firstn_length_le; lia).
  rewrite firstn_length_le by lia. now rewrite Nat.sub_diag.
Qed.

Lemma nth_error_Store_set_neq (st : Store) (r r' : Ref) (s : Sum) :
  (r < length st)%nat -> r <> r' ->
  nth_error (Store_set r s st) r' = nth_error st r'.
Proof.
  revert r r'. induction st as [| a st' IH]; intros r r' Hr Hn;
    [simpl in Hr; lia |].
  unfold Store_set in *. destruct r as [| r]; destruct r' as [| r'];
    cbn [firstn skipn app nth_error]; try reflexivity; try lia.
  apply IH; simpl in Hr; lia.
Qed.

Lemma length_Store_set (st : Store) (r : Ref) (s : Sum) :
  (r < length st)%nat -> length (Store_set r s st) = length st.
Proof.
  intros Hr. unfold Store_set.
  rewrite length_app, firstn_length_le by lia. cbn [length].
  rewrite length_skipn. lia.
Qed.

Lemma let_eta (A B C : Type) (p : A * B * C) :
  (let '(r, w, st) := p in (r, w, st)) = p.
Proof. now destruct p as [[r w] st]. Qed.

Lemma Store_call_fresh (A : Type) (st l : Store) (k : nat)
  (method : Sum -> M (A * Sum)) :
  Store_call (length st + k)%nat method (st ++ l)
  = (let '(res, l') := Store_call k method l in (res, st ++ l')).
Proof.
  unfold Store_call. rewrite nth_error_app_plus.
  destruct (nth_error l k) as [s |]; [| reflexivity].
  destruct (method s) as [[[a s'] | e] w]; [| reflexivity].
  now rewrite Store_set_app_plus.
Qed.

Lemma Store_call_fresh0 (A : Type) (st l : Store)
  (method : Sum -> M (A * Sum)) :
  Store_call (length st) method (st ++ l)
  = (let '(res, l') := Store_call 0%nat method l in (res, st ++ l')).
Proof.
  rewrite <- (Store_call_fresh st l 0%nat method). now rewrite Nat.add_0_r.
Qed.

(** [assertMul] on three limb-triples: the bound on [f], then the
    comparison of constants or [assertMulInternal]; the three Sums it
    wraps them in end up finalized unless the bound fails. *)
Lemma assertMul_triples (x y xy : Field3) (f : Z) (st : Store) :
  let fin := fun t : Field3 => mkSum (Some t) [t] [] in
  assertMul (inl x) (inl y) (inl xy) f st
  = if f <? 1 << 258 then
      ((if Field3_isConstant x && Field3_isConstant y && Field3_isConstant xy
        then (m <- mod_ (Field3_toBigint x * Field3_toBigint y) f ;;
              assert (m =? Field3_toBigint xy)
                     "incorrect multiplication result")
        else assertMulInternal x y (inl xy) f),
       st ++ [fin x; fin y; fin xy])
    else (throw (AssertionError (assertMul_message 1 1)),
          st ++ [Sum_new x; Sum_new y; Sum_new xy]).
Proof.
  intros fin. unfold assertMul.
  erewrite sbind_Ok by apply Store_fromUnfinished_inl.
  erewrite sbind_Ok by apply Store_fromUnfinished_inl.
  erewrite sbind_Ok by apply Store_fromUnfinished_inl.
  rewrite !length_app. cbn [length].
  rewrite <- !app_assoc. cbn [app]. rewrite !let_eta.
  rewrite <- !Nat.add_assoc. cbn [Nat.add].
  erewrite sbind_Ok by (rewrite Store_call_fresh0; reflexivity).
  erewrite sbind_Ok by (rewrite Store_call_fresh; reflexivity).
  cbn [Sum_length Sum_new Sum_summands length Store_set firstn skipn app].
  change (ceilSqrt (1 * 1)) with 1. rewrite Z.mul_1_l.
  destruct (f <? 1 << 258).
  2:{ erewrite sbind_Err by reflexivity. reflexivity. }
  erewrite sbind_Ok by reflexivity.
  erewrite sbind_Ok by (rewrite Store_call_fresh; reflexivity).
  erewrite sbind_Ok by (rewrite Store_call_fresh; reflexivity).
  erewrite sbind_Ok by (rewrite Store_call_fresh0; reflexivity).
  cbn [Store_set firstn skipn app]. fold (fin x) (fin y) (fin xy).
  destruct (Field3_isConstant x && Field3_isConstant y
            && Field3_isConstant xy); unfold slift;
    match goal with
    | |- context [(?m, _)] => destruct m as [r w]
    end; cbn [app]; reflexivity.
Qed.

Lemma accepts_assert (c : bool) (msg : string) : accepts (assert c msg) = c.
Proof. now destruct c. Qed.

(** X24: [assertMul] on three range-checked limb-triples checks the
    product, in both modes: for [0 < f < 2^258] and [x*y < f*f] the run is
    accepted (nothing thrown, no violated row) exactly when [xy] holds
    [(x*y) mod f], and the three Sums it wrapped the triples in are left
    finalized. *)
Theorem assertMul_triples_decides (x y xy : Field3) (f : Z) (st : Store) :
  258 <= l3 -> 2 ^ l2 <= nativeModulus -> 0 < f < 2 ^ 258 ->
  Field3_inRange x = true -> Field3_inRange y = true ->
  Field3_inRange xy = true ->
  Field3_toBigint x * Field3_toBigint y < f * f ->
  accepts (fst (assertMul (inl x) (inl y) (inl xy) f st))
  = (Field3_toBigint xy =? (Field3_toBigint x * Field3_toBigint y) mod f) /\
  snd (assertMul (inl x) (inl y) (inl xy) f st)
  = st ++ [mkSum (Some x) [x] []; mkSum (Some y) [y] [];
           mkSum (Some xy) [xy] []].
Proof.
  intros Hl3 Hp Hf Rx Ry Rxy Hxy.
  assert (Hl : 0 <= l) by (unfold l3 in Hl3; lia).
  assert (H258 : 2 ^ 258 <= 2 ^ l3) by (apply Z.pow_le_mono_r; lia).
  rewrite assertMul_triples.
  replace (f <? 1 << 258) with true
    by (symmetry; apply Z.ltb_lt; rewrite Z.shiftl_1_l; lia).
  cbn [fst snd]. split; [| reflexivity].
  set (m := (Field3_toBigint x * Field3_toBigint y) mod f).
  destruct (Field3_isConstant x && Field3_isConstant y
            && Field3_isConstant xy).
  - rewrite mod_spec, bind_ret by lia. fold m.
    rewrite accepts_assert. apply Z.eqb_sym.
  - assert (Hm : 0 <= m < 2 ^ l3).
    { pose proof (Z.mod_pos_bound (Field3_toBigint x * Field3_toBigint y) f
                    ltac:(lia)). subst m. lia. }
    assert (Hf3 : 0 < f < 2 ^ l3) by lia.
    rewrite <- (@limbs_eq_value _ xy m Hl Rxy Hm).
    destruct xy as [[xy0 xy1] xy2]. rewrite assertMulInternal_inl.
    destruct (@assertMulInternal_honest _ x y
                (Field_add xy0 (Field_mul xy1 (Field_from (1 << l)))) xy2 f
                Hl Hp Hf3 Rx Ry Hxy) as (w & E & Pw).
    rewrite E. cbn [accepts]. rewrite Pw, negb_involutive. fold m.
    assert (R' := Rxy). unfold Field3_inRange in R'.
    apply andb_prop in R'; destruct R' as [R01 R2].
    apply andb_prop in R01; destruct R01 as [R0 R1].
    rewrite (@low_mid_value _ xy0 xy1 Hl Hp R0 R1). reflexivity.
Qed.

(** X25: the bound on the modulus comes first: when
    [ceil(sqrt(xlen*ylen)) * f >= 2^258], [assertMul] throws its bound
    message for these lengths before any row is emitted and before any Sum
    is finalized, for Sums passed by reference as for limb-triples (whose
    length is 1, so for every [f >= 2^258]). *)
Theorem assertMul_bound_guard (rx ry : Ref) (x y xy : Field3) (sx sy : Sum)
  (f : Z) (st : Store) :
  nth_error st rx = Some sx -> nth_error st ry = Some sy ->
  Sum_result_ sx = None -> Sum_result_ sy = None ->
  (2 ^ 258 <= ceilSqrt (Sum_length sx * Sum_length sy) * f ->
   assertMul (inr rx) (inr ry) (inl xy) f st
   = (throw (AssertionError
               (assertMul_message (Sum_length sx) (Sum_length sy))),
      st ++ [Sum_new xy])) /\
  (2 ^ 258 <= f ->
   assertMul (inl x) (inl y) (inl xy) f st
   = (throw (AssertionError (assertMul_message 1 1)),
      st ++ [Sum_new x; Sum_new y; Sum_new xy])).
Proof.
  intros Ex Ey Ux Uy. split; intros Hf.
  - unfold assertMul.
    erewrite sbind_Ok by (eapply Store_fromUnfinished_inr; eassumption).
    erewrite sbind_Ok by (eapply Store_fromUnfinished_inr; eassumption).
    erewrite sbind_Ok by apply Store_fromUnfinished_inl.
    assert (Ex' : nth_error (st ++ [Sum_new xy]) rx = Some sx).
    { rewrite nth_error_app1; [exact Ex |].
      apply nth_error_Some. now rewrite Ex. }
    assert (Ey' : nth_error (st ++ [Sum_new xy]) ry = Some sy).
    { rewrite nth_error_app1; [exact Ey |].
      apply nth_error_Some. now rewrite Ey. }
    erewrite sbind_Ok
      by (eapply Store_call_Ok; [exact Ex' | reflexivity]).
    rewrite (Store_set_same _ _ Ex').
    erewrite sbind_Ok
      by (eapply Store_call_Ok; [exact Ey' | reflexivity]).
    rewrite (Store_set_same _ _ Ey').
    replace (ceilSqrt (Sum_length sx * Sum_length sy) * f <? 1 << 258)
      with false
      by (symmetry; apply Z.ltb_ge; rewrite Z.shiftl_1_l; lia).
    erewrite sbind_Err by reflexivity. reflexivity.
  - rewrite assertMul_triples.
    replace (f <? 1 << 258) with false
      by (symmetry; apply Z.ltb_ge; rewrite Z.shiftl_1_l; lia).
    reflexivity.
Qed.

(** [finishForMulInput] returns on every chain with a positive modulus or
    a symbolic term, and leaves the Sum finalized. *)
Lemma Sum_finishForMulInput_returns (x : Field3) (ys : list (Sign * Field3))
  (f : Z) (isChained : bool) (this : Sum) :
  Sum_chained (Sum_new x) ys = ret this ->
  0 < f \/ Sum_isConstant this = false ->
  exists r w,
    Sum_finishForMulInput this f isChained
    = (Ok (r, mkSum (Some r) (Sum_summands this) (Sum_ops this)), w).
Proof.
  intros Hthis Hf.
  rewrite Sum_chained_spec in Hthis by reflexivity.
  unfold ret in Hthis. inversion Hthis as [Ethis]. clear Hthis.
  rewrite <- Ethis in Hf. cbn [Sum_new Sum_summands Sum_ops app] in *.
  unfold Sum_finishForMulInput.
  cbn [Sum_unfinished Sum_result_ Sum_ops Sum_summands].
  rewrite assert_true, bind_ret.
  destruct ys as [| [s y] ys'].
  { eexists. eexists. reflexivity. }
  cbn [map length Nat.eqb fst snd] in *.
  set (signs := s :: map fst ys') in *.
  set (terms := x :: y :: map snd ys') in *.
  unfold Sum_isConstant in *. cbn [Sum_summands] in *.
  destruct (forallb Field3_isConstant terms) eqn:C.
  - destruct Hf as [Hf | Hf]; [| discriminate].
    subst terms.
    rewrite sum_constant_folding;
      [| assumption | subst signs; simpl; now rewrite !length_map
       | assumption].
    rewrite bind_Ok. eexists. eexists. reflexivity.
  - subst terms. cbn [map]. unfold at_ at 1. cbn [nth_error].
    rewrite bind_ret.
    set (xs := toVars x :: toVars y :: map toVars (map snd ys')).
    assert (Lxs : (0 + length signs < length xs)%nat).
    { subst xs signs. simpl. rewrite !length_map. lia. }
    destruct (@lowLimb_loop_total _ signs 0%nat xs f (Z.land f lMask)
                (fst (fst (toVars x))) (Field3_toBigint (toVars x)) [] [] Lxs)
      as (x0s & ovs & w0 & E0 & L1 & L2).
    rewrite E0, bind_Ok. cbn [app fst snd].
    destruct (@sum_chain_total _ signs 0%nat xs (toVars x) f Lxs
                (toVars_not_constant x)) as (r & w & Er & Hr).
    pose proof (@mulInput_chain_result _ signs 0%nat xs f (toVars x) x0s ovs
                  ltac:(lia) ltac:(lia)) as Em.
    rewrite Er in Em. cbn [fst] in Em.
    destruct (mulInput_chain signs 0 xs f (toVars x) x0s ovs)
      as [rm wm] eqn:Emc. cbn [fst] in Em. subst rm.
    rewrite bind_Ok. cbn [fst snd].
    destruct isChained; cbn [negb]; unfold Gates_zero, emit;
      rewrite ?bind_ret, ?bind_Ok; cbn [Sum_return ret fst snd];
      eexists; eexists; reflexivity.
Qed.

(** X26: a Sum cannot be both factors: when the same unfinished Sum is
    passed as [x] and as [y] (and the bound on [f] holds), finishing it as
    [y] finalizes the shared object, so finishing it as [x] throws "sum
    already finished"; the Sum stays finalized. *)
Theorem assertMul_same_sum_twice (r : Ref) (x0 xy : Field3)
  (ys : list (Sign * Field3)) (s : Sum) (f : Z) (st : Store) :
  nth_error st r = Some s ->
  Sum_chained (Sum_new x0) ys = ret s ->
  ceilSqrt (Sum_length s * Sum_length s) * f < 2 ^ 258 ->
  0 < f \/ Sum_isConstant s = false ->
  exists w st' s',
    assertMul (inr r) (inr r) (inl xy) f st
    = ((Err (AssertionError "sum already finished"), w), st') /\
    nth_error st' r = Some s' /\ Sum_state s' = Finalized.
Proof.
  intros Er Hs Hb Hf.
  assert (Us : Sum_result_ s = None).
  { rewrite Sum_chained_spec in Hs by reflexivity.
    unfold ret in Hs. now inversion Hs. }
  assert (Lr : (r < length st)%nat)
    by (apply nth_error_Some; now rewrite Er).
  destruct (@Sum_finishForMulInput_returns x0 ys f false s Hs Hf)
    as (r0 & w1 & Efin).
  set (s' := mkSum (Some r0) (Sum_summands s) (Sum_ops s)) in *.
  set (st1 := st ++ [Sum_new xy]).
  assert (Er1 : nth_error st1 r = Some s)
    by (subst st1; now rewrite nth_error_app1).
  assert (L1 : (r < length st1)%nat)
    by (subst st1; rewrite length_app; simpl; lia).
  set (st2 := Store_set r s' st1).
  assert (Exy : nth_error st2 (length st) = Some (Sum_new xy)).
  { subst st2. rewrite nth_error_Store_set_neq by lia.
    subst st1. rewrite nth_error_app2 by lia.
    now rewrite Nat.sub_diag. }
  assert (L2 : (length st < length st2)%nat).
  { subst st2. rewrite length_Store_set by exact L1.
    subst st1. rewrite length_app. simpl. lia. }
  set (st3 := Store_set (length st) (mkSum (Some xy) [xy] []) st2).
  assert (Er3 : nth_error st3 r = Some s').
  { subst st3. rewrite nth_error_Store_set_neq by lia.
    subst st2. now apply nth_error_Store_set_eq. }
  exists ([] ++ [] ++ [] ++ [] ++ [] ++ [] ++ w1 ++ [] ++ []), st3, s'.
  split; [| split; [exact Er3 | reflexivity]].
  unfold assertMul.
  erewrite sbind_Ok by (eapply Store_fromUnfinished_inr; eassumption).
  erewrite sbind_Ok by (eapply Store_fromUnfinished_inr; eassumption).
  erewrite sbind_Ok by apply Store_fromUnfinished_inl. fold st1.
  erewrite sbind_Ok by (eapply Store_call_Ok; [exact Er1 | reflexivity]).
  rewrite (Store_set_same _ _ Er1).
  erewrite sbind_Ok by (eapply Store_call_Ok; [exact Er1 | reflexivity]).
  rewrite (Store_set_same _ _ Er1).
  replace (ceilSqrt (Sum_length s * Sum_length s) * f <? 1 << 258) with true
    by (symmetry; apply Z.ltb_lt; rewrite Z.shiftl_1_l; lia).
  erewrite sbind_Ok by reflexivity.
  erewrite sbind_Ok by (eapply Store_call_Ok; [exact Er1 | exact Efin]).
  fold st2.
  erewrite sbind_Ok by (eapply Store_call_Ok; [exact Exy | reflexivity]).
  fold st3.
  erewrite sbind_Err by (eapply Store_call_Err; [exact Er3 | reflexivity]).
  reflexivity.
Qed.

(** X27: [assertMul] on a chain times a triple: for a Sum of range-checked
    terms below [f] passed as [x], range-checked triples [y] (below [f]) and
    [xy], and a modulus within the bound for these lengths, the run is
    accepted exactly when [xy] holds [(X*y) mod f], where [X] is the reduced
    value [(x0 + sum_i sign_i*x_i) mod f] of the chain. *)
Theorem assertMul_sum_decides (r : Ref) (x0 y xy : Field3)
  (ys : list (Sign * Field3)) (s : Sum) (f : Z) (st : Store) :
  258 <= l3 -> 2 ^ l2 <= nativeModulus ->
  nth_error st r = Some s ->
  Sum_chained (Sum_new x0) ys = ret s ->
  0 < f -> ceilSqrt (Sum_length s * 1) * f < 2 ^ 258 ->
  Forall (fun t => Field3_inRange t = true /\ Field3_toBigint t < f)
         (x0 :: map snd ys) ->
  Field3_inRange y = true -> Field3_toBigint y < f ->
  Field3_inRange xy = true ->
  let X := (Field3_toBigint x0
            + signedTerms_spec (map fst ys)
                (map Field3_toBigint (map snd ys))) mod f in
  accepts (fst (assertMul (inr r) (inl y) (inl xy) f st))
  = (Field3_toBigint xy =? (X * Field3_toBigint y) mod f).
Proof.
  intros Hl3 Hp Er Hs Hf0 Hb Hon Ry HY Rxy X.
  assert (Hl : 0 <= l) by (unfold l3 in Hl3; lia).
  pose proof (pow2_l_pos Hl) as Hpb. pose proof (pow2_l_le_l2 Hl) as Hb2.
  assert (H258 : 2 ^ 258 <= 2 ^ l3) by (apply Z.pow_le_mono_r; lia).
  assert (Hc : 1 <= ceilSqrt (Sum_length s * 1)).
  { assert (Ls : (1 <= Sum_length s)%nat).
    { rewrite Sum_chained_spec in Hs by reflexivity.
      unfold ret in Hs. inversion Hs. unfold Sum_length. simpl. lia. }
    unfold ceilSqrt.
    assert (H1 : 1 <= Z.of_nat (Sum_length s * 1)) by lia.
    pose proof (Z.sqrt_up_le_mono _ _ H1) as Hm.
    change (Z.sqrt_up 1) with 1 in Hm. exact Hm. }
  assert (Hf : 0 < f < 2 ^ l3) by nia.
  assert (Hp1 : 2 ^ l <= nativeModulus) by lia.
  assert (Us : Sum_result_ s = None).
  { rewrite Sum_chained_spec in Hs by reflexivity.
    unfold ret in Hs. now inversion Hs. }
  assert (Lr : (r < length st)%nat)
    by (apply nth_error_Some; now rewrite Er).
  destruct (@Sum_finishForMulInput_value _ x0 ys f true s Hl Hp1 Hf Hon Hs)
    as (rx & wx & Efin & Px & Ix & Vx).
  fold X in Vx.
  assert (HX : 0 <= X < f) by (subst X; apply Z.mod_pos_bound; lia).
  pose proof (Field3_inRange_bound y Hl Ry) as BY.
  unfold assertMul.
  erewrite sbind_Ok by (eapply Store_fromUnfinished_inr; eassumption).
  erewrite sbind_Ok by apply Store_fromUnfinished_inl.
  erewrite sbind_Ok by apply Store_fromUnfinished_inl.
  rewrite !length_app. cbn [length].
  rewrite <- !app_assoc. cbn [app]. rewrite !let_eta.
  assert (Er1 : forall l', nth_error (st ++ l') r = Some s)
    by (intros l'; now rewrite nth_error_app1).
  erewrite sbind_Ok by (eapply Store_call_Ok; [apply Er1 | reflexivity]).
  rewrite (Store_set_same _ _ (Er1 _)).
  erewrite sbind_Ok by (rewrite Store_call_fresh0; reflexivity).
  cbn [Sum_length Sum_new Sum_summands length Store_set firstn skipn app].
  fold (Sum_length s).
  replace (ceilSqrt (Sum_length s * 1) * f <? 1 << 258) with true
    by (symmetry; apply Z.ltb_lt; rewrite Z.shiftl_1_l; lia).
  erewrite sbind_Ok by reflexivity.
  erewrite sbind_Ok by (rewrite Store_call_fresh0; reflexivity).
  erewrite sbind_Ok by (rewrite Store_call_fresh; reflexivity).
  cbn [Store_set firstn skipn app].
  erewrite sbind_Ok by (eapply Store_call_Ok; [apply Er1 | exact Efin]).
  unfold slift. cbn [app]. rewrite ?let_eta.
  set (m := (X * Field3_toBigint y) mod f).
  assert (Hm : 0 <= m < 2 ^ l3).
  { pose proof (Z.mod_pos_bound (X * Field3_toBigint y) f ltac:(lia)).
    subst m. lia. }
  destruct (Field3_isConstant rx && Field3_isConstant y
            && Field3_isConstant xy).
  - rewrite Vx, mod_spec, bind_ret by lia. fold m.
    unfold assert. destruct (Z.eqb_spec m (Field3_toBigint xy)) as [E | N];
      cbn [ret throw fst snd accepts app].
    + rewrite app_nil_r, Px. symmetry. apply Z.eqb_eq. now symmetry.
    + symmetry. apply Z.eqb_neq. intros E. now apply N.
  - assert (Hxy : Field3_toBigint rx * Field3_toBigint y < f * f)
      by (rewrite Vx; clear - HX BY HY; nia).
    rewrite <- (@limbs_eq_value _ xy m Hl Rxy Hm).
    destruct xy as [[xy0 xy1] xy2]. rewrite assertMulInternal_inl.
    destruct (@assertMulInternal_honest _ rx y
                (Field_add xy0 (Field_mul xy1 (Field_from (1 << l)))) xy2 f
                Hl Hp Hf Ix Ry Hxy) as (w & E & Pw).
    rewrite E. cbn [fst snd accepts].
    rewrite proofFails_app, Px, Pw. cbn [orb].
    rewrite negb_involutive, Vx. fold m.
    assert (R' := Rxy). unfold Field3_inRange in R'.
    apply andb_prop in R'; destruct R' as [R01 R2].
    apply andb_prop in R01; destruct R01 as [R0 R1].
    rewrite (@low_mid_value _ xy0 xy1 Hl Hp R0 R1). reflexivity.
Qed.

End SumProducts.

(** * The deployed configuration: examples for the further properties *)

Lemma singleAdd_honest_witness :
  let x := variable3 5 in
  let y := variable3 (secp256k1 - 1) in
  (0 <= @l pasta88 /\ 2 ^ @l pasta88 <= @nativeModulus pasta88 /\
   0 < secp256k1 < 2 ^ @l3 pasta88 /\
   @Field3_inRange pasta88 x = true /\ @Field3_inRange pasta88 y = true /\
   @Field3_toBigint pasta88 x < secp256k1 /\
   @Field3_toBigint pasta88 y < secp256k1) /\
  exists r o,
    fst (@singleAdd pasta88 x y Plus secp256k1)
    = Ok (r, @Field_witness pasta88 o) /\
    -1 <= o <= 1 /\ @Field3_inRange pasta88 r = true /\
    0 <= @Field3_toBigint pasta88 r < secp256k1.
Proof.
  intros x y.
  assert (H1 : 0 <= @l pasta88) by zcheck.
  assert (H2 : 2 ^ @l pasta88 <= @nativeModulus pasta88) by zcheck.
  assert (H3 : 0 < secp256k1 < 2 ^ @l3 pasta88) by zcheck.
  assert (H4 : @Field3_inRange pasta88 x = true) by reflexivity.
  assert (H5 : @Field3_inRange pasta88 y = true) by reflexivity.
  assert (H6 : @Field3_toBigint pasta88 x < secp256k1) by zcheck.
  assert (H7 : @Field3_toBigint pasta88 y < secp256k1) by zcheck.
  split; [exact (conj H1 (conj H2 (conj H3 (conj H4 (conj H5 (conj H6 H7))))))
         |].
  destruct (@singleAdd_honest pasta88 x y Plus secp256k1 H1 H2 H3 H4 H5 H6 H7)
    as (r & o & c & E & Ho & _ & _ & Ir & _ & Vr).
  exists r, o. rewrite E. split; [reflexivity |].
  split; [exact Ho |]. split; [exact Ir | exact Vr].
Defined.

Lemma sum_chain_sound_witness :
  let t0 := variable3 5 in
  let ts := [constant3 6; variable3 2] in
  let signs := [Minus; Plus] in
  (0 <= @l pasta88 /\ 2 ^ @l pasta88 <= @nativeModulus pasta88 /\
   0 < 7 < 2 ^ @l3 pasta88 /\ length ts = length signs /\
   Forall (fun t => @Field3_inRange pasta88 t = true
                    /\ @Field3_toBigint pasta88 t < 7) (t0 :: ts)) /\
  exists r w,
    @sum pasta88 (t0 :: ts) signs 7 = (Ok r, w) /\
    @Field3_toBigint pasta88 r = 1 /\ @proofFails pasta88 w = false.
Proof.
  intros t0 ts signs.
  assert (H1 : 0 <= @l pasta88) by zcheck.
  assert (H2 : 2 ^ @l pasta88 <= @nativeModulus pasta88) by zcheck.
  assert (H3 : 0 < 7 < 2 ^ @l3 pasta88) by zcheck.
  assert (H4 : length ts = length signs) by reflexivity.
  assert (H5 : Forall (fun t => @Field3_inRange pasta88 t = true
                                /\ @Field3_toBigint pasta88 t < 7)
                      (t0 :: ts)).
  { apply Forall_cons; [split; zcheck |].
    apply Forall_cons; [split; zcheck |].
    apply Forall_cons; [split; zcheck |]. apply Forall_nil. }
  split; [exact (conj H1 (conj H2 (conj H3 (conj H4 H5)))) |].
  destruct (@sum_chain_sound pasta88 t0 ts signs 7 H1 H2 H3 H4 H5)
    as (r & w & E & V & _ & P).
  exists r, w. split; [exact E |]. split; [rewrite V; zcheck | exact P].
Defined.

Lemma sum_throws_iff_mismatch_witness :
  let x := [variable3 1; variable3 2] in
  (0 < 7 \/ forallb (@Field3_isConstant) x = false) /\
  @sum pasta88 x [] 7 = throw (AssertionError "inputs and operators match") /\
  exists r w, @sum pasta88 x [Minus] 7 = (Ok r, w).
Proof.
  intros x.
  assert (H : 0 < 7 \/ forallb (@Field3_isConstant) x = false)
    by (left; zcheck).
  split; [exact H |]. split.
  - apply (proj1 (@sum_throws_iff_mismatch pasta88 x [] 7 H)). discriminate.
  - apply (proj2 (@sum_throws_iff_mismatch pasta88 x [Minus] 7 H)).
    reflexivity.
Defined.

Lemma add_sub_roundtrip_witness :
  let x := variable3 5 in
  let y := constant3 (secp256k1 - 1) in
  (0 <= @l pasta88 /\ 2 ^ @l pasta88 <= @nativeModulus pasta88 /\
   0 < secp256k1 < 2 ^ @l3 pasta88 /\
   0 <= @Field3_toBigint pasta88 x < secp256k1 /\
   0 <= @Field3_toBigint pasta88 y < secp256k1) /\
  exists r1 w1 r2 w2,
    @ForeignField_add pasta88 x y secp256k1 = (Ok r1, w1) /\
    @ForeignField_sub pasta88 r1 y secp256k1 = (Ok r2, w2) /\
    @Field3_toBigint pasta88 r2 = 5.
Proof.
  intros x y.
  assert (H1 : 0 <= @l pasta88) by zcheck.
  assert (H2 : 2 ^ @l pasta88 <= @nativeModulus pasta88) by zcheck.
  assert (H3 : 0 < secp256k1 < 2 ^ @l3 pasta88) by zcheck.
  assert (H4 : 0 <= @Field3_toBigint pasta88 x < secp256k1) by zcheck.
  assert (H5 : 0 <= @Field3_toBigint pasta88 y < secp256k1) by zcheck.
  split; [exact (conj H1 (conj H2 (conj H3 (conj H4 H5)))) |].
  destruct (@add_sub_roundtrip pasta88 x y secp256k1 H1 H2 H3 H4 H5)
    as [(r1 & w1 & r2 & w2 & E1 & E2 & V) _].
  exists r1, w1, r2, w2. split; [exact E1 |]. split; [exact E2 |].
  rewrite V. zcheck.
Defined.

Lemma negate_inverse_witness :
  let x := variable3 5 in
  (0 <= @l pasta88 /\ 2 ^ @l pasta88 <= @nativeModulus pasta88 /\
   0 < 7 < 2 ^ @l3 pasta88 /\ 0 <= @Field3_toBigint pasta88 x < 7) /\
  exists n wn z wz,
    @ForeignField_negate pasta88 x 7 = (Ok n, wn) /\
    @Field3_toBigint pasta88 n = 2 /\
    @ForeignField_add pasta88 x n 7 = (Ok z, wz) /\
    @Field3_toBigint pasta88 z = 0.
Proof.
  intros x.
  assert (H1 : 0 <= @l pasta88) by zcheck.
  assert (H2 : 2 ^ @l pasta88 <= @nativeModulus pasta88) by zcheck.
  assert (H3 : 0 < 7 < 2 ^ @l3 pasta88) by zcheck.
  assert (H4 : 0 <= @Field3_toBigint pasta88 x < 7) by zcheck.
  split; [exact (conj H1 (conj H2 (conj H3 H4))) |].
  destruct (@negate_inverse pasta88 x 7 H1 H2 H3 H4)
    as (n & wn & z & wz & En & Vn & Ez & Vz).
  exists n, wn, z, wz. split; [exact En |].
  split; [rewrite Vn; zcheck |]. split; [exact Ez | exact Vz].
Defined.

Lemma assertLessThan_decides_witness :
  (0 <= @l pasta88 /\ 2 * 2 ^ @l pasta88 <= @nativeModulus pasta88 /\
   0 < secp256k1 <= 2 ^ @l3 pasta88 /\
   @Field3_inRange pasta88 (variable3 secp256k1) = true /\
   @Field3_inRange pasta88 (variable3 (secp256k1 - 1)) = true) /\
  @accepts pasta88 unit
    (@ForeignField_assertLessThan pasta88 (variable3 secp256k1) secp256k1)
  = false /\
  @accepts pasta88 unit
    (@ForeignField_assertLessThan pasta88 (variable3 (secp256k1 - 1))
       secp256k1)
  = true.
Proof.
  assert (H1 : 0 <= @l pasta88) by zcheck.
  assert (H2 : 2 * 2 ^ @l pasta88 <= @nativeModulus pasta88) by zcheck.
  assert (H3 : 0 < secp256k1 <= 2 ^ @l3 pasta88) by zcheck.
  assert (H4 : @Field3_inRange pasta88 (variable3 secp256k1) = true)
    by reflexivity.
  assert (H5 : @Field3_inRange pasta88 (variable3 (secp256k1 - 1)) = true)
    by reflexivity.
  split; [exact (conj H1 (conj H2 (conj H3 (conj H4 H5)))) |]. split.
  - rewrite (@assertLessThan_decides pasta88 _ _ H1 H2 H3 H4). zcheck.
  - rewrite (@assertLessThan_decides pasta88 _ _ H1 H2 H3 H5). zcheck.
Defined.

Lemma multiplyNoRangeCheck_witnesses_exact_witness :
  let a := variable3 (2 ^ 255 - 1) in
  let b := constant3 7 in
  (0 <= @l pasta88 <= 88 /\ 0 < secp256k1 <= 2 ^ @l3 pasta88 /\
   @Field3_inRange pasta88 a = true /\ @Field3_inRange pasta88 b = true /\
   toBigint3 a = (2 ^ 88 - 1, 2 ^ 88 - 1, 2 ^ 79 - 1) /\
   toBigint3 b = (7, 0, 0) /\
   @split pasta88 ((1 << @l3 pasta88) - secp256k1)
   = (2 ^ 32 + 977, 0, 2 ^ 88 - 2 ^ 80) /\
   @Field3_toBigint pasta88 a * @Field3_toBigint pasta88 b
   < secp256k1 * 2 ^ @l3 pasta88) /\
  exists ws,
    @multiplyNoRangeCheck_witnesses pasta88 a b secp256k1 = ret ws /\
    length ws = 21%nat.
Proof.
  intros a b.
  assert (H1 : 0 <= @l pasta88 <= 88) by zcheck.
  assert (H2 : 0 < secp256k1 <= 2 ^ @l3 pasta88) by zcheck.
  assert (H3 : @Field3_inRange pasta88 a = true) by reflexivity.
  assert (H4 : @Field3_inRange pasta88 b = true) by reflexivity.
  assert (H5 : toBigint3 a = (2 ^ 88 - 1, 2 ^ 88 - 1, 2 ^ 79 - 1)) by zcheck.
  assert (H6 : toBigint3 b = (7, 0, 0)) by zcheck.
  assert (H7 : @split pasta88 ((1 << @l3 pasta88) - secp256k1)
               = (2 ^ 32 + 977, 0, 2 ^ 88 - 2 ^ 80)) by zcheck.
  assert (H8 : @Field3_toBigint pasta88 a * @Field3_toBigint pasta88 b
               < secp256k1 * 2 ^ @l3 pasta88) by zcheck.
  split; [exact (conj H1 (conj H2 (conj H3 (conj H4 (conj H5 (conj H6
                   (conj H7 H8))))))) |].
  destruct (@multiplyNoRangeCheck_witnesses_exact pasta88 a b secp256k1
              _ _ _ _ _ _ _ _ _ H1 H2 H3 H4 H5 H6 H7 H8)
    as (r01 & r2 & q0 & q1 & q2 & qb & p10 & p110 & p111 & c0 & s00 & s12
        & s24 & s36 & s48 & s60 & s72 & s84 & s86 & s88 & s90 & E & _).
  eexists. split; [exact E | reflexivity].
Defined.

Lemma multiply_accepted_witness :
  let a := variable3 (2 ^ 255 - 1) in
  let b := constant3 7 in
  (259 <= @l3 pasta88 /\ 2 ^ @l2 pasta88 <= @nativeModulus pasta88 /\
   0 < secp256k1 < 2 ^ 259 /\
   @Field3_inRange pasta88 a = true /\ @Field3_inRange pasta88 b = true /\
   @Field3_toBigint pasta88 a < secp256k1 /\
   @Field3_toBigint pasta88 b < secp256k1) /\
  exists r w,
    @multiply pasta88 a b secp256k1 = (Ok r, w) /\
    @Field3_inRange pasta88 r = true /\
    @proofFails pasta88 w = false /\ length w = 4%nat.
Proof.
  intros a b.
  assert (H1 : 259 <= @l3 pasta88) by zcheck.
  assert (H2 : 2 ^ @l2 pasta88 <= @nativeModulus pasta88) by zcheck.
  assert (H3 : 0 < secp256k1 < 2 ^ 259) by zcheck.
  assert (H4 : @Field3_inRange pasta88 a = true) by reflexivity.
  assert (H5 : @Field3_inRange pasta88 b = true) by reflexivity.
  assert (H6 : @Field3_toBigint pasta88 a < secp256k1) by zcheck.
  assert (H7 : @Field3_toBigint pasta88 b < secp256k1) by zcheck.
  split; [exact (conj H1 (conj H2 (conj H3 (conj H4 (conj H5 (conj H6 H7))))))
         |].
  destruct (@multiply_accepted pasta88 a b secp256k1 H1 H2 H3 H4 H5 H6 H7)
    as (r & w & E & Ir & _ & P & L).
  exists r, w. split; [exact E |]. split; [exact Ir |].
  split; [exact P | exact L].
Defined.

Lemma assertMulInternal_decides_witness :
  let x := variable3 3 in
  let y := variable3 5 in
  (0 <= @l pasta88 /\ 2 ^ @l2 pasta88 <= @nativeModulus pasta88 /\
   0 < 7 < 2 ^ @l3 pasta88 /\
   @Field3_inRange pasta88 x = true /\ @Field3_inRange pasta88 y = true /\
   @Field3_inRange pasta88 (variable3 1) = true /\
   @Field3_inRange pasta88 (variable3 2) = true /\
   @Field3_toBigint pasta88 x * @Field3_toBigint pasta88 y < 7 * 7) /\
  @accepts pasta88 unit (@assertMulInternal pasta88 x y (inl (variable3 1)) 7)
  = true /\
  @accepts pasta88 unit (@assertMulInternal pasta88 x y (inl (variable3 2)) 7)
  = false.
Proof.
  intros x y.
  assert (H1 : 0 <= @l pasta88) by zcheck.
  assert (H2 : 2 ^ @l2 pasta88 <= @nativeModulus pasta88) by zcheck.
  assert (H3 : 0 < 7 < 2 ^ @l3 pasta88) by zcheck.
  assert (H4 : @Field3_inRange pasta88 x = true) by reflexivity.
  assert (H5 : @Field3_inRange pasta88 y = true) by reflexivity.
  assert (H6 : @Field3_inRange pasta88 (variable3 1) = true) by reflexivity.
  assert (H7 : @Field3_inRange pasta88 (variable3 2) = true) by reflexivity.
  assert (H8 : @Field3_toBigint pasta88 x * @Field3_toBigint pasta88 y
               < 7 * 7) by zcheck.
  split; [exact (conj H1 (conj H2 (conj H3 (conj H4 (conj H5 (conj H6
                   (conj H7 H8))))))) |]. split.
  - rewrite (@assertMulInternal_decides pasta88 x y _ 7 H1 H2 H3 H4 H5 H6 H8).
    zcheck.
  - rewrite (@assertMulInternal_decides pasta88 x y _ 7 H1 H2 H3 H4 H5 H7 H8).
    zcheck.
Defined.

Lemma weakBound_decides_witness :
  (0 <= @l pasta88 /\ 2 * 2 ^ @l pasta88 <= @nativeModulus pasta88 /\
   0 <= secp256k1 < 2 ^ @l3 pasta88 /\
   inRange (@l pasta88) (@Field_witness pasta88 5) = true /\
   inRange (@l pasta88) (@Field_witness pasta88 (2 ^ 80)) = true) /\
  inRange (@l pasta88)
    (@weakBound pasta88 (@Field_witness pasta88 5) secp256k1) = true /\
  inRange (@l pasta88)
    (@weakBound pasta88 (@Field_witness pasta88 (2 ^ 80)) secp256k1) = false.
Proof.
  assert (H1 : 0 <= @l pasta88) by zcheck.
  assert (H2 : 2 * 2 ^ @l pasta88 <= @nativeModulus pasta88) by zcheck.
  assert (H3 : 0 <= secp256k1 < 2 ^ @l3 pasta88) by zcheck.
  assert (H4 : inRange (@l pasta88) (@Field_witness pasta88 5)
               = true) by reflexivity.
  assert (H5 : inRange (@l pasta88) (@Field_witness pasta88 (2 ^ 80))
               = true) by reflexivity.
  split; [exact (conj H1 (conj H2 (conj H3 (conj H4 H5)))) |]. split.
  - rewrite (@weakBound_decides pasta88 _ _ H1 H2 H3 H4). zcheck.
  - rewrite (@weakBound_decides pasta88 _ _ H1 H2 H3 H5). zcheck.
Defined.

Lemma inverse_sound_witness :
  let x := variable3 7 in
  (259 <= @l3 pasta88 /\ 2 ^ @l2 pasta88 <= @nativeModulus pasta88 /\
   1 < secp256k1 < 2 ^ 259 /\ @Field3_inRange pasta88 x = true /\
   @Field3_toBigint pasta88 x < secp256k1 /\
   Z.gcd (@Field3_toBigint pasta88 x) secp256k1 = 1) /\
  exists r w,
    @inverse pasta88 x secp256k1 = (Ok r, w) /\
    (@Field3_toBigint pasta88 r * @Field3_toBigint pasta88 x) mod secp256k1
    = 1 /\
    @proofFails pasta88 w = false.
Proof.
  intros x.
  assert (H1 : 259 <= @l3 pasta88) by zcheck.
  assert (H2 : 2 ^ @l2 pasta88 <= @nativeModulus pasta88) by zcheck.
  assert (H3 : 1 < secp256k1 < 2 ^ 259) by zcheck.
  assert (H4 : @Field3_inRange pasta88 x = true) by reflexivity.
  assert (H5 : @Field3_toBigint pasta88 x < secp256k1) by zcheck.
  assert (H6 : Z.gcd (@Field3_toBigint pasta88 x) secp256k1 = 1) by zcheck.
  split; [exact (conj H1 (conj H2 (conj H3 (conj H4 (conj H5 H6))))) |].
  destruct (@inverse_sound pasta88 x secp256k1 H1 H2 H3 H4 H5 H6)
    as (r & w & E & _ & _ & V & P).
  exists r, w. split; [exact E |]. split; [exact V | exact P].
Defined.

Lemma inverse_rejects_witness :
  (259 <= @l3 pasta88 /\ 2 ^ @l2 pasta88 <= @nativeModulus pasta88 /\
   1 < 4 < 2 ^ 259 /\ @Field3_inRange pasta88 (variable3 2) = true /\
   @Field3_inRange pasta88 (constant3 2) = true /\
   @Field3_toBigint pasta88 (variable3 2) < 4 /\
   @Field3_toBigint pasta88 (constant3 2) < 4 /\
   Z.gcd (@Field3_toBigint pasta88 (variable3 2)) 4 <> 1 /\
   Z.gcd (@Field3_toBigint pasta88 (constant3 2)) 4 <> 1) /\
  @inverse pasta88 (constant3 2) 4 = throw (AssertionError "inverse exists") /\
  exists r w,
    @inverse pasta88 (variable3 2) 4 = (Ok r, w) /\
    @proofFails pasta88 w = true.
Proof.
  assert (H1 : 259 <= @l3 pasta88) by zcheck.
  assert (H2 : 2 ^ @l2 pasta88 <= @nativeModulus pasta88) by zcheck.
  assert (H3 : 1 < 4 < 2 ^ 259) by zcheck.
  assert (H4 : @Field3_inRange pasta88 (variable3 2) = true) by reflexivity.
  assert (H4' : @Field3_inRange pasta88 (constant3 2) = true) by reflexivity.
  assert (H5 : @Field3_toBigint pasta88 (variable3 2) < 4) by zcheck.
  assert (H5' : @Field3_toBigint pasta88 (constant3 2) < 4) by zcheck.
  assert (H6 : Z.gcd (@Field3_toBigint pasta88 (variable3 2)) 4 <> 1)
    by (vm_compute; discriminate).
  assert (H6' : Z.gcd (@Field3_toBigint pasta88 (constant3 2)) 4 <> 1)
    by (vm_compute; discriminate).
  split; [exact (conj H1 (conj H2 (conj H3 (conj H4 (conj H4' (conj H5
                   (conj H5' (conj H6 H6')))))))) |]. split.
  - exact (proj1 (@inverse_rejects pasta88 (constant3 2) 4 H1 H2 H3 H4' H5'
                    H6') eq_refl).
  - destruct (proj2 (@inverse_rejects pasta88 (variable3 2) 4 H1 H2 H3 H4 H5
                       H6) eq_refl) as (r & w & E & _ & P).
    exists r, w. split; [exact E | exact P].
Defined.

Lemma divide_accepted_witness :
  let x := variable3 (2 ^ 255 - 1) in
  let y := variable3 7 in
  (259 <= @l3 pasta88 /\ 2 ^ @l2 pasta88 <= @nativeModulus pasta88 /\
   1 < secp256k1 < 2 ^ 259 /\
   @Field3_inRange pasta88 x = true /\ @Field3_inRange pasta88 y = true /\
   @Field3_toBigint pasta88 x < secp256k1 /\
   @Field3_toBigint pasta88 y < secp256k1 /\
   Z.gcd (@Field3_toBigint pasta88 y) secp256k1 = 1) /\
  exists z w,
    @divide pasta88 x y secp256k1 false = (Ok z, w) /\
    @Field3_inRange pasta88 z = true /\ @proofFails pasta88 w = false.
Proof.
  intros x y.
  assert (H1 : 259 <= @l3 pasta88) by zcheck.
  assert (H2 : 2 ^ @l2 pasta88 <= @nativeModulus pasta88) by zcheck.
  assert (H3 : 1 < secp256k1 < 2 ^ 259) by zcheck.
  assert (H4 : @Field3_inRange pasta88 x = true) by reflexivity.
  assert (H5 : @Field3_inRange pasta88 y = true) by reflexivity.
  assert (H6 : @Field3_toBigint pasta88 x < secp256k1) by zcheck.
  assert (H7 : @Field3_toBigint pasta88 y < secp256k1) by zcheck.
  assert (H8 : Z.gcd (@Field3_toBigint pasta88 y) secp256k1 = 1) by zcheck.
  split; [exact (conj H1 (conj H2 (conj H3 (conj H4 (conj H5 (conj H6
                   (conj H7 H8))))))) |].
  destruct (@divide_accepted pasta88 x y secp256k1 false H1 H2 H3 H4 H5 H6 H7
              H8) as (z & w & E & Iz & _ & P).
  exists z, w. split; [exact E |]. split; [exact Iz | exact P].
Defined.


Lemma divide_noninvertible_witness :
  (259 <= @l3 pasta88 /\ 2 ^ @l2 pasta88 <= @nativeModulus pasta88 /\
   1 < 4 < 2 ^ 259 /\
   @Field3_inRange pasta88 (variable3 0) = true /\
   @Field3_inRange pasta88 (constant3 0) = true /\
   @Field3_inRange pasta88 (variable3 2) = true /\
   @Field3_inRange pasta88 (constant3 2) = true /\
   Z.gcd (@Field3_toBigint pasta88 (variable3 2)) 4 <> 1 /\
   Z.gcd (@Field3_toBigint pasta88 (constant3 2)) 4 <> 1) /\
  @divide pasta88 (constant3 0) (constant3 2) 4 true
  = throw (AssertionError "inverse exists") /\
  exists z w,
    @divide pasta88 (variable3 0) (variable3 2) 4 true = (Ok z, w) /\
    toBigint3 z = (0, 0, 0) /\ @proofFails pasta88 w = false.
Proof.
  assert (H1 : 259 <= @l3 pasta88) by zcheck.
  assert (H2 : 2 ^ @l2 pasta88 <= @nativeModulus pasta88) by zcheck.
  assert (H3 : 1 < 4 < 2 ^ 259) by zcheck.
  assert (H4 : @Field3_inRange pasta88 (variable3 0) = true) by reflexivity.
  assert (H4' : @Field3_inRange pasta88 (constant3 0) = true) by reflexivity.
  assert (H5 : @Field3_inRange pasta88 (variable3 2) = true) by reflexivity.
  assert (H5' : @Field3_inRange pasta88 (constant3 2) = true) by reflexivity.
  assert (H6 : Z.gcd (@Field3_toBigint pasta88 (variable3 2)) 4 <> 1)
    by (vm_compute; discriminate).
  assert (H6' : Z.gcd (@Field3_toBigint pasta88 (constant3 2)) 4 <> 1)
    by (vm_compute; discriminate).
  split; [exact (conj H1 (conj H2 (conj H3 (conj H4 (conj H4' (conj H5
                   (conj H5' (conj H6 H6')))))))) |]. split.
  - exact (proj1 (@divide_noninvertible pasta88 (constant3 0) (constant3 2) 4
                    H1 H2 H3 H4' H5' H6') eq_refl true).
  - destruct (proj2 (@divide_noninvertible pasta88 (variable3 0) (variable3 2)
                       4 H1 H2 H3 H4 H5 H6) eq_refl) as (z & w & E & T & P).
    exists z, w. split; [exact E |]. split; [exact T |].
    rewrite P. zcheck.
Defined.

Lemma assertAlmostFieldElements_decides_witness :
  (0 <= @l pasta88 /\ 2 * 2 ^ @l pasta88 <= @nativeModulus pasta88 /\
   0 <= secp256k1 < 2 ^ @l3 pasta88) /\
  @accepts pasta88 unit
    (@assertAlmostFieldElements pasta88
       [variable3 5; constant3 (secp256k1 - 1)] secp256k1) = true /\
  @accepts pasta88 unit
    (@assertAlmostFieldElements pasta88 [variable3 (2 ^ 264 - 1)] secp256k1)
  = false.
Proof.
  assert (H1 : 0 <= @l pasta88) by zcheck.
  assert (H2 : 2 * 2 ^ @l pasta88 <= @nativeModulus pasta88) by zcheck.
  assert (H3 : 0 <= secp256k1 < 2 ^ @l3 pasta88) by zcheck.
  split; [exact (conj H1 (conj H2 H3)) |]. split.
  - rewrite (@assertAlmostFieldElements_decides pasta88 _ _ H1 H2 H3). zcheck.
  - rewrite (@assertAlmostFieldElements_decides pasta88 _ _ H1 H2 H3). zcheck.
Defined.

Lemma assertAlmostFieldElements_rows_witness :
  let xs := [variable3 1; variable3 2; variable3 3; variable3 4] in
  Forall (fun x : Field3 => Field_isConstant (snd x) = false) xs /\
  exists w,
    @assertAlmostFieldElements pasta88 xs 7 = (Ok tt, w) /\
    length w = 6%nat.
Proof.
  intros xs.
  assert (H : Forall (fun x : Field3 => Field_isConstant (snd x) = false) xs)
    by (repeat (apply Forall_cons; [reflexivity |]); apply Forall_nil).
  split; [exact H |].
  destruct (@assertAlmostFieldElements_rows pasta88 xs 7 H)
    as (w & E & L & _).
  exists w. split; [exact E | exact L].
Defined.

Lemma Sum_finish_rangeCheck_is_sum_witness :
  let x := variable3 5 in
  let ys := [(Plus, variable3 4); (Minus, constant3 6)] in
  let this := mkSum None [x; variable3 4; constant3 6] [Plus; Minus] in
  (0 <= @l pasta88 /\ 0 < @nativeModulus pasta88 /\ ys <> [] /\
   Sum_chained (Sum_new x) ys = ret this) /\
  (rs <- @Sum_finish pasta88 this 7 false ;;
   @Sum_rangeCheck pasta88 (snd rs) ;;; ret (fst rs))
  = @sum pasta88 [x; variable3 4; constant3 6] [Plus; Minus] 7.
Proof.
  intros x ys this.
  assert (H1 : 0 <= @l pasta88) by zcheck.
  assert (H2 : 0 < @nativeModulus pasta88) by zcheck.
  assert (H3 : ys <> []) by discriminate.
  assert (H4 : Sum_chained (Sum_new x) ys = ret this) by reflexivity.
  split; [exact (conj H1 (conj H2 (conj H3 H4))) |].
  exact (@Sum_finish_rangeCheck_is_sum pasta88 x ys 7 this H1 H2 H3 H4).
Defined.

Lemma Sum_finishForMulInput_honest_witness :
  let x := variable3 5 in
  let ys := [(Plus, variable3 4); (Minus, constant3 6)] in
  let this := mkSum None [x; variable3 4; constant3 6] [Plus; Minus] in
  (0 <= @l pasta88 /\ 2 ^ @l pasta88 <= @nativeModulus pasta88 /\
   0 < 7 < 2 ^ @l3 pasta88 /\
   Forall (fun t => @Field3_inRange pasta88 t = true
                    /\ @Field3_toBigint pasta88 t < 7) (x :: map snd ys) /\
   Sum_chained (Sum_new x) ys = ret this) /\
  exists r w,
    fst (@Sum_finishForMulInput pasta88 this 7 true)
    = Ok (r, mkSum (Some r) [x; variable3 4; constant3 6] [Plus; Minus]) /\
    snd (@Sum_finishForMulInput pasta88 this 7 true) = w /\
    @proofFails pasta88 w = false /\ @Field3_toBigint pasta88 r = 3.
Proof.
  intros x ys this.
  assert (H1 : 0 <= @l pasta88) by zcheck.
  assert (H2 : 2 ^ @l pasta88 <= @nativeModulus pasta88) by zcheck.
  assert (H3 : 0 < 7 < 2 ^ @l3 pasta88) by zcheck.
  assert (H4 : Forall (fun t => @Field3_inRange pasta88 t = true
                                /\ @Field3_toBigint pasta88 t < 7)
                      (x :: map snd ys)).
  { apply Forall_cons; [split; zcheck |].
    apply Forall_cons; [split; zcheck |].
    apply Forall_cons; [split; zcheck |]. apply Forall_nil. }
  assert (H5 : Sum_chained (Sum_new x) ys = ret this) by reflexivity.
  split; [exact (conj H1 (conj H2 (conj H3 (conj H4 H5)))) |].
  destruct (@Sum_finishForMulInput_honest pasta88 x ys 7 true this H1 H2 H3
              H4 H5) as (r & w & E & P & _ & V).
  exists r, w. rewrite E. split; [reflexivity |]. split; [reflexivity |].
  split; [exact P |]. rewrite V. zcheck.
Defined.

Lemma assertMul_triples_decides_witness :
  let x := variable3 3 in
  let y := variable3 5 in
  let xy := variable3 1 in
  (258 <= @l3 pasta88 /\ 2 ^ @l2 pasta88 <= @nativeModulus pasta88 /\
   0 < 7 < 2 ^ 258 /\
   @Field3_inRange pasta88 x = true /\ @Field3_inRange pasta88 y = true /\
   @Field3_inRange pasta88 xy = true /\
   @Field3_toBigint pasta88 x * @Field3_toBigint pasta88 y < 7 * 7) /\
  @accepts pasta88 unit
    (fst (@assertMul pasta88 (inl x) (inl y) (inl xy) 7 [])) = true.
Proof.
  intros x y xy.
  assert (H1 : 258 <= @l3 pasta88) by zcheck.
  assert (H2 : 2 ^ @l2 pasta88 <= @nativeModulus pasta88) by zcheck.
  assert (H3 : 0 < 7 < 2 ^ 258) by zcheck.
  assert (H4 : @Field3_inRange pasta88 x = true) by reflexivity.
  assert (H5 : @Field3_inRange pasta88 y = true) by reflexivity.
  assert (H6 : @Field3_inRange pasta88 xy = true) by reflexivity.
  assert (H7 : @Field3_toBigint pasta88 x * @Field3_toBigint pasta88 y
               < 7 * 7) by zcheck.
  split; [exact (conj H1 (conj H2 (conj H3 (conj H4 (conj H5 (conj H6 H7))))))
         |].
  rewrite (proj1 (@assertMul_triples_decides pasta88 x y xy 7 [] H1 H2 H3 H4
                    H5 H6 H7)).
  zcheck.
Defined.

Lemma assertMul_bound_guard_witness :
  let sx := Sum_new (variable3 1) in
  let sy := mkSum None [variable3 2; variable3 3] [Plus] in
  let st := [sx; sy] in
  (nth_error st 0 = Some sx /\ nth_error st 1 = Some sy /\
   Sum_result_ sx = None /\ Sum_result_ sy = None /\
   2 ^ 258 <= ceilSqrt (Sum_length sx * Sum_length sy) * 2 ^ 257 /\
   2 ^ 258 <= 2 ^ 258) /\
  fst (@assertMul pasta88 (inr 0%nat) (inr 1%nat) (inl (variable3 6))
         (2 ^ 257) st)
  = throw (AssertionError (assertMul_message 1 2)) /\
  fst (@assertMul pasta88 (inl (variable3 1)) (inl (variable3 2))
         (inl (variable3 2)) (2 ^ 258) st)
  = throw (AssertionError (assertMul_message 1 1)).
Proof.
  intros sx sy st.
  assert (H1 : nth_error st 0 = Some sx) by reflexivity.
  assert (H2 : nth_error st 1 = Some sy) by reflexivity.
  assert (H3 : Sum_result_ sx = None) by reflexivity.
  assert (H4 : Sum_result_ sy = None) by reflexivity.
  assert (H5 : 2 ^ 258 <= ceilSqrt (Sum_length sx * Sum_length sy) * 2 ^ 257)
    by zcheck.
  assert (H6 : 2 ^ 258 <= 2 ^ 258) by zcheck.
  split; [exact (conj H1 (conj H2 (conj H3 (conj H4 (conj H5 H6))))) |].
  split.
  - exact (f_equal fst
             (proj1 (@assertMul_bound_guard pasta88 0%nat 1%nat (variable3 1)
                       (variable3 2) (variable3 6) sx sy (2 ^ 257) st
                       H1 H2 H3 H4) H5)).
  - exact (f_equal fst
             (proj2 (@assertMul_bound_guard pasta88 0%nat 1%nat (variable3 1)
                       (variable3 2) (variable3 2) sx sy (2 ^ 258) st
                       H1 H2 H3 H4) H6)).
Defined.

Lemma assertMul_same_sum_twice_witness :
  let x0 := variable3 5 in
  let ys := [(Plus, variable3 4)] in
  let s := mkSum None [x0; variable3 4] [Plus] in
  (nth_error [s] 0 = Some s /\ Sum_chained (Sum_new x0) ys = ret s /\
   ceilSqrt (Sum_length s * Sum_length s) * 7 < 2 ^ 258 /\
   (0 < 7 \/ @Sum_isConstant s = false)) /\
  exists w st',
    @assertMul pasta88 (inr 0%nat) (inr 0%nat) (inl (variable3 1)) 7 [s]
    = ((Err (AssertionError "sum already finished"), w), st').
Proof.
  intros x0 ys s.
  assert (H1 : nth_error [s] 0 = Some s) by reflexivity.
  assert (H2 : Sum_chained (Sum_new x0) ys = ret s) by reflexivity.
  assert (H3 : ceilSqrt (Sum_length s * Sum_length s) * 7 < 2 ^ 258)
    by zcheck.
  assert (H4 : 0 < 7 \/ @Sum_isConstant s = false) by (left; zcheck).
  split; [exact (conj H1 (conj H2 (conj H3 H4))) |].
  destruct (@assertMul_same_sum_twice pasta88 0%nat x0 (variable3 1) ys s 7
              [s] H1 H2 H3 H4) as (w & st' & s' & E & _).
  exists w, st'. exact E.
Defined.

Lemma assertMul_sum_decides_witness :
  let x0 := variable3 5 in
  let ys := [(Plus, variable3 4)] in
  let s := mkSum None [x0; variable3 4] [Plus] in
  let y := variable3 3 in
  let xy := variable3 6 in
  (258 <= @l3 pasta88 /\ 2 ^ @l2 pasta88 <= @nativeModulus pasta88 /\
   nth_error [s] 0 = Some s /\ Sum_chained (Sum_new x0) ys = ret s /\
   0 < 7 /\ ceilSqrt (Sum_length s * 1) * 7 < 2 ^ 258 /\
   Forall (fun t => @Field3_inRange pasta88 t = true
                    /\ @Field3_toBigint pasta88 t < 7) (x0 :: map snd ys) /\
   @Field3_inRange pasta88 y = true /\ @Field3_toBigint pasta88 y < 7 /\
   @Field3_inRange pasta88 xy = true) /\
  @accepts pasta88 unit
    (fst (@assertMul pasta88 (inr 0%nat) (inl y) (inl xy) 7 [s])) = true.
Proof.
  intros x0 ys s y xy.
  assert (H1 : 258 <= @l3 pasta88) by zcheck.
  assert (H2 : 2 ^ @l2 pasta88 <= @nativeModulus pasta88) by zcheck.
  assert (H3 : nth_error [s] 0 = Some s) by reflexivity.
  assert (H4 : Sum_chained (Sum_new x0) ys = ret s) by reflexivity.
  assert (H5 : 0 < 7) by zcheck.
  assert (H6 : ceilSqrt (Sum_length s * 1) * 7 < 2 ^ 258) by zcheck.
  assert (H7 : Forall (fun t => @Field3_inRange pasta88 t = true
                                /\ @Field3_toBigint pasta88 t < 7)
                      (x0 :: map snd ys)).
  { apply Forall_cons; [split; zcheck |].
    apply Forall_cons; [split; zcheck |]. apply Forall_nil. }
  assert (H8 : @Field3_inRange pasta88 y = true) by reflexivity.
  assert (H9 : @Field3_toBigint pasta88 y < 7) by zcheck.
  assert (H10 : @Field3_inRange pasta88 xy = true) by reflexivity.
  split; [exact (conj H1 (conj H2 (conj H3 (conj H4 (conj H5 (conj H6
                   (conj H7 (conj H8 (conj H9 H10))))))))) |].
  refine (eq_trans (@assertMul_sum_decides pasta88 0%nat x0 y xy ys s 7 [s]
                      H1 H2 H3 H4 H5 H6 H7 H8 H9 H10) _).
  zcheck.
Defined.
